(** * Convolutional sequence-to-sequence model: a shallow embedding

    The notebook "5 - Convolutional Sequence to Sequence Learning" defines an
    [Encoder], a [Decoder] and a [Seq2Seq] module on top of PyTorch, together
    with the [train] and [evaluate] functions and the epoch loop.

    Tensors are modelled as a shape together with an element function, with
    real-number entries (exact arithmetic stands for float32).  Every PyTorch
    primitive used by the notebook is written out with the shape checks that
    make it raise; a forward pass is a computation in a state-and-error monad
    whose state is the random stream consumed by dropout. *)

From Stdlib Require Import Reals Lra Lia List ZArith QArith Qreals Bool Arith PeanoNat.
Import ListNotations.

Close Scope Q_scope.
Close Scope R_scope.
Close Scope Z_scope.
Open Scope nat_scope.

(* ================================================================= *)
(** ** Exceptions, results and the forward-pass monad *)

Inductive exn : Set :=
  | AssertionError
  | ValueError
  | IndexError
  | RuntimeError
  | UnboundLocalError
  | ZeroDivisionError
  | FileNotFoundError.

Definition result (A : Type) : Type := (A + exn)%type.

Definition rbind {A B : Type} (r : result A) (f : A -> result B) : result B :=
  match r with
  | inl a => f a
  | inr e => inr e
  end.

(** The global random generator, as the stream of keep/drop decisions that
    dropout will draw from it. *)
Definition rng : Type := nat -> bool.

Definition M (A : Type) : Type := rng -> result (A * rng).

Definition ret {A : Type} (a : A) : M A := fun g => inl (a, g).

Definition raise {A : Type} (e : exn) : M A := fun _ => inr e.

Definition bind {A B : Type} (m : M A) (f : A -> M B) : M B :=
  fun g => match m g with
           | inl (a, g') => f a g'
           | inr e => inr e
           end.

Definition lift {A : Type} (r : result A) : M A :=
  fun g => match r with
           | inl a => inl (a, g)
           | inr e => inr e
           end.

Declare Scope fwd_scope.
Delimit Scope fwd_scope with fwd.
Notation "x <- m ;; k" := (bind m (fun x => k))
  (at level 61, m at next level, right associativity) : fwd_scope.
Notation "' pat <- m ;; k" := (bind m (fun x => match x with pat => k end))
  (at level 61, pat pattern, m at next level, right associativity) : fwd_scope.

Declare Scope res_scope.
Delimit Scope res_scope with res.
Notation "x <~ r ;; k" := (rbind r (fun x => k))
  (at level 61, r at next level, right associativity) : res_scope.

(* ================================================================= *)
(** ** Tensors *)

(** A float tensor of rank 3, 2: its shape and its entries. *)
Record tensor3 : Type := mk3 {
  d0 : nat; d1 : nat; d2 : nat;
  at3 : nat -> nat -> nat -> R
}.

Record tensor2 : Type := mk2 {
  r0 : nat; r1 : nat;
  at2 : nat -> nat -> R
}.

(** A LongTensor (token or position indices) of rank 2, 1. *)
Record ltensor2 : Type := mkL2 {
  l0 : nat; l1 : nat;
  atL2 : nat -> nat -> Z
}.

Record ltensor1 : Type := mkL1 {
  n0 : nat;
  atL1 : nat -> Z
}.

Definition shape3 (x : tensor3) : nat * nat * nat := (d0 x, d1 x, d2 x).

(** [sum_{i < n} f i] *)
Fixpoint rsum (n : nat) (f : nat -> R) : R :=
  match n with
  | O => 0%R
  | S m => (rsum m f + f m)%R
  end.

(** Broadcasting of one dimension: two sizes are compatible when they are
    equal or one of them is 1; [bidx d i] is the index read from an operand
    whose size is [d]. *)
Definition compatible (m n : nat) : bool :=
  (m =? n) || (m =? 1) || (n =? 1).

Definition bdim (m n : nat) : nat := if m =? 1 then n else m.

Definition bidx (d i : nat) : nat := if d =? 1 then 0 else i.

(** [a + b] on rank-3 tensors. *)
Definition add3_out (a b : tensor3) : tensor3 :=
  mk3 (bdim (d0 a) (d0 b)) (bdim (d1 a) (d1 b)) (bdim (d2 a) (d2 b))
    (fun i j k =>
       (at3 a (bidx (d0 a) i) (bidx (d1 a) j) (bidx (d2 a) k)
        + at3 b (bidx (d0 b) i) (bidx (d1 b) j) (bidx (d2 b) k))%R).

Definition add3 (a b : tensor3) : result tensor3 :=
  if compatible (d0 a) (d0 b) && compatible (d1 a) (d1 b) && compatible (d2 a) (d2 b)
  then inl (add3_out a b)
  else inr RuntimeError.

(** [x * scale], where [scale] is a one-element tensor. *)
Definition scale3 (x : tensor3) (s : R) : tensor3 :=
  mk3 (d0 x) (d1 x) (d2 x) (fun i j k => (at3 x i j k * s)%R).

(** [x.permute(0, 2, 1)] *)
Definition permute021 (x : tensor3) : tensor3 :=
  mk3 (d0 x) (d2 x) (d1 x) (fun i j k => at3 x i k j).

(** [torch.arange(0, len).unsqueeze(0).repeat(batch_size, 1)] *)
Definition arange_repeat (batch_size len : nat) : ltensor2 :=
  mkL2 batch_size len (fun _ t => Z.of_nat t).

(** [torch.zeros(m0, m1, m2).fill_(v)]; a negative size raises.  The third
    size is an integer since the notebook computes it by subtraction. *)
Definition zeros_fill_out (m0 m1 : nat) (m2 : Z) (v : Z) : tensor3 :=
  mk3 m0 m1 (Z.to_nat m2) (fun _ _ _ => IZR v).

Definition zeros_fill (m0 m1 : nat) (m2 : Z) (v : Z) : result tensor3 :=
  if (m2 <? 0)%Z then inr RuntimeError
  else inl (zeros_fill_out m0 m1 m2 v).

(** [torch.cat((a, b), dim = 2)] *)
Definition cat2_out (a b : tensor3) : tensor3 :=
  mk3 (d0 a) (d1 a) (d2 a + d2 b)
    (fun i j k => if k <? d2 a then at3 a i j k else at3 b i j (k - d2 a)).

Definition cat2 (a b : tensor3) : result tensor3 :=
  if (d0 a =? d0 b) && (d1 a =? d1 b) then inl (cat2_out a b)
  else inr RuntimeError.

(** [torch.matmul(a, b)] on batched matrices: the batch dimension
    broadcasts, the inner dimensions must agree. *)
Definition matmul_out (a b : tensor3) : tensor3 :=
  mk3 (bdim (d0 a) (d0 b)) (d1 a) (d2 b)
    (fun i j k =>
       rsum (d2 a)
         (fun c => (at3 a (bidx (d0 a) i) j c * at3 b (bidx (d0 b) i) c k)%R)).

Definition matmul (a b : tensor3) : result tensor3 :=
  if compatible (d0 a) (d0 b) && (d2 a =? d1 b) then inl (matmul_out a b)
  else inr RuntimeError.

Definition sigmoid (x : R) : R := (1 / (1 + exp (- x)))%R.

(** [F.glu(x, dim = 1)]: the channel axis is halved, the first half gated
    by the sigmoid of the second; an odd number of channels raises. *)
Definition glu1_out (x : tensor3) : tensor3 :=
  mk3 (d0 x) (d1 x / 2) (d2 x)
    (fun i c t => (at3 x i c t * sigmoid (at3 x i (c + d1 x / 2) t))%R).

Definition glu1 (x : tensor3) : result tensor3 :=
  if Nat.even (d1 x) then inl (glu1_out x) else inr RuntimeError.

(** [F.softmax(x, dim = 2)] *)
Definition softmax2 (x : tensor3) : tensor3 :=
  mk3 (d0 x) (d1 x) (d2 x)
    (fun i j k => (exp (at3 x i j k) / rsum (d2 x) (fun k' => exp (at3 x i j k')))%R).

(* ================================================================= *)
(** ** Layers of [torch.nn] *)

Record Embedding : Type := mkEmbedding {
  num_embeddings : nat;
  embedding_dim : nat;
  emb_weight : nat -> nat -> R
}.

Definition index_ok (num : nat) (i : Z) : bool :=
  ((0 <=? i)%Z && (i <? Z.of_nat num)%Z)%bool.

Definition indices_ok (num : nat) (idx : ltensor2) : bool :=
  forallb (fun b => forallb (fun t => index_ok num (atL2 idx b t)) (seq 0 (l1 idx)))
          (seq 0 (l0 idx)).

(** The rows the lookup reads. *)
Definition Embedding_out (e : Embedding) (idx : ltensor2) : tensor3 :=
  mk3 (l0 idx) (l1 idx) (embedding_dim e)
    (fun b t c => emb_weight e (Z.to_nat (atL2 idx b t)) c).

(** The lookup raises on an index outside the table: an IndexError, or,
    for a table of width 0, a RuntimeError. *)
Definition Embedding_forward (e : Embedding) (idx : ltensor2) : result tensor3 :=
  if indices_ok (num_embeddings e) idx then inl (Embedding_out e idx)
  else if embedding_dim e =? 0 then inr RuntimeError
  else inr IndexError.

Record Linear : Type := mkLinear {
  in_features : nat;
  out_features : nat;
  lin_weight : nat -> nat -> R;
  lin_bias : nat -> R
}.

Definition Linear_out (l : Linear) (x : tensor3) : tensor3 :=
  mk3 (d0 x) (d1 x) (out_features l)
    (fun b t o =>
       (rsum (in_features l) (fun c => (at3 x b t c * lin_weight l o c)%R)
        + lin_bias l o)%R).

Definition Linear_forward (l : Linear) (x : tensor3) : result tensor3 :=
  if d2 x =? in_features l then inl (Linear_out l x) else inr RuntimeError.

Record Conv1d : Type := mkConv1d {
  in_channels : nat;
  out_channels : nat;
  kernel_size : nat;
  padding : nat;
  conv_weight : nat -> nat -> nat -> R;
  conv_bias : nat -> R
}.

(** The input extended by [p] zeros on each side. *)
Definition zero_padded (p : nat) (x : tensor3) (b c u : nat) : R :=
  if (u <? p) || (p + d2 x <=? u) then 0%R else at3 x b c (u - p).

(** Stride 1, no dilation: the output has [len + 2 * padding - kernel_size + 1]
    positions.  A convolution without output channels raises (the first
    dimension of its weight must be at least the number of groups), and so
    does a padded input shorter than the kernel. *)
Definition Conv1d_out (cv : Conv1d) (x : tensor3) : tensor3 :=
  mk3 (d0 x) (out_channels cv) (d2 x + 2 * padding cv - kernel_size cv + 1)
    (fun b o t =>
       (conv_bias cv o
        + rsum (in_channels cv) (fun c =>
            rsum (kernel_size cv) (fun j =>
              (conv_weight cv o c j * zero_padded (padding cv) x b c (t + j))%R)))%R).

Definition Conv1d_forward (cv : Conv1d) (x : tensor3) : result tensor3 :=
  if d1 x =? in_channels cv then
    if out_channels cv =? 0 then inr RuntimeError
    else if d2 x + 2 * padding cv <? kernel_size cv then inr RuntimeError
    else inl (Conv1d_out cv x)
  else inr RuntimeError.

(** [nn.Dropout(p)] refuses a probability outside [0, 1]. *)
Definition Dropout_init (p : Q) : result Q :=
  if (Qle_bool 0 p && Qle_bool p 1)%bool then inl p else inr ValueError.

(** Whether the element at flat position [n] is kept: a Bernoulli draw of
    parameter [1 - p]. *)
Definition keeps (p : Q) (g : rng) (n : nat) : bool :=
  if Qeq_bool p 1 then false
  else if Qeq_bool p 0 then true
  else g n.

(** [nn.Dropout.forward]: the identity outside training; in training every
    element is zeroed or scaled by [1 / (1 - p)], one draw per element. *)
Definition Dropout_out (training : bool) (p : Q) (g : rng) (x : tensor3) : tensor3 :=
  if training then
    mk3 (d0 x) (d1 x) (d2 x)
      (fun i j k =>
         if keeps p g ((i * d1 x + j) * d2 x + k)
         then (at3 x i j k * / (1 - Q2R p))%R
         else 0%R)
  else x.

Definition Dropout_rng (training : bool) (g : rng) (x : tensor3) : rng :=
  if training then fun n => g (n + d0 x * d1 x * d2 x) else g.

Definition Dropout_forward (training : bool) (p : Q) (x : tensor3) : M tensor3 :=
  fun g => inl (Dropout_out training p g x, Dropout_rng training g x).

(* ================================================================= *)
(** ** Encoder *)

Definition default_max_length : nat := 100.

Module Encoder.

Record t : Type := mk {
  training : bool;
  scale : R;
  tok_embedding : Embedding;
  pos_embedding : Embedding;
  emb2hid : Linear;
  hid2emb : Linear;
  convs : list Conv1d;
  dropout : Q
}.

(** The values the framework's initialiser gives the parameters. *)
Record initial : Type := mkInitial {
  tok_w : nat -> nat -> R;
  pos_w : nat -> nat -> R;
  emb2hid_w : nat -> nat -> R;
  emb2hid_b : nat -> R;
  hid2emb_w : nat -> nat -> R;
  hid2emb_b : nat -> R;
  convs_w : nat -> nat -> nat -> nat -> R;
  convs_b : nat -> nat -> R
}.

(** [Encoder.__init__]; the device argument plays no part in the values.
    A freshly built module is in training mode. *)
Definition init (input_dim emb_dim hid_dim n_layers kernel_size : nat)
    (dropout : Q) (max_length : nat) (w : initial) : result t :=
  if negb (kernel_size mod 2 =? 1) then inr AssertionError
  else
    (p <~ Dropout_init dropout ;;
     inl {| training := true;
            scale := sqrt (1 / 2);
            tok_embedding := mkEmbedding input_dim emb_dim (tok_w w);
            pos_embedding := mkEmbedding max_length emb_dim (pos_w w);
            emb2hid := mkLinear emb_dim hid_dim (emb2hid_w w) (emb2hid_b w);
            hid2emb := mkLinear hid_dim emb_dim (hid2emb_w w) (hid2emb_b w);
            convs := map (fun l => mkConv1d hid_dim (2 * hid_dim) kernel_size
                                     ((kernel_size - 1) / 2)
                                     (convs_w w l) (convs_b w l))
                         (seq 0 n_layers);
            dropout := p |})%res.

(** [self.train(mode)] *)
Definition train (mode : bool) (self : t) : t :=
  {| training := mode;
     scale := scale self;
     tok_embedding := tok_embedding self;
     pos_embedding := pos_embedding self;
     emb2hid := emb2hid self;
     hid2emb := hid2emb self;
     convs := convs self;
     dropout := dropout self |}.

(** One pass through the body of the loop over [self.convs]. *)
Definition block (self : t) (conv : Conv1d) (conv_input : tensor3) : M tensor3 :=
  (dropped <- Dropout_forward (training self) (dropout self) conv_input ;;
   conved <- lift (Conv1d_forward conv dropped) ;;
   conved <- lift (glu1 conved) ;;
   s <- lift (add3 conved conv_input) ;;
   ret (scale3 s (scale self)))%fwd.

(** The loop; [conved] is bound only once the body has run. *)
Fixpoint blocks (self : t) (cs : list Conv1d) (conv_input : tensor3)
    (conved : option tensor3) : M (tensor3 * option tensor3) :=
  match cs with
  | [] => ret (conv_input, conved)
  | conv :: rest =>
      (c <- block self conv conv_input ;;
       blocks self rest c (Some c))%fwd
  end.

Definition forward (self : t) (src : ltensor2) : M (tensor3 * tensor3) :=
  let batch_size := l0 src in
  let src_len := l1 src in
  let pos := arange_repeat batch_size src_len in
  (tok_embedded <- lift (Embedding_forward (tok_embedding self) src) ;;
   pos_embedded <- lift (Embedding_forward (pos_embedding self) pos) ;;
   s <- lift (add3 tok_embedded pos_embedded) ;;
   embedded <- Dropout_forward (training self) (dropout self) s ;;
   conv_input <- lift (Linear_forward (emb2hid self) embedded) ;;
   ' (_, conved) <- blocks self (convs self) (permute021 conv_input) None ;;
   match conved with
   | None => raise UnboundLocalError
   | Some conved =>
       conved <- lift (Linear_forward (hid2emb self) (permute021 conved)) ;;
       s <- lift (add3 conved embedded) ;;
       ret (conved, scale3 s (scale self))
   end)%fwd.

End Encoder.

(* ================================================================= *)
(** ** Decoder *)

Module Decoder.

Record t : Type := mk {
  training : bool;
  kernel_size : nat;
  trg_pad_idx : Z;
  scale : R;
  tok_embedding : Embedding;
  pos_embedding : Embedding;
  emb2hid : Linear;
  hid2emb : Linear;
  attn_hid2emb : Linear;
  attn_emb2hid : Linear;
  fc_out : Linear;
  convs : list Conv1d;
  dropout : Q
}.

Record initial : Type := mkInitial {
  tok_w : nat -> nat -> R;
  pos_w : nat -> nat -> R;
  emb2hid_w : nat -> nat -> R;
  emb2hid_b : nat -> R;
  hid2emb_w : nat -> nat -> R;
  hid2emb_b : nat -> R;
  attn_hid2emb_w : nat -> nat -> R;
  attn_hid2emb_b : nat -> R;
  attn_emb2hid_w : nat -> nat -> R;
  attn_emb2hid_b : nat -> R;
  fc_out_w : nat -> nat -> R;
  fc_out_b : nat -> R;
  convs_w : nat -> nat -> nat -> nat -> R;
  convs_b : nat -> nat -> R
}.

(** [Decoder.__init__]: no condition on the kernel size, and the
    convolutions are built without padding. *)
Definition init (output_dim emb_dim hid_dim n_layers kernel_size : nat)
    (dropout : Q) (trg_pad_idx : Z) (max_length : nat) (w : initial) : result t :=
  (p <~ Dropout_init dropout ;;
   inl {| training := true;
          kernel_size := kernel_size;
          trg_pad_idx := trg_pad_idx;
          scale := sqrt (1 / 2);
          tok_embedding := mkEmbedding output_dim emb_dim (tok_w w);
          pos_embedding := mkEmbedding max_length emb_dim (pos_w w);
          emb2hid := mkLinear emb_dim hid_dim (emb2hid_w w) (emb2hid_b w);
          hid2emb := mkLinear hid_dim emb_dim (hid2emb_w w) (hid2emb_b w);
          attn_hid2emb := mkLinear hid_dim emb_dim (attn_hid2emb_w w) (attn_hid2emb_b w);
          attn_emb2hid := mkLinear emb_dim hid_dim (attn_emb2hid_w w) (attn_emb2hid_b w);
          fc_out := mkLinear emb_dim output_dim (fc_out_w w) (fc_out_b w);
          convs := map (fun l => mkConv1d hid_dim (2 * hid_dim) kernel_size 0
                                   (convs_w w l) (convs_b w l))
                       (seq 0 n_layers);
          dropout := p |})%res.

(** [self.train(mode)] *)
Definition train (mode : bool) (self : t) : t :=
  {| training := mode;
     kernel_size := kernel_size self;
     trg_pad_idx := trg_pad_idx self;
     scale := scale self;
     tok_embedding := tok_embedding self;
     pos_embedding := pos_embedding self;
     emb2hid := emb2hid self;
     hid2emb := hid2emb self;
     attn_hid2emb := attn_hid2emb self;
     attn_emb2hid := attn_emb2hid self;
     fc_out := fc_out self;
     convs := convs self;
     dropout := dropout self |}.

Definition calculate_attention (self : t)
    (embedded conved encoder_conved encoder_combined : tensor3)
    : result (tensor3 * tensor3) :=
  (conved_emb <~ Linear_forward (attn_hid2emb self) (permute021 conved) ;;
   s <~ add3 conved_emb embedded ;;
   let combined := scale3 s (scale self) in
   energy <~ matmul combined (permute021 encoder_conved) ;;
   let attention := softmax2 energy in
   attended_encoding <~ matmul attention encoder_combined ;;
   attended_encoding <~ Linear_forward (attn_emb2hid self) attended_encoding ;;
   s <~ add3 conved (permute021 attended_encoding) ;;
   let attended_combined := scale3 s (scale self) in
   inl (attention, attended_combined))%res.

(** The padding of one block and its concatenation in front of the input. *)
Definition padded_conv_input (self : t) (batch_size hid_dim : nat)
    (conv_input : tensor3) : result tensor3 :=
  (padding <~ zeros_fill batch_size hid_dim (Z.of_nat (kernel_size self) - 1)
                (trg_pad_idx self) ;;
   cat2 padding conv_input)%res.

(** One pass through the body of the loop over [self.convs]: the new
    [conv_input] (which is also [conved]) and [attention]. *)
Definition block (self : t) (embedded encoder_conved encoder_combined : tensor3)
    (batch_size hid_dim : nat) (conv : Conv1d) (conv_input : tensor3)
    : M (tensor3 * tensor3) :=
  (conv_input <- Dropout_forward (training self) (dropout self) conv_input ;;
   padded <- lift (padded_conv_input self batch_size hid_dim conv_input) ;;
   conved <- lift (Conv1d_forward conv padded) ;;
   conved <- lift (glu1 conved) ;;
   ' (attention, conved) <- lift (calculate_attention self embedded conved
                                    encoder_conved encoder_combined) ;;
   s <- lift (add3 conved conv_input) ;;
   ret (scale3 s (scale self), attention))%fwd.

(** The loop; [conved] and [attention] are bound only once the body has run. *)
Fixpoint blocks (self : t) (embedded encoder_conved encoder_combined : tensor3)
    (batch_size hid_dim : nat) (cs : list Conv1d) (conv_input : tensor3)
    (bound : option (tensor3 * tensor3)) : M (tensor3 * option (tensor3 * tensor3)) :=
  match cs with
  | [] => ret (conv_input, bound)
  | conv :: rest =>
      (r <- block self embedded encoder_conved encoder_combined
              batch_size hid_dim conv conv_input ;;
       blocks self embedded encoder_conved encoder_combined batch_size hid_dim
         rest (fst r) (Some r))%fwd
  end.

Definition forward (self : t) (trg : ltensor2)
    (encoder_conved encoder_combined : tensor3) : M (tensor3 * tensor3) :=
  let batch_size := l0 trg in
  let trg_len := l1 trg in
  let pos := arange_repeat batch_size trg_len in
  (tok_embedded <- lift (Embedding_forward (tok_embedding self) trg) ;;
   pos_embedded <- lift (Embedding_forward (pos_embedding self) pos) ;;
   s <- lift (add3 tok_embedded pos_embedded) ;;
   embedded <- Dropout_forward (training self) (dropout self) s ;;
   conv_input <- lift (Linear_forward (emb2hid self) embedded) ;;
   let conv_input := permute021 conv_input in
   let batch_size := d0 conv_input in
   let hid_dim := d1 conv_input in
   ' (_, bound) <- blocks self embedded encoder_conved encoder_combined
                     batch_size hid_dim (convs self) conv_input None ;;
   match bound with
   | None => raise UnboundLocalError
   | Some (conved, attention) =>
       conved <- lift (Linear_forward (hid2emb self) (permute021 conved)) ;;
       dropped <- Dropout_forward (training self) (dropout self) conved ;;
       output <- lift (Linear_forward (fc_out self) dropped) ;;
       ret (output, attention)
   end)%fwd.

End Decoder.

(* ================================================================= *)
(** ** Seq2Seq *)

Module Seq2Seq.

Record t : Type := mk {
  encoder : Encoder.t;
  decoder : Decoder.t
}.

Definition init (encoder : Encoder.t) (decoder : Decoder.t) : t :=
  {| encoder := encoder; decoder := decoder |}.

(** [model.train(mode)] sets the mode of every submodule. *)
Definition train (mode : bool) (self : t) : t :=
  {| encoder := Encoder.train mode (encoder self);
     decoder := Decoder.train mode (decoder self) |}.

Definition forward (self : t) (src trg : ltensor2) : M (tensor3 * tensor3) :=
  (' (encoder_conved, encoder_combined) <- Encoder.forward (encoder self) src ;;
   Decoder.forward (decoder self) trg encoder_conved encoder_combined)%fwd.

End Seq2Seq.

(* ================================================================= *)
(** ** Loss, evaluation, training and the epoch loop *)

(** A batch of the iterator: [batch.src] and [batch.trg]. *)
Record Batch : Type := mkBatch {
  src : ltensor2;
  trg : ltensor2
}.

Definition iterator : Type := list Batch.

(** [trg[:, :-1]] *)
Definition drop_last (x : ltensor2) : ltensor2 :=
  mkL2 (l0 x) (l1 x - 1) (atL2 x).

(** [trg[:, 1:]] *)
Definition drop_first (x : ltensor2) : ltensor2 :=
  mkL2 (l0 x) (l1 x - 1) (fun b t => atL2 x b (t + 1)).

(** [output.contiguous().view(-1, output_dim)] *)
Definition view_rows_out (output : tensor3) : tensor2 :=
  mk2 (d0 output * d1 output) (d2 output)
    (fun n v => at3 output (n / d1 output) (n mod d1 output) v).

Definition view_rows (output : tensor3) : result tensor2 :=
  if d2 output =? 0 then inr RuntimeError
  else inl (view_rows_out output).

(** [trg.contiguous().view(-1)] *)
Definition view_flat (x : ltensor2) : ltensor1 :=
  mkL1 (l0 x * l1 x) (fun n => atL2 x (n / l1 x) (n mod l1 x)).

Definition criterion_t : Type := tensor2 -> ltensor1 -> result R.

Definition target_ok (ignore_index : Z) (classes : nat) (target : ltensor1) : bool :=
  forallb (fun n => (atL1 target n =? ignore_index)%Z || index_ok classes (atL1 target n))
          (seq 0 (n0 target)).

Definition counted (ignore_index : Z) (target : ltensor1) : nat :=
  length (filter (fun n => negb (atL1 target n =? ignore_index)%Z) (seq 0 (n0 target))).

(** [nn.CrossEntropyLoss(ignore_index = ...)] with the mean reduction: the
    mean, over the targets that are not ignored, of the negated
    log-softmax of the row at the target class.  When no target is counted
    the quotient is 0/0, a NaN in the code and not a number here: what is
    proved of the value of the loss assumes [0 < counted]. *)
Definition CrossEntropyLoss (ignore_index : Z) : criterion_t :=
  fun input target =>
    if r0 input =? n0 target then
      if target_ok ignore_index (r1 input) target then
        inl (rsum (n0 target)
               (fun n =>
                  if (atL1 target n =? ignore_index)%Z then 0
                  else - (at2 input n (Z.to_nat (atL1 target n))
                          - ln (rsum (r1 input) (fun c => exp (at2 input n c)))))
             / INR (counted ignore_index target))%R
      else inr IndexError
    else inr ValueError.

(** The loss of one batch, as both [train] and [evaluate] compute it. *)
Definition batch_loss (model : Seq2Seq.t) (criterion : criterion_t) (batch : Batch)
    : M R :=
  (' (output, _) <- Seq2Seq.forward model (src batch) (drop_last (trg batch)) ;;
   output <- lift (view_rows output) ;;
   lift (criterion output (view_flat (drop_first (trg batch)))))%fwd.

Fixpoint evaluate_batches (model : Seq2Seq.t) (criterion : criterion_t)
    (batches : iterator) (epoch_loss : R) : M R :=
  match batches with
  | [] => ret epoch_loss
  | batch :: rest =>
      (loss <- batch_loss model criterion batch ;;
       evaluate_batches model criterion rest (epoch_loss + loss)%R)%fwd
  end.

(** [evaluate]: the mode of the model is left as it is found. *)
Definition evaluate (model : Seq2Seq.t) (it : iterator) (criterion : criterion_t)
    : M R :=
  (epoch_loss <- evaluate_batches model criterion it 0%R ;;
   if length it =? 0 then raise ZeroDivisionError
   else ret (epoch_loss / INR (length it))%R)%fwd.

Definition get_rng : M rng := fun g => inl (g, g).

(** [float('inf')] or a finite loss. *)
Inductive bound : Type :=
  | Infinity
  | Finite (r : R).

Definition below (v : R) (b : bound) : bool :=
  match b with
  | Infinity => true
  | Finite r => if Rlt_dec v r then true else false
  end.

(** [model.load_state_dict(sd)]: the parameters are replaced, the mode of
    the module is kept. *)
Definition load_state_dict (model sd : Seq2Seq.t) : Seq2Seq.t :=
  Seq2Seq.mk
    (Encoder.train (Encoder.training (Seq2Seq.encoder model)) (Seq2Seq.encoder sd))
    (Decoder.train (Decoder.training (Seq2Seq.decoder model)) (Seq2Seq.decoder sd)).

(** [torch.load('tut5-model.pt')] on the file as the loop left it. *)
Definition torch_load (file : option Seq2Seq.t) : result Seq2Seq.t :=
  match file with
  | Some sd => inl sd
  | None => inr FileNotFoundError
  end.

Definition N_EPOCHS : nat := 10.
Definition CLIP : R := (1 / 10)%R.

Section Training.

(** The optimizer and what [loss.backward()], [clip_grad_norm_] and
    [optimizer.step()] do to the parameters: an update computed from the
    batch, the random stream the forward pass drew its masks from and the
    clipping bound. *)
Variable optimizer : Type.
Variable step : R -> optimizer -> Seq2Seq.t -> Batch -> rng -> optimizer * Seq2Seq.t.

Fixpoint train_batches (model : Seq2Seq.t) (opt : optimizer)
    (criterion : criterion_t) (clip : R) (batches : iterator) (epoch_loss : R)
    : M (Seq2Seq.t * optimizer * R) :=
  match batches with
  | [] => ret (model, opt, epoch_loss)
  | batch :: rest =>
      (g <- get_rng ;;
       loss <- batch_loss model criterion batch ;;
       let (opt', model') := step clip opt model batch g in
       train_batches model' opt' criterion clip rest (epoch_loss + loss)%R)%fwd
  end.

Definition train (model : Seq2Seq.t) (it : iterator) (opt : optimizer)
    (criterion : criterion_t) (clip : R) : M (Seq2Seq.t * optimizer * R) :=
  let model := Seq2Seq.train true model in
  (' (model, opt, epoch_loss) <- train_batches model opt criterion clip it 0%R ;;
   if length it =? 0 then raise ZeroDivisionError
   else ret (model, opt, (epoch_loss / INR (length it))%R))%fwd.

(** The state the epoch loop carries: the model, the optimizer, the best
    loss so far, the checkpoint file, and (for the record) the epochs at
    which [torch.save] ran, latest first. *)
Record run : Type := mkRun {
  run_model : Seq2Seq.t;
  run_opt : optimizer;
  best_valid_loss : bound;
  checkpoint : option Seq2Seq.t;
  saved_at : list nat
}.

(** The body of the loop over epochs.  The iterators are the three the
    notebook builds; the body reads [train_iterator] twice. *)
Definition epoch_body (train_iterator valid_iterator : iterator)
    (criterion : criterion_t) (epoch : nat) (st : run) : M run :=
  (' (model, opt, train_loss) <-
       train (run_model st) train_iterator (run_opt st) criterion CLIP ;;
   valid_loss <- evaluate model train_iterator criterion ;;
   if below valid_loss (best_valid_loss st) then
     ret {| run_model := model; run_opt := opt;
            best_valid_loss := Finite valid_loss;
            checkpoint := Some model;
            saved_at := epoch :: saved_at st |}
   else
     ret {| run_model := model; run_opt := opt;
            best_valid_loss := best_valid_loss st;
            checkpoint := checkpoint st;
            saved_at := saved_at st |})%fwd.

Fixpoint epochs (train_iterator valid_iterator : iterator)
    (criterion : criterion_t) (n epoch : nat) (st : run) : M run :=
  match n with
  | O => ret st
  | S n' =>
      (st' <- epoch_body train_iterator valid_iterator criterion epoch st ;;
       epochs train_iterator valid_iterator criterion n' (S epoch) st')%fwd
  end.

(** The last cells: the loop, then the reload of the checkpoint and the
    evaluation on the test set. *)
Definition notebook (train_iterator valid_iterator test_iterator : iterator)
    (criterion : criterion_t) (model : Seq2Seq.t) (opt : optimizer)
    : M (run * Seq2Seq.t * R) :=
  (st <- epochs train_iterator valid_iterator criterion N_EPOCHS 0
           {| run_model := model; run_opt := opt;
              best_valid_loss := Infinity;
              checkpoint := None; saved_at := [] |} ;;
   sd <- lift (torch_load (checkpoint st)) ;;
   let model := load_state_dict (run_model st) sd in
   test_loss <- evaluate model test_iterator criterion ;;
   ret (st, model, test_loss))%fwd.

End Training.

Arguments run_model {optimizer} _.
Arguments run_opt {optimizer} _.
Arguments best_valid_loss {optimizer} _.
Arguments checkpoint {optimizer} _.
Arguments saved_at {optimizer} _.

(* ================================================================= *)
(** ** Vocabulary of the statements *)

(** The sizes a convolution of the stack was built with. *)
Definition conv_dims (hid_dim k p : nat) (c : Conv1d) : Prop :=
  in_channels c = hid_dim /\ out_channels c = 2 * hid_dim /\
  kernel_size c = k /\ padding c = p.

(** The sizes an encoder was built with. *)
Definition Encoder_dims (input_dim emb_dim hid_dim k max_length : nat)
    (e : Encoder.t) : Prop :=
  num_embeddings (Encoder.tok_embedding e) = input_dim /\
  embedding_dim (Encoder.tok_embedding e) = emb_dim /\
  num_embeddings (Encoder.pos_embedding e) = max_length /\
  embedding_dim (Encoder.pos_embedding e) = emb_dim /\
  in_features (Encoder.emb2hid e) = emb_dim /\
  out_features (Encoder.emb2hid e) = hid_dim /\
  in_features (Encoder.hid2emb e) = hid_dim /\
  out_features (Encoder.hid2emb e) = emb_dim /\
  Forall (conv_dims hid_dim k ((k - 1) / 2)) (Encoder.convs e).

(** The sizes a decoder was built with. *)
Definition Decoder_dims (output_dim emb_dim hid_dim k max_length : nat)
    (d : Decoder.t) : Prop :=
  Decoder.kernel_size d = k /\
  num_embeddings (Decoder.tok_embedding d) = output_dim /\
  embedding_dim (Decoder.tok_embedding d) = emb_dim /\
  num_embeddings (Decoder.pos_embedding d) = max_length /\
  embedding_dim (Decoder.pos_embedding d) = emb_dim /\
  in_features (Decoder.emb2hid d) = emb_dim /\
  out_features (Decoder.emb2hid d) = hid_dim /\
  in_features (Decoder.hid2emb d) = hid_dim /\
  out_features (Decoder.hid2emb d) = emb_dim /\
  in_features (Decoder.attn_hid2emb d) = hid_dim /\
  out_features (Decoder.attn_hid2emb d) = emb_dim /\
  in_features (Decoder.attn_emb2hid d) = emb_dim /\
  out_features (Decoder.attn_emb2hid d) = hid_dim /\
  in_features (Decoder.fc_out d) = emb_dim /\
  out_features (Decoder.fc_out d) = output_dim /\
  Forall (conv_dims hid_dim k 0) (Decoder.convs d).

(** A valid dropout probability. *)
Definition probability (p : Q) : Prop :=
  (Qle_bool 0 p && Qle_bool p 1)%bool = true.

(** [g'] is the random stream [g] after some draws. *)
Definition shifted (g g' : rng) : Prop :=
  exists n, forall i, g' i = g (i + n).

(** Two tensors laid out as (batch, position, channel) have the same shape
    and the same entries at every position up to [i]. *)
Definition agree1 (i : nat) (x y : tensor3) : Prop :=
  shape3 x = shape3 y /\
  forall b t c, b < d0 x -> t < d1 x -> c < d2 x -> t <= i ->
                at3 x b t c = at3 y b t c.

(** The same for the layout (batch, channel, position) of the convolutions. *)
Definition agree2 (i : nat) (x y : tensor3) : Prop :=
  shape3 x = shape3 y /\
  forall b c t, b < d0 x -> c < d1 x -> t < d2 x -> t <= i ->
                at3 x b c t = at3 y b c t.

(** Two batches of token sequences of the same shape with the same tokens
    at every position up to [i]. *)
Definition agreeL (i : nat) (x y : ltensor2) : Prop :=
  l0 x = l0 y /\ l1 x = l1 y /\
  forall b t, b < l0 x -> t < l1 x -> t <= i -> atL2 x b t = atL2 y b t.

(** A computation that does not touch the random generator: it has one
    outcome, and hands the generator back as it got it. *)
Definition rng_free {A : Type} (m : M A) : Prop :=
  exists r : result A,
    forall g, m g = match r with
                    | inl a => inl (a, g)
                    | inr e => inr e
                    end.

(* ================================================================= *)
(** ** A small configuration

    The scenario of the notebook's figures on a small model: the source
    sentence "<sos> zwei menschen fechten <eos>" and the target prefix
    "<sos> two men", with the vocabulary indices of the special tokens as
    torchtext assigns them (<unk> 0, <pad> 1, <sos> 2, <eos> 3). *)

(** An index tensor given by its rows. *)
Definition of_rows (rows : list (list Z)) : ltensor2 :=
  mkL2 (length rows) (length (hd [] rows))
    (fun b t => nth t (nth b rows []) 0%Z).

Definition sample_src : ltensor2 := of_rows [[2; 4; 5; 6; 3]]%Z.
Definition sample_trg : ltensor2 := of_rows [[2; 4; 5]]%Z.

Definition sample_encoder_initial : Encoder.initial :=
  Encoder.mkInitial
    (fun i c => INR (i + c)) (fun t c => INR t)
    (fun o c => 1%R) (fun o => 0%R)
    (fun o c => 1%R) (fun o => 0%R)
    (fun l o c j => INR j) (fun l o => 0%R).

Definition sample_decoder_initial : Decoder.initial :=
  Decoder.mkInitial
    (fun i c => INR (i + c)) (fun t c => INR t)
    (fun o c => 1%R) (fun o => 0%R)
    (fun o c => 1%R) (fun o => 0%R)
    (fun o c => 1%R) (fun o => 0%R)
    (fun o c => 1%R) (fun o => 0%R)
    (fun o c => INR o) (fun o => 0%R)
    (fun l o c j => INR j) (fun l o => 0%R).

Definition sample_rng : rng := fun n => Nat.even n.

Definition built {A : Type} (r : result A) (default : A) : A :=
  match r with
  | inl a => a
  | inr _ => default
  end.

Definition blank_encoder : Encoder.t :=
  Encoder.mk true 0 (mkEmbedding 0 0 (fun _ _ => 0%R)) (mkEmbedding 0 0 (fun _ _ => 0%R))
    (mkLinear 0 0 (fun _ _ => 0%R) (fun _ => 0%R))
    (mkLinear 0 0 (fun _ _ => 0%R) (fun _ => 0%R)) [] 0.

Definition blank_decoder : Decoder.t :=
  Decoder.mk true 0 0 0 (mkEmbedding 0 0 (fun _ _ => 0%R))
    (mkEmbedding 0 0 (fun _ _ => 0%R))
    (mkLinear 0 0 (fun _ _ => 0%R) (fun _ => 0%R))
    (mkLinear 0 0 (fun _ _ => 0%R) (fun _ => 0%R))
    (mkLinear 0 0 (fun _ _ => 0%R) (fun _ => 0%R))
    (mkLinear 0 0 (fun _ _ => 0%R) (fun _ => 0%R))
    (mkLinear 0 0 (fun _ _ => 0%R) (fun _ => 0%R)) [] 0.

(** An encoder and a decoder with 8-word vocabularies, embedding width 4,
    hidden width 2, two blocks, kernels of size 3 and dropout 0.25. *)
Definition sample_encoder : Encoder.t :=
  built (Encoder.init 8 4 2 2 3 (1 # 4) default_max_length sample_encoder_initial)
        blank_encoder.

Definition sample_decoder : Decoder.t :=
  built (Decoder.init 8 4 2 2 3 (1 # 4) 1 default_max_length sample_decoder_initial)
        blank_decoder.

(** The target prefix with its last token replaced. *)
Definition sample_trg' : ltensor2 := of_rows [[2; 4; 7]]%Z.

(** The same models with a position table of four rows only. *)
Definition short_encoder : Encoder.t :=
  built (Encoder.init 8 4 2 2 3 (1 # 4) 4 sample_encoder_initial) blank_encoder.

Definition short_decoder : Decoder.t :=
  built (Decoder.init 8 4 2 2 3 (1 # 4) 1 4 sample_decoder_initial) blank_decoder.

Definition sample_encoder_output : tensor3 :=
  mk3 1 5 4 (fun _ s c => INR (s + c)).

(* ================================================================= *)
(** ** A model that shows its last dropout

    A four-word model of width one whose decoder maps every hidden state to
    the constant 1 ([hid2emb] has zero weights and bias 1) and reads the
    logit of <eos> (index 3) straight from the dropped-out value: that logit
    is [1 / (1 - p)] where the last dropout keeps the element and 0 where it
    drops it.  The batch is the sentence pair "<sos> <eos>" on both sides. *)

Definition probe_decoder_initial : Decoder.initial :=
  Decoder.mkInitial
    (fun i c => INR i) (fun t c => INR t)
    (fun o c => 1%R) (fun o => 0%R)
    (fun o c => 0%R) (fun o => 1%R)
    (fun o c => 1%R) (fun o => 0%R)
    (fun o c => 1%R) (fun o => 0%R)
    (fun o c => if o =? 3 then 1%R else 0%R) (fun o => 0%R)
    (fun l o c j => 1%R) (fun l o => 0%R).

Definition probe_encoder : Encoder.t :=
  built (Encoder.init 4 1 1 1 3 (1 # 2) default_max_length sample_encoder_initial)
        blank_encoder.

Definition probe_decoder : Decoder.t :=
  built (Decoder.init 4 1 1 1 3 (1 # 2) 1 default_max_length probe_decoder_initial)
        blank_decoder.

Definition probe_model : Seq2Seq.t := Seq2Seq.init probe_encoder probe_decoder.

Definition probe_batch : Batch := mkBatch (of_rows [[2; 3]]%Z) (of_rows [[2; 3]]%Z).

(** Two outcomes of the random draws: every element kept, every element
    dropped. *)
Definition all_kept : rng := fun _ => true.
Definition all_dropped : rng := fun _ => false.

(* ================================================================= *)
(** ** A run of the epoch loop

    A four-word model whose logits are the output biases (the output layer
    has zero weights), with the dropout rate 0.99 of the notebook; an
    optimizer step that raises the bias of <eos> by one; a training set
    with the sentence pair "<sos> <eos>" and a validation set with the pair
    "<sos> <unk> <eos>". *)

Definition flat_decoder_initial (beta : R) : Decoder.initial :=
  Decoder.mkInitial
    (fun i c => INR i) (fun t c => INR t)
    (fun o c => 1%R) (fun o => 0%R)
    (fun o c => 1%R) (fun o => 0%R)
    (fun o c => 1%R) (fun o => 0%R)
    (fun o c => 1%R) (fun o => 0%R)
    (fun o c => 0%R) (fun o => if o =? 3 then beta else 0%R)
    (fun l o c j => 1%R) (fun l o => 0%R).

Definition biased_model (beta : R) : Seq2Seq.t :=
  Seq2Seq.init
    (built (Encoder.init 4 1 1 1 3 (99 # 100) default_max_length
              sample_encoder_initial) blank_encoder)
    (built (Decoder.init 4 1 1 1 3 (99 # 100) 1 default_max_length
              (flat_decoder_initial beta)) blank_decoder).

Definition eos_bias (m : Seq2Seq.t) : R :=
  lin_bias (Decoder.fc_out (Seq2Seq.decoder m)) 3.

Definition raise_eos (clip : R) (opt : unit) (m : Seq2Seq.t) (batch : Batch)
    (g : rng) : unit * Seq2Seq.t :=
  (tt, biased_model (eos_bias m + 1)).

Definition train_pair : Batch := mkBatch (of_rows [[2; 3]]%Z) (of_rows [[2; 3]]%Z).
Definition valid_pair : Batch :=
  mkBatch (of_rows [[2; 0; 3]]%Z) (of_rows [[2; 0; 3]]%Z).

Definition test_pair : Batch :=
  mkBatch (of_rows [[2; 0; 3]]%Z) (of_rows [[2; 3; 1]]%Z).

(** The <eos> bias after [n] optimizer steps. *)
Fixpoint raised (n : nat) (beta : R) : R :=
  match n with
  | O => beta
  | S n' => raised n' (beta + 1)
  end.

(** The loss of a biased model on the training pair and on the validation
    pair, as functions of the <eos> bias. *)
Definition train_pair_loss (beta : R) : R := (ln (3 + exp beta) - beta)%R.
Definition valid_pair_loss (beta : R) : R := (ln (3 + exp beta) - beta / 2)%R.

(* ================================================================= *)
(** ** The remaining cells: parameter count, timing, the model cell *)

(** The sizes of the parameter tensors of the layers: weight, then bias. *)
Definition Embedding_numel (e : Embedding) : nat :=
  num_embeddings e * embedding_dim e.

Definition Linear_numels (l : Linear) : list nat :=
  [out_features l * in_features l; out_features l].

Definition Conv1d_numels (c : Conv1d) : list nat :=
  [out_channels c * in_channels c * kernel_size c; out_channels c].

(** [p.numel()] for [p] in [model.parameters()], in the order the
    submodules are registered.  The scale constants are plain tensors, not
    parameters; every parameter is created with [requires_grad] set. *)
Definition Encoder_parameters (e : Encoder.t) : list nat :=
  [Embedding_numel (Encoder.tok_embedding e); Embedding_numel (Encoder.pos_embedding e)]
  ++ Linear_numels (Encoder.emb2hid e) ++ Linear_numels (Encoder.hid2emb e)
  ++ flat_map Conv1d_numels (Encoder.convs e).

Definition Decoder_parameters (d : Decoder.t) : list nat :=
  [Embedding_numel (Decoder.tok_embedding d); Embedding_numel (Decoder.pos_embedding d)]
  ++ Linear_numels (Decoder.emb2hid d) ++ Linear_numels (Decoder.hid2emb d)
  ++ Linear_numels (Decoder.attn_hid2emb d) ++ Linear_numels (Decoder.attn_emb2hid d)
  ++ Linear_numels (Decoder.fc_out d)
  ++ flat_map Conv1d_numels (Decoder.convs d).

Definition parameters (model : Seq2Seq.t) : list nat :=
  Encoder_parameters (Seq2Seq.encoder model)
  ++ Decoder_parameters (Seq2Seq.decoder model).

Definition count_parameters (model : Seq2Seq.t) : nat :=
  list_sum (parameters model).

(** [int(x)] on a float: truncation toward zero. *)
Definition int_of (x : Q) : Z := Z.quot (Qnum x) (Z.pos (Qden x)).

Definition epoch_time (start_time end_time : Q) : Z * Z :=
  let elapsed_time := (end_time - start_time)%Q in
  let elapsed_mins := int_of (elapsed_time / 60)%Q in
  let elapsed_secs := int_of (elapsed_time - inject_Z elapsed_mins * 60)%Q in
  (elapsed_mins, elapsed_secs).

(** The hyperparameters of the model cell; the vocabulary sizes and the
    pad index come from the fields. *)
Definition EMB_DIM : nat := 128.
Definition HID_DIM : nat := 64.
Definition ENC_LAYERS : nat := 10.
Definition DEC_LAYERS : nat := 10.
Definition ENC_KERNEL_SIZE : nat := 3.
Definition DEC_KERNEL_SIZE : nat := 3.
Definition ENC_DROPOUT : Q := 99 # 100.
Definition DEC_DROPOUT : Q := 99 # 100.

Definition model_cell (INPUT_DIM OUTPUT_DIM : nat) (TRG_PAD_IDX : Z)
    (we : Encoder.initial) (wd : Decoder.initial) : result Seq2Seq.t :=
  (enc <~ Encoder.init INPUT_DIM EMB_DIM HID_DIM ENC_LAYERS ENC_KERNEL_SIZE
            ENC_DROPOUT default_max_length we ;;
   dec <~ Decoder.init OUTPUT_DIM EMB_DIM HID_DIM DEC_LAYERS DEC_KERNEL_SIZE
            DEC_DROPOUT TRG_PAD_IDX default_max_length wd ;;
   inl (Seq2Seq.init enc dec))%res.

(* ================================================================= *)
(** ** Agreement of two runs on a set of (batch, position) pairs *)

(** Two tensors laid out as (batch, position, channel) have the same shape
    and the same entries at the pairs (batch, position) that satisfy [P]. *)
Definition agree_on1 (P : nat -> nat -> Prop) (x y : tensor3) : Prop :=
  shape3 x = shape3 y /\
  forall b t c, b < d0 x -> t < d1 x -> c < d2 x -> P b t ->
                at3 x b t c = at3 y b t c.

(** The same for the layout (batch, channel, position). *)
Definition agree_on2 (P : nat -> nat -> Prop) (x y : tensor3) : Prop :=
  shape3 x = shape3 y /\
  forall b c t, b < d0 x -> c < d1 x -> t < d2 x -> P b t ->
                at3 x b c t = at3 y b c t.

(** Two batches of token sequences of the same shape with the same tokens
    at the pairs that satisfy [P]. *)
Definition agree_onL (P : nat -> nat -> Prop) (x y : ltensor2) : Prop :=
  l0 x = l0 y /\ l1 x = l1 y /\
  forall b t, b < l0 x -> t < l1 x -> P b t -> atL2 x b t = atL2 y b t.

(** In the sentence [b0] of the batch: the positions within [r] of [t0];
    the positions from [t0 - r] to [t0]. *)
Definition around (b0 t0 r : nat) (b t : nat) : Prop :=
  b = b0 /\ t0 <= t + r /\ t <= t0 + r.
Definition behind (b0 t0 r : nat) (b t : nat) : Prop :=
  b = b0 /\ t <= t0 /\ t0 <= t + r.

(** The row [b0] of the batch. *)
Definition row (b0 : nat) (b t : nat) : Prop := b = b0.

(* ================================================================= *)
(** ** The monad and the sums *)

Lemma bind_lift {A B : Type} (r : result A) (a : A) (f : A -> M B) (g : rng) :
  r = inl a -> bind (lift r) f g = f a g.
Proof. intros ->. reflexivity. Qed.

Lemma bind_lift_err {A B : Type} (r : result A) (e : exn) (f : A -> M B) (g : rng) :
  r = inr e -> bind (lift r) f g = inr e.
Proof. intros ->. reflexivity. Qed.

Lemma bind_ok {A B : Type} (m : M A) (a : A) (f : A -> M B) (g g' : rng) :
  m g = inl (a, g') -> bind m f g = f a g'.
Proof. unfold bind. intros ->. reflexivity. Qed.

Lemma bind_inl {A B : Type} (m : M A) (f : A -> M B) (g : rng) (r : B * rng) :
  bind m f g = inl r -> exists a g', m g = inl (a, g') /\ f a g' = inl r.
Proof.
  unfold bind. destruct (m g) as [[a g'] | e]; intros H.
  - exists a, g'. split; [reflexivity | exact H].
  - discriminate H.
Qed.

Lemma lift_inl {A : Type} (r : result A) (g g' : rng) (a : A) :
  lift r g = inl (a, g') -> r = inl a /\ g' = g.
Proof.
  unfold lift. destruct r as [x | e]; intros H; [| discriminate H].
  injection H as -> ->. split; reflexivity.
Qed.

Lemma rbind_inl {A B : Type} (r : result A) (f : A -> result B) (b : B) :
  rbind r f = inl b -> exists a, r = inl a /\ f a = inl b.
Proof.
  destruct r as [a | e]; simpl; intros H; [| discriminate H].
  exists a. split; [reflexivity | exact H].
Qed.

Lemma rsum_ext (n : nat) (f h : nat -> R) :
  (forall i, i < n -> f i = h i) -> rsum n f = rsum n h.
Proof.
  induction n as [| n IH]; intros E; simpl.
  - reflexivity.
  - rewrite IH by (intros i Hi; apply E; lia).
    rewrite (E n) by lia. reflexivity.
Qed.

Lemma rsum_pos (n : nat) (f : nat -> R) :
  0 < n -> (forall i, i < n -> (0 < f i)%R) -> (0 < rsum n f)%R.
Proof.
  induction n as [| n IH]; intros Hn Hf.
  - lia.
  - simpl. destruct n as [| n].
    + simpl. specialize (Hf 0 ltac:(lia)). lra.
    + assert (0 < rsum (S n) f)%R by (apply IH; [lia | intros; apply Hf; lia]).
      specialize (Hf (S n) ltac:(lia)). lra.
Qed.

Lemma rsum_div (n : nat) (f : nat -> R) (z : R) :
  rsum n (fun i => (f i / z)%R) = (rsum n f / z)%R.
Proof.
  induction n as [| n IH]; simpl.
  - unfold Rdiv. rewrite Rmult_0_l. reflexivity.
  - rewrite IH. unfold Rdiv. rewrite Rmult_plus_distr_r. reflexivity.
Qed.

(* ================================================================= *)
(** ** Shapes of the primitives *)

Lemma bdim_same (n : nat) : bdim n n = n.
Proof. unfold bdim. destruct (n =? 1); reflexivity. Qed.

Lemma compatible_same (n : nat) : compatible n n = true.
Proof. unfold compatible. rewrite Nat.eqb_refl. reflexivity. Qed.

Lemma bidx_lt (d i : nat) : i < d -> bidx d i = i.
Proof.
  unfold bidx. intros H. destruct (d =? 1) eqn:E; [| reflexivity].
  apply Nat.eqb_eq in E. lia.
Qed.

Lemma add3_same (a b : tensor3) :
  shape3 a = shape3 b ->
  add3 a b = inl (add3_out a b) /\ shape3 (add3_out a b) = shape3 a.
Proof.
  unfold shape3. intros H. injection H as H0 H1 H2.
  unfold add3, add3_out. rewrite <- H0, <- H1, <- H2.
  rewrite !compatible_same. simpl. rewrite !bdim_same. split; reflexivity.
Qed.

Lemma Linear_forward_ok (l : Linear) (x : tensor3) :
  d2 x = in_features l -> Linear_forward l x = inl (Linear_out l x).
Proof. unfold Linear_forward. intros ->. rewrite Nat.eqb_refl. reflexivity. Qed.

Lemma glu1_ok (x : tensor3) (h : nat) :
  d1 x = 2 * h ->
  glu1 x = inl (glu1_out x) /\ shape3 (glu1_out x) = (d0 x, h, d2 x).
Proof.
  intros H.
  assert (E : d1 x / 2 = h).
  { rewrite H, Nat.mul_comm. apply Nat.div_mul. lia. }
  assert (Ev : Nat.even (d1 x) = true).
  { rewrite H, Nat.even_mul. reflexivity. }
  unfold glu1, glu1_out, shape3. cbn [d0 d1 d2].
  rewrite Ev, E. split; reflexivity.
Qed.

Lemma odd_half (k : nat) : k mod 2 = 1 -> 2 * ((k - 1) / 2) = k - 1.
Proof.
  intros H. pose proof (Nat.div_mod_eq k 2) as E. rewrite H in E.
  replace (k - 1) with ((k / 2) * 2) by lia.
  rewrite Nat.div_mul by lia. lia.
Qed.

(** A convolution with symmetric padding and an odd kernel keeps the
    length of a non-empty sequence. *)
Lemma Conv1d_same_length (cv : Conv1d) (x : tensor3) (k : nat) :
  d1 x = in_channels cv -> kernel_size cv = k ->
  padding cv = (k - 1) / 2 -> k mod 2 = 1 -> 0 < d2 x ->
  0 < out_channels cv ->
  Conv1d_forward cv x = inl (Conv1d_out cv x) /\
  shape3 (Conv1d_out cv x) = (d0 x, out_channels cv, d2 x).
Proof.
  intros Hc Hk Hp Hodd Hlen Hout. pose proof (odd_half k Hodd) as E.
  assert (Hk1 : 1 <= k) by (destruct k; [discriminate Hodd | lia]).
  split.
  - unfold Conv1d_forward. rewrite Hc, Nat.eqb_refl, Hk, Hp.
    destruct (Nat.eqb_spec (out_channels cv) 0) as [Z0 | _]; [lia |].
    destruct (d2 x + 2 * ((k - 1) / 2) <? k) eqn:L; [| reflexivity].
    apply Nat.ltb_lt in L. lia.
  - unfold Conv1d_out, shape3. cbn [d0 d1 d2]. rewrite Hk, Hp.
    do 2 f_equal. lia.
Qed.

Lemma shape3_inv (x : tensor3) (a b c : nat) :
  shape3 x = (a, b, c) -> d0 x = a /\ d1 x = b /\ d2 x = c.
Proof. unfold shape3. intros H. injection H as -> -> ->. auto. Qed.

Lemma scale3_shape (x : tensor3) (s : R) : shape3 (scale3 x s) = shape3 x.
Proof. reflexivity. Qed.

Lemma permute021_shape (x : tensor3) : shape3 (permute021 x) = (d0 x, d2 x, d1 x).
Proof. reflexivity. Qed.

Lemma bind_dropout {B : Type} (tr : bool) (p : Q) (x : tensor3) (f : tensor3 -> M B)
    (g : rng) :
  bind (Dropout_forward tr p x) f g = f (Dropout_out tr p g x) (Dropout_rng tr g x).
Proof. reflexivity. Qed.

Lemma Dropout_shape (tr : bool) (p : Q) (g : rng) (x : tensor3) :
  shape3 (Dropout_out tr p g x) = shape3 x.
Proof. destruct tr; reflexivity. Qed.

Lemma Embedding_forward_ok (e : Embedding) (idx : ltensor2) :
  indices_ok (num_embeddings e) idx = true ->
  Embedding_forward e idx = inl (Embedding_out e idx).
Proof. unfold Embedding_forward. intros ->. reflexivity. Qed.

Lemma indices_ok_spec (num : nat) (idx : ltensor2) :
  indices_ok num idx = true <->
  (forall b t, b < l0 idx -> t < l1 idx ->
     (0 <= atL2 idx b t < Z.of_nat num)%Z).
Proof.
  unfold indices_ok, index_ok. rewrite forallb_forall. split.
  - intros H b t Hb Ht.
    assert (Hin : In b (seq 0 (l0 idx))) by (apply in_seq; lia).
    specialize (H b Hin). rewrite forallb_forall in H.
    assert (Hin' : In t (seq 0 (l1 idx))) by (apply in_seq; lia).
    specialize (H t Hin'). apply andb_true_iff in H. destruct H as [H1 H2].
    apply Z.leb_le in H1. apply Z.ltb_lt in H2. lia.
  - intros H b Hb. apply in_seq in Hb. rewrite forallb_forall. intros t Ht.
    apply in_seq in Ht. specialize (H b t ltac:(lia) ltac:(lia)).
    apply andb_true_iff. split; [apply Z.leb_le | apply Z.ltb_lt]; lia.
Qed.

(** The position tensor of a sequence no longer than the table holds only
    rows of the table. *)
Lemma arange_indices_ok (batch_size len num : nat) :
  len <= num -> indices_ok num (arange_repeat batch_size len) = true.
Proof.
  intros H. apply indices_ok_spec. simpl. intros b t _ Ht. lia.
Qed.

(** A longer sequence has a position outside the table. *)
Lemma arange_indices_bad (batch_size len num : nat) :
  0 < batch_size -> num < len ->
  indices_ok num (arange_repeat batch_size len) = false.
Proof.
  intros Hb H. destruct (indices_ok num (arange_repeat batch_size len)) eqn:E;
    [| reflexivity].
  rewrite indices_ok_spec in E. specialize (E 0 num). simpl in E. lia.
Qed.

Lemma shifted_refl (g : rng) : shifted g g.
Proof. exists 0. intros i. rewrite Nat.add_0_r. reflexivity. Qed.

Lemma shifted_trans (g1 g2 g3 : rng) :
  shifted g1 g2 -> shifted g2 g3 -> shifted g1 g3.
Proof.
  intros [n Hn] [m Hm]. exists (m + n). intros i.
  rewrite Hm, Hn. f_equal. lia.
Qed.

Lemma Dropout_rng_shifted (tr : bool) (g : rng) (x : tensor3) :
  shifted g (Dropout_rng tr g x).
Proof.
  destruct tr; simpl.
  - exists (d0 x * d1 x * d2 x). reflexivity.
  - apply shifted_refl.
Qed.

(* ================================================================= *)
(** ** The encoder *)

Lemma Dropout_init_inv (p q : Q) :
  Dropout_init p = inl q -> q = p /\ (Qle_bool 0 p && Qle_bool p 1)%bool = true.
Proof.
  unfold Dropout_init. destruct (Qle_bool 0 p && Qle_bool p 1)%bool; intros H.
  - injection H as <-. auto.
  - discriminate H.
Qed.

Lemma Forall_map_seq {A : Type} (P : A -> Prop) (f : nat -> A) (s n : nat) :
  (forall i, P (f i)) -> Forall P (map f (seq s n)).
Proof.
  intros H. apply Forall_forall. intros a Ha. apply in_map_iff in Ha.
  destruct Ha as [i [<- _]]. apply H.
Qed.

Lemma Encoder_init_inv (input_dim emb_dim hid_dim n_layers k : nat) (p : Q)
    (max_length : nat) (w : Encoder.initial) (enc : Encoder.t) :
  Encoder.init input_dim emb_dim hid_dim n_layers k p max_length w = inl enc ->
  k mod 2 = 1 /\
  Encoder_dims input_dim emb_dim hid_dim k max_length enc /\
  length (Encoder.convs enc) = n_layers /\
  Encoder.training enc = true /\
  Encoder.scale enc = sqrt (1 / 2) /\
  Encoder.dropout enc = p.
Proof.
  unfold Encoder.init. destruct (k mod 2 =? 1) eqn:Hk; simpl; [| discriminate].
  apply Nat.eqb_eq in Hk. intros H. apply rbind_inl in H.
  destruct H as [q [Hq H]]. apply Dropout_init_inv in Hq. destruct Hq as [-> _].
  injection H as <-. split; [exact Hk |]. split.
  - unfold Encoder_dims. simpl. repeat split.
    apply Forall_map_seq. intros i. unfold conv_dims. simpl. auto.
  - simpl. rewrite length_map, length_seq. auto.
Qed.

Lemma Encoder_init_ok (input_dim emb_dim hid_dim n_layers k : nat) (p : Q)
    (max_length : nat) (w : Encoder.initial) :
  k mod 2 = 1 -> probability p ->
  exists enc,
    Encoder.init input_dim emb_dim hid_dim n_layers k p max_length w = inl enc.
Proof.
  intros Hk Hp. unfold Encoder.init, Dropout_init.
  rewrite Hk, Hp. simpl. eexists. reflexivity.
Qed.

Lemma Encoder_block_ok (self : Encoder.t) (conv : Conv1d) (x : tensor3) (g : rng)
    (B H L k : nat) :
  conv_dims H k ((k - 1) / 2) conv -> k mod 2 = 1 ->
  shape3 x = (B, H, L) -> 0 < L -> 0 < H ->
  exists y g', Encoder.block self conv x g = inl (y, g') /\ shape3 y = (B, H, L) /\
               shifted g g'.
Proof.
  intros [Hin [Hout [Hk Hp]]] Hodd Hx HL HH.
  unfold Encoder.block. rewrite bind_dropout.
  set (x1 := Dropout_out _ _ g x).
  assert (S1 : shape3 x1 = (B, H, L)) by (unfold x1; rewrite Dropout_shape; exact Hx).
  destruct (shape3_inv _ _ _ _ S1) as [A0 [A1 A2]].
  destruct (Conv1d_same_length conv x1 k) as [E2 S2]; try congruence; try lia.
  rewrite (bind_lift _ _ _ _ E2).
  set (x2 := Conv1d_out conv x1) in *.
  destruct (shape3_inv _ _ _ _ S2) as [C0 [C1 C2]].
  destruct (glu1_ok x2 H) as [E3 S3]; [congruence |].
  rewrite (bind_lift _ _ _ _ E3).
  set (x3 := glu1_out x2) in *.
  destruct (add3_same x3 x) as [E4 S4]; [rewrite S3, Hx; congruence |].
  rewrite (bind_lift _ _ _ _ E4).
  eexists _, _. split; [reflexivity |]. split.
  - rewrite scale3_shape, S4, S3. congruence.
  - apply Dropout_rng_shifted.
Qed.

Lemma Encoder_blocks_ok (self : Encoder.t) (B H L k : nat) :
  k mod 2 = 1 -> 0 < L -> 0 < H ->
  forall (cs : list Conv1d) (x : tensor3) (last : option tensor3) (g : rng),
    Forall (conv_dims H k ((k - 1) / 2)) cs ->
    shape3 x = (B, H, L) ->
    exists y g',
      Encoder.blocks self cs x last g
      = inl ((y, match cs with [] => last | _ :: _ => Some y end), g') /\
      shape3 y = (B, H, L) /\ shifted g g'.
Proof.
  intros Hodd HL HH. induction cs as [| c cs IH]; intros x last g Hcs Hx.
  - simpl. exists x, g. split; [reflexivity |]. split; [exact Hx | apply shifted_refl].
  - inversion Hcs as [| c' cs' Hc Hrest]; subst.
    destruct (Encoder_block_ok self c x g B H L k Hc Hodd Hx HL HH)
      as [y [g1 [E [S G]]]].
    cbn [Encoder.blocks]. rewrite (bind_ok _ _ _ _ _ E).
    destruct cs as [| c2 cs2].
    + exists y, g1. split; [reflexivity |]. split; [exact S | exact G].
    + destruct (IH y (Some y) g1 Hrest S) as [z [g2 [E2 [S2 G2]]]].
      exists z, g2. split; [exact E2 |]. split; [exact S2 |].
      exact (shifted_trans _ _ _ G G2).
Qed.

Lemma Encoder_train_dims (input_dim emb_dim hid_dim k max_length : nat)
    (mode : bool) (e : Encoder.t) :
  Encoder_dims input_dim emb_dim hid_dim k max_length e ->
  Encoder_dims input_dim emb_dim hid_dim k max_length (Encoder.train mode e).
Proof. intros H. exact H. Qed.

Lemma Encoder_forward_ok (self : Encoder.t) (src : ltensor2) (g : rng)
    (input_dim E H k max_length : nat) :
  Encoder_dims input_dim E H k max_length self ->
  k mod 2 = 1 -> 0 < H -> Encoder.convs self <> [] ->
  0 < l1 src <= max_length -> indices_ok input_dim src = true ->
  exists conved combined g',
    Encoder.forward self src g = inl ((conved, combined), g') /\
    shape3 conved = (l0 src, l1 src, E) /\
    shape3 combined = (l0 src, l1 src, E) /\
    shifted g g'.
Proof.
  intros [T0 [T1 [P0 [P1 [A0 [A1 [B0 [B1 Hcs]]]]]]]] Hodd HH Hne [HL HM] Hidx.
  unfold Encoder.forward.
  rewrite (bind_lift _ _ _ _ (Embedding_forward_ok (Encoder.tok_embedding self) src
                ltac:(rewrite T0; exact Hidx))).
  rewrite (bind_lift _ _ _ _
             (Embedding_forward_ok (Encoder.pos_embedding self)
                (arange_repeat (l0 src) (l1 src))
                ltac:(rewrite P0; apply arange_indices_ok; exact HM))).
  destruct (add3_same (Embedding_out (Encoder.tok_embedding self) src)
              (Embedding_out (Encoder.pos_embedding self)
                 (arange_repeat (l0 src) (l1 src)))) as [E1 S1].
  { unfold shape3. simpl. congruence. }
  rewrite (bind_lift _ _ _ _ E1). rewrite bind_dropout.
  set (embedded := Dropout_out _ _ g _).
  assert (Se : shape3 embedded = (l0 src, l1 src, E)).
  { unfold embedded. rewrite Dropout_shape, S1. unfold shape3. simpl. congruence. }
  destruct (shape3_inv _ _ _ _ Se) as [e0 [e1 e2]].
  rewrite (bind_lift _ _ _ _ (Linear_forward_ok (Encoder.emb2hid self) embedded ltac:(congruence))).
  set (ci := permute021 (Linear_out (Encoder.emb2hid self) embedded)).
  assert (Sc : shape3 ci = (l0 src, H, l1 src)).
  { unfold ci. rewrite permute021_shape. simpl. congruence. }
  destruct (Encoder_blocks_ok self (l0 src) H (l1 src) k Hodd HL HH
              (Encoder.convs self) ci None (Dropout_rng (Encoder.training self) g
                 (add3_out (Embedding_out (Encoder.tok_embedding self) src)
                    (Embedding_out (Encoder.pos_embedding self)
                       (arange_repeat (l0 src) (l1 src))))) Hcs Sc)
    as [y [g1 [E2 [S2 G2]]]].
  rewrite (bind_ok _ _ _ _ _ E2).
  destruct (Encoder.convs self) as [| c cs]; [congruence |].
  destruct (shape3_inv _ _ _ _ S2) as [y0 [y1 y2]].
  rewrite (bind_lift _ _ _ _
             (Linear_forward_ok (Encoder.hid2emb self) (permute021 y)
                ltac:(simpl; congruence))).
  set (conved := Linear_out (Encoder.hid2emb self) (permute021 y)).
  assert (Sv : shape3 conved = (l0 src, l1 src, E)).
  { unfold conved, shape3. simpl. congruence. }
  destruct (add3_same conved embedded) as [E3 S3]; [congruence |].
  rewrite (bind_lift _ _ _ _ E3).
  eexists _, _, _. split; [reflexivity |]. split; [exact Sv |]. split.
  - rewrite scale3_shape, S3. exact Sv.
  - exact (shifted_trans _ _ _ (Dropout_rng_shifted _ _ _) G2).
Qed.

(* ================================================================= *)
(** ** The decoder *)

Lemma rbind_ok {A B : Type} (r : result A) (a : A) (f : A -> result B) :
  r = inl a -> rbind r f = f a.
Proof. intros ->. reflexivity. Qed.

Lemma matmul_ok (a b : tensor3) :
  d0 a = d0 b -> d2 a = d1 b ->
  matmul a b = inl (matmul_out a b) /\
  shape3 (matmul_out a b) = (d0 a, d1 a, d2 b).
Proof.
  intros H0 H1. unfold matmul, matmul_out, shape3. cbn [d0 d1 d2].
  rewrite <- H0, H1, compatible_same, Nat.eqb_refl, bdim_same.
  split; reflexivity.
Qed.

(** The front padding of a decoder block: [kernel_size - 1] positions. *)
Lemma padded_conv_input_ok (self : Decoder.t) (B H L k : nat) (x : tensor3) :
  Decoder.kernel_size self = k -> 1 <= k -> shape3 x = (B, H, L) ->
  Decoder.padded_conv_input self B H x
  = inl (cat2_out (zeros_fill_out B H (Z.of_nat k - 1) (Decoder.trg_pad_idx self)) x)
  /\ shape3 (cat2_out (zeros_fill_out B H (Z.of_nat k - 1) (Decoder.trg_pad_idx self)) x)
     = (B, H, k - 1 + L).
Proof.
  intros Hk Hk1 Hx. destruct (shape3_inv _ _ _ _ Hx) as [x0 [x1 x2]].
  unfold Decoder.padded_conv_input, zeros_fill. rewrite Hk.
  destruct (Z.of_nat k - 1 <? 0)%Z eqn:E; [apply Z.ltb_lt in E; lia |].
  cbn [rbind]. unfold cat2. cbn [zeros_fill_out d0 d1 d2].
  rewrite x0, x1, !Nat.eqb_refl. split; [reflexivity |].
  unfold cat2_out, zeros_fill_out, shape3. cbn [d0 d1 d2]. rewrite x2.
  do 2 f_equal. lia.
Qed.

(** Without padding of its own, a convolution over an input that was
    extended by [k - 1] positions gives back the original length. *)
Lemma Conv1d_causal_length (cv : Conv1d) (x : tensor3) (k L : nat) :
  d1 x = in_channels cv -> kernel_size cv = k -> padding cv = 0 ->
  1 <= k -> d2 x = k - 1 + L -> 0 < L ->
  0 < out_channels cv ->
  Conv1d_forward cv x = inl (Conv1d_out cv x) /\
  shape3 (Conv1d_out cv x) = (d0 x, out_channels cv, L).
Proof.
  intros Hc Hk Hp Hk1 Hlen HL Hout. split.
  - unfold Conv1d_forward. rewrite Hc, Nat.eqb_refl, Hk, Hp, Hlen.
    destruct (Nat.eqb_spec (out_channels cv) 0) as [Z0 | _]; [lia |].
    destruct (k - 1 + L + 2 * 0 <? k) eqn:E; [| reflexivity].
    apply Nat.ltb_lt in E. lia.
  - unfold Conv1d_out, shape3. cbn [d0 d1 d2]. rewrite Hk, Hp, Hlen.
    do 2 f_equal. lia.
Qed.

Lemma calculate_attention_ok (self : Decoder.t)
    (embedded conved encoder_conved encoder_combined : tensor3)
    (B T S E H : nat) :
  in_features (Decoder.attn_hid2emb self) = H ->
  out_features (Decoder.attn_hid2emb self) = E ->
  in_features (Decoder.attn_emb2hid self) = E ->
  out_features (Decoder.attn_emb2hid self) = H ->
  shape3 embedded = (B, T, E) -> shape3 conved = (B, H, T) ->
  shape3 encoder_conved = (B, S, E) -> shape3 encoder_combined = (B, S, E) ->
  exists energy attended_combined,
    Decoder.calculate_attention self embedded conved encoder_conved encoder_combined
    = inl (softmax2 energy, attended_combined) /\
    shape3 energy = (B, T, S) /\
    shape3 attended_combined = (B, H, T).
Proof.
  intros A0 A1 B0 B1 Se Sc Sv Sb.
  destruct (shape3_inv _ _ _ _ Se) as [e0 [e1 e2]].
  destruct (shape3_inv _ _ _ _ Sc) as [c0 [c1 c2]].
  destruct (shape3_inv _ _ _ _ Sv) as [v0 [v1 v2]].
  destruct (shape3_inv _ _ _ _ Sb) as [b0 [b1 b2]].
  unfold Decoder.calculate_attention.
  rewrite (rbind_ok _ _ _ (Linear_forward_ok (Decoder.attn_hid2emb self)
                             (permute021 conved) ltac:(simpl; congruence))).
  set (ce := Linear_out (Decoder.attn_hid2emb self) (permute021 conved)).
  assert (Sce : shape3 ce = (B, T, E)).
  { unfold ce, shape3. simpl. congruence. }
  clearbody ce.
  destruct (add3_same ce embedded) as [E1 S1]; [congruence |].
  rewrite (rbind_ok _ _ _ E1). cbv zeta.
  set (combined := scale3 (add3_out ce embedded) (Decoder.scale self)).
  assert (Sq : shape3 combined = (B, T, E)).
  { unfold combined. rewrite scale3_shape, S1. exact Sce. }
  clearbody combined.
  destruct (shape3_inv _ _ _ _ Sq) as [q0 [q1 q2]].
  destruct (matmul_ok combined (permute021 encoder_conved)) as [E2 S2];
    [cbn [permute021 d0]; congruence | cbn [permute021 d1 d2]; congruence |].
  rewrite (rbind_ok _ _ _ E2).
  set (energy := matmul_out combined (permute021 encoder_conved)) in *.
  assert (Sn : shape3 energy = (B, T, S)).
  { rewrite S2. cbn [permute021 d2]. congruence. }
  clearbody energy.
  destruct (shape3_inv _ _ _ _ Sn) as [n0' [n1' n2']].
  destruct (matmul_ok (softmax2 energy) encoder_combined) as [E3 S3];
    [cbn [softmax2 d0]; congruence | cbn [softmax2 d2]; congruence |].
  rewrite (rbind_ok _ _ _ E3).
  set (ae := matmul_out (softmax2 energy) encoder_combined) in *.
  cbn [softmax2 d0 d1] in S3. clearbody ae.
  destruct (shape3_inv _ _ _ _ S3) as [a0 [a1 a2]].
  rewrite (rbind_ok _ _ _ (Linear_forward_ok (Decoder.attn_emb2hid self) ae
                             ltac:(congruence))).
  set (ah := Linear_out (Decoder.attn_emb2hid self) ae).
  assert (Sah : shape3 (permute021 ah) = (B, H, T)).
  { rewrite permute021_shape. unfold ah. cbn [Linear_out d0 d1 d2]. congruence. }
  clearbody ah.
  destruct (add3_same conved (permute021 ah)) as [E4 S4]; [congruence |].
  rewrite (rbind_ok _ _ _ E4).
  exists energy. eexists. split; [reflexivity |]. split; [exact Sn |].
  rewrite scale3_shape, S4. exact Sc.
Qed.

Lemma Decoder_block_ok (self : Decoder.t) (embedded ec eb : tensor3)
    (conv : Conv1d) (x : tensor3) (g : rng)
    (output_dim E H k max_length B L S : nat) :
  Decoder_dims output_dim E H k max_length self ->
  conv_dims H k 0 conv -> 1 <= k -> 0 < L -> 0 < H ->
  shape3 embedded = (B, L, E) -> shape3 ec = (B, S, E) -> shape3 eb = (B, S, E) ->
  shape3 x = (B, H, L) ->
  exists y energy g',
    Decoder.block self embedded ec eb B H conv x g = inl ((y, softmax2 energy), g') /\
    shape3 y = (B, H, L) /\ shape3 energy = (B, L, S) /\ shifted g g'.
Proof.
  intros D [Hin [Hout [Hk Hp]]] Hk1 HL HH Se Sv Sb Hx.
  destruct D as [K [_ [_ [_ [_ [_ [_ [_ [_ [A0 [A1 [B0 [B1 _]]]]]]]]]]]]].
  unfold Decoder.block. rewrite bind_dropout.
  set (x1 := Dropout_out _ _ g x).
  assert (S1 : shape3 x1 = (B, H, L)) by (unfold x1; rewrite Dropout_shape; exact Hx).
  destruct (padded_conv_input_ok self B H L k x1 K Hk1 S1) as [E2 S2].
  rewrite (bind_lift _ _ _ _ E2).
  set (x2 := cat2_out _ x1) in *.
  destruct (shape3_inv _ _ _ _ S2) as [p0 [p1 p2]].
  destruct (Conv1d_causal_length conv x2 k L) as [E3 S3]; try congruence; try lia.
  rewrite (bind_lift _ _ _ _ E3).
  set (x3 := Conv1d_out conv x2) in *.
  destruct (shape3_inv _ _ _ _ S3) as [c0 [c1 c2]].
  destruct (glu1_ok x3 H) as [E4 S4]; [congruence |].
  rewrite (bind_lift _ _ _ _ E4).
  set (x4 := glu1_out x3) in *.
  destruct (calculate_attention_ok self embedded x4 ec eb B L S E H A0 A1 B0 B1 Se)
    as [energy [ac [E5 [S5 S6]]]]; try assumption.
  { rewrite S4. congruence. }
  rewrite (bind_lift _ _ _ _ E5).
  destruct (add3_same ac x1) as [E6 S7]; [congruence |].
  rewrite (bind_lift _ _ _ _ E6).
  eexists _, energy, _. split; [reflexivity |]. split; [| split].
  - rewrite scale3_shape, S7. exact S6.
  - exact S5.
  - apply Dropout_rng_shifted.
Qed.

Lemma Decoder_blocks_ok (self : Decoder.t) (embedded ec eb : tensor3)
    (output_dim E H k max_length B L S : nat) :
  Decoder_dims output_dim E H k max_length self -> 1 <= k -> 0 < L -> 0 < H ->
  shape3 embedded = (B, L, E) -> shape3 ec = (B, S, E) -> shape3 eb = (B, S, E) ->
  forall (cs : list Conv1d) (x : tensor3) (bound : option (tensor3 * tensor3))
         (g : rng),
    Forall (conv_dims H k 0) cs -> shape3 x = (B, H, L) ->
    exists y bound' g',
      Decoder.blocks self embedded ec eb B H cs x bound g = inl ((y, bound'), g') /\
      shape3 y = (B, H, L) /\ shifted g g' /\
      match cs with
      | [] => bound' = bound
      | _ :: _ => exists energy,
                    bound' = Some (y, softmax2 energy) /\ shape3 energy = (B, L, S)
      end.
Proof.
  intros D Hk1 HL HH Se Sv Sb. induction cs as [| c cs IH]; intros x bound g Hcs Hx.
  - simpl. exists x, bound, g. repeat split; [exact Hx | apply shifted_refl].
  - inversion Hcs as [| c' cs' Hc Hrest]; subst.
    destruct (Decoder_block_ok self embedded ec eb c x g output_dim E H k
                max_length B L S D Hc Hk1 HL HH Se Sv Sb Hx)
      as [y [energy [g1 [E1 [S1 [S2 G1]]]]]].
    cbn [Decoder.blocks]. rewrite (bind_ok _ _ _ _ _ E1). cbn [fst].
    destruct cs as [| c2 cs2].
    + exists y, (Some (y, softmax2 energy)), g1.
      split; [reflexivity |]. split; [exact S1 |]. split; [exact G1 |].
      exists energy. split; [reflexivity | exact S2].
    + destruct (IH y (Some (y, softmax2 energy)) g1 Hrest S1)
        as [z [bound' [g2 [E2 [S3 [G2 P]]]]]].
      exists z, bound', g2. split; [exact E2 |]. split; [exact S3 |].
      split; [exact (shifted_trans _ _ _ G1 G2) | exact P].
Qed.

Lemma Decoder_init_inv (output_dim emb_dim hid_dim n_layers k : nat) (p : Q)
    (pad : Z) (max_length : nat) (w : Decoder.initial) (dec : Decoder.t) :
  Decoder.init output_dim emb_dim hid_dim n_layers k p pad max_length w = inl dec ->
  Decoder_dims output_dim emb_dim hid_dim k max_length dec /\
  length (Decoder.convs dec) = n_layers /\
  Decoder.training dec = true /\
  Decoder.scale dec = sqrt (1 / 2) /\
  Decoder.dropout dec = p /\
  Decoder.trg_pad_idx dec = pad.
Proof.
  unfold Decoder.init. intros H. apply rbind_inl in H.
  destruct H as [q [Hq H]]. apply Dropout_init_inv in Hq. destruct Hq as [-> _].
  injection H as <-. split.
  - unfold Decoder_dims. simpl. repeat split.
    apply Forall_map_seq. intros i. unfold conv_dims. simpl. auto.
  - simpl. rewrite length_map, length_seq. auto 6.
Qed.

Lemma Decoder_init_ok (output_dim emb_dim hid_dim n_layers k : nat) (p : Q)
    (pad : Z) (max_length : nat) (w : Decoder.initial) :
  probability p ->
  exists dec,
    Decoder.init output_dim emb_dim hid_dim n_layers k p pad max_length w = inl dec.
Proof.
  intros Hp. unfold Decoder.init, Dropout_init. rewrite Hp. simpl.
  eexists. reflexivity.
Qed.

Lemma Decoder_forward_ok (self : Decoder.t) (trg : ltensor2) (ec eb : tensor3)
    (g : rng) (output_dim E H k max_length S : nat) :
  Decoder_dims output_dim E H k max_length self ->
  1 <= k -> 0 < H -> Decoder.convs self <> [] ->
  0 < l1 trg <= max_length -> indices_ok output_dim trg = true ->
  shape3 ec = (l0 trg, S, E) -> shape3 eb = (l0 trg, S, E) ->
  exists y energy g2 g',
    Decoder.forward self trg ec eb g
    = inl ((Linear_out (Decoder.fc_out self)
              (Dropout_out (Decoder.training self) (Decoder.dropout self) g2
                 (Linear_out (Decoder.hid2emb self) (permute021 y))),
            softmax2 energy), g') /\
    shape3 y = (l0 trg, H, l1 trg) /\
    shape3 energy = (l0 trg, l1 trg, S) /\
    shifted g g2.
Proof.
  intros D Hk1 HH Hne [HL HM] Hidx Sv Sb.
  pose proof D as [K [T0 [T1 [P0 [P1 [A0 [A1 [B0 [B1 [_ [_ [_ [_ [F0 [F1 Hcs]]]]]]]]]]]]]]].
  unfold Decoder.forward.
  rewrite (bind_lift _ _ _ _
             (Embedding_forward_ok (Decoder.tok_embedding self) trg
                ltac:(rewrite T0; exact Hidx))).
  rewrite (bind_lift _ _ _ _
             (Embedding_forward_ok (Decoder.pos_embedding self)
                (arange_repeat (l0 trg) (l1 trg))
                ltac:(rewrite P0; apply arange_indices_ok; exact HM))).
  destruct (add3_same (Embedding_out (Decoder.tok_embedding self) trg)
              (Embedding_out (Decoder.pos_embedding self)
                 (arange_repeat (l0 trg) (l1 trg)))) as [E1 S1].
  { unfold shape3. simpl. congruence. }
  rewrite (bind_lift _ _ _ _ E1). rewrite bind_dropout.
  set (g1 := Dropout_rng _ g _).
  assert (G1 : shifted g g1) by apply Dropout_rng_shifted.
  set (embedded := Dropout_out _ _ g _).
  assert (Se : shape3 embedded = (l0 trg, l1 trg, E)).
  { unfold embedded. rewrite Dropout_shape, S1. unfold shape3. simpl. congruence. }
  clearbody embedded g1.
  destruct (shape3_inv _ _ _ _ Se) as [e0 [e1 e2]].
  rewrite (bind_lift _ _ _ _
             (Linear_forward_ok (Decoder.emb2hid self) embedded ltac:(congruence))).
  cbv zeta.
  set (ci := permute021 (Linear_out (Decoder.emb2hid self) embedded)).
  assert (Sc : shape3 ci = (l0 trg, H, l1 trg)).
  { unfold ci. rewrite permute021_shape. simpl. congruence. }
  clearbody ci.
  destruct (shape3_inv _ _ _ _ Sc) as [c0 [c1 c2]]. rewrite c0, c1.
  destruct (Decoder_blocks_ok self embedded ec eb output_dim E H k max_length
              (l0 trg) (l1 trg) S D Hk1 HL HH Se Sv Sb (Decoder.convs self) ci None g1
              Hcs Sc) as [y [bound' [g2 [E2 [S2 [G2 P]]]]]].
  rewrite (bind_ok _ _ _ _ _ E2).
  destruct (Decoder.convs self) as [| c cs]; [congruence |].
  destruct P as [energy [-> S3]].
  destruct (shape3_inv _ _ _ _ S2) as [y0 [y1 y2]].
  rewrite (bind_lift _ _ _ _
             (Linear_forward_ok (Decoder.hid2emb self) (permute021 y)
                ltac:(simpl; congruence))).
  rewrite bind_dropout.
  set (dropped := Dropout_out _ _ g2 _).
  assert (Sd : d2 dropped = E).
  { pose proof (Dropout_shape (Decoder.training self) (Decoder.dropout self) g2
                  (Linear_out (Decoder.hid2emb self) (permute021 y))) as Hd.
    fold dropped in Hd. unfold shape3 in Hd. simpl in Hd.
    injection Hd as _ _ Hd. congruence. }
  rewrite (bind_lift _ _ _ _
             (Linear_forward_ok (Decoder.fc_out self) dropped ltac:(congruence))).
  exists y, energy, g2. eexists. split; [reflexivity |].
  split; [exact S2 |]. split; [exact S3 |].
  exact (shifted_trans _ _ _ G1 G2).
Qed.

(* ================================================================= *)
(** ** Shapes of the encoder's outputs *)

(** C2.  For an encoder built with an odd kernel size, a hidden width of
    at least 1 and at least one block, in either mode and for any state of
    the random generator, the forward pass on a batch of in-vocabulary
    tokens whose length is between 1 and [max_length] returns [conved] and
    [combined], both of shape (batch, src_len, emb_dim); every convolution
    of the stack pads by [(kernel_size - 1) / 2] on each side.  (With a
    hidden width of 0 the convolutions have no output channel and raise.) *)
Theorem encoder_output_shapes
    (input_dim emb_dim hid_dim n_layers k : nat) (p : Q) (max_length : nat)
    (w : Encoder.initial) (enc : Encoder.t) (mode : bool) (src : ltensor2) (g : rng) :
  Encoder.init input_dim emb_dim hid_dim n_layers k p max_length w = inl enc ->
  k mod 2 = 1 -> 0 < hid_dim -> 0 < n_layers ->
  0 < l1 src <= max_length -> indices_ok input_dim src = true ->
  Forall (fun c => padding c = (k - 1) / 2) (Encoder.convs enc) /\
  exists conved combined g',
    Encoder.forward (Encoder.train mode enc) src g = inl ((conved, combined), g') /\
    shape3 conved = (l0 src, l1 src, emb_dim) /\
    shape3 combined = (l0 src, l1 src, emb_dim).
Proof.
  intros Hinit Hodd HH Hn HL Hidx.
  destruct (Encoder_init_inv _ _ _ _ _ _ _ _ _ Hinit) as [_ [D [Hlen _]]].
  split.
  - destruct D as [_ [_ [_ [_ [_ [_ [_ [_ Hcs]]]]]]]].
    eapply Forall_impl; [| exact Hcs]. intros c [_ [_ [_ Hp]]]. exact Hp.
  - destruct (Encoder_forward_ok (Encoder.train mode enc) src g input_dim emb_dim
                hid_dim k max_length) as [cv [cb [g' [E [S1 [S2 _]]]]]];
      [| assumption | assumption | | assumption | assumption |].
    + apply Encoder_train_dims. exact D.
    + simpl. intros Hnil. rewrite Hnil in Hlen. simpl in Hlen. lia.
    + exists cv, cb, g'. auto.
Qed.

Lemma encoder_output_shapes_witness :
  Forall (fun c => padding c = (3 - 1) / 2) (Encoder.convs sample_encoder) /\
  exists conved combined g',
    Encoder.forward (Encoder.train false sample_encoder) sample_src sample_rng
    = inl ((conved, combined), g') /\
    shape3 conved = (1, 5, 4) /\ shape3 combined = (1, 5, 4).
Proof.
  apply (encoder_output_shapes 8 4 2 2 3 (1 # 4) default_max_length
           sample_encoder_initial sample_encoder false sample_src sample_rng).
  - reflexivity.
  - reflexivity.
  - lia.
  - lia.
  - unfold default_max_length. simpl. lia.
  - reflexivity.
Defined.

(* ================================================================= *)
(** ** Validation of the kernel size *)

(** C3.  Building an encoder with an even kernel size fails with the
    assertion, whatever the other arguments; with an odd kernel size (and a
    dropout probability the framework accepts) it succeeds; building a
    decoder succeeds with an even kernel size. *)
Theorem kernel_size_validation
    (dim emb_dim hid_dim n_layers k_even k_odd : nat) (p p' : Q) (pad : Z)
    (max_length : nat) (we : Encoder.initial) (wd : Decoder.initial) :
  k_even mod 2 = 0 -> k_odd mod 2 = 1 -> probability p ->
  Encoder.init dim emb_dim hid_dim n_layers k_even p' max_length we
  = inr AssertionError /\
  (exists dec,
     Decoder.init dim emb_dim hid_dim n_layers k_even p pad max_length wd = inl dec) /\
  (exists enc,
     Encoder.init dim emb_dim hid_dim n_layers k_odd p max_length we = inl enc).
Proof.
  intros He Ho Hp. split; [| split].
  - unfold Encoder.init. rewrite He. reflexivity.
  - apply Decoder_init_ok. exact Hp.
  - apply Encoder_init_ok; assumption.
Qed.

Lemma kernel_size_validation_witness :
  Encoder.init 8 4 2 2 4 (5 # 4) default_max_length sample_encoder_initial
  = inr AssertionError /\
  (exists dec,
     Decoder.init 8 4 2 2 4 (1 # 4) 1 default_max_length sample_decoder_initial
     = inl dec) /\
  (exists enc,
     Encoder.init 8 4 2 2 3 (1 # 4) default_max_length sample_encoder_initial
     = inl enc).
Proof.
  apply (kernel_size_validation 8 4 2 2 4 3 (1 # 4) (5 # 4) 1 default_max_length
           sample_encoder_initial sample_decoder_initial);
    reflexivity.
Defined.

(* ================================================================= *)
(** ** Attention weights *)

Lemma exp_sum_pos (n : nat) (f : nat -> R) :
  0 < n -> (0 < rsum n (fun k => exp (f k)))%R.
Proof. intros H. apply rsum_pos; [exact H |]. intros i _. apply exp_pos. Qed.

(** Every softmax weight over a non-empty axis is strictly positive. *)
Lemma softmax2_pos (x : tensor3) (b t s : nat) :
  s < d2 x -> (0 < at3 (softmax2 x) b t s)%R.
Proof.
  intros Hs. simpl. apply Rdiv_lt_0_compat; [apply exp_pos |].
  apply exp_sum_pos. lia.
Qed.

(** The softmax weights of a row sum to one. *)
Lemma softmax2_sum (x : tensor3) (b t : nat) :
  0 < d2 x -> rsum (d2 x) (fun s => at3 (softmax2 x) b t s) = 1%R.
Proof.
  intros H. simpl. rewrite rsum_div.
  pose proof (exp_sum_pos (d2 x) (fun k => at3 x b t k) H) as Hpos.
  unfold Rdiv. apply Rinv_r. lra.
Qed.

Lemma Seq2Seq_forward_ok (model : Seq2Seq.t) (src trg : ltensor2) (g : rng)
    (input_dim output_dim E He Hd k_enc k_dec max_length : nat) :
  Encoder_dims input_dim E He k_enc max_length (Seq2Seq.encoder model) ->
  Decoder_dims output_dim E Hd k_dec max_length (Seq2Seq.decoder model) ->
  k_enc mod 2 = 1 -> 1 <= k_dec -> 0 < He -> 0 < Hd ->
  Encoder.convs (Seq2Seq.encoder model) <> [] ->
  Decoder.convs (Seq2Seq.decoder model) <> [] ->
  l0 src = l0 trg ->
  0 < l1 src <= max_length -> 0 < l1 trg <= max_length ->
  indices_ok input_dim src = true -> indices_ok output_dim trg = true ->
  exists y energy g2 g',
    Seq2Seq.forward model src trg g
    = inl ((Linear_out (Decoder.fc_out (Seq2Seq.decoder model))
              (Dropout_out (Decoder.training (Seq2Seq.decoder model))
                 (Decoder.dropout (Seq2Seq.decoder model)) g2
                 (Linear_out (Decoder.hid2emb (Seq2Seq.decoder model))
                    (permute021 y))),
            softmax2 energy), g') /\
    shape3 y = (l0 trg, Hd, l1 trg) /\
    shape3 energy = (l0 trg, l1 trg, l1 src) /\
    shifted g g2.
Proof.
  intros De Dd Hodd Hk HHe HHd Hne Hnd HB Hs Ht Is It.
  destruct (Encoder_forward_ok (Seq2Seq.encoder model) src g input_dim E He k_enc
              max_length De Hodd HHe Hne Hs Is) as [cv [cb [g1 [E1 [S1 [S2 G1]]]]]].
  unfold Seq2Seq.forward. rewrite (bind_ok _ _ _ _ _ E1).
  rewrite HB in S1, S2.
  destruct (Decoder_forward_ok (Seq2Seq.decoder model) trg cv cb g1 output_dim E Hd
              k_dec max_length (l1 src) Dd Hk HHd Hnd Ht It S1 S2)
    as [y [energy [g2 [g' [E2 [S3 [S4 G]]]]]]].
  exists y, energy, g2, g'. split; [exact E2 |]. split; [exact S3 |].
  split; [exact S4 |].
  exact (shifted_trans _ _ _ G1 G).
Qed.

(** C4.  On inputs of matching shapes with a non-empty source axis, the
    attention computation of a built decoder returns a weight matrix of
    shape (batch, trg_len, src_len) in which every row over the source axis
    has non-negative entries that sum to one. *)
Theorem attention_row_stochastic
    (output_dim emb_dim hid_dim n_layers k : nat) (p : Q) (pad : Z)
    (max_length : nat) (w : Decoder.initial) (dec : Decoder.t)
    (embedded conved encoder_conved encoder_combined : tensor3) (B T S : nat) :
  Decoder.init output_dim emb_dim hid_dim n_layers k p pad max_length w = inl dec ->
  shape3 embedded = (B, T, emb_dim) -> shape3 conved = (B, hid_dim, T) ->
  shape3 encoder_conved = (B, S, emb_dim) ->
  shape3 encoder_combined = (B, S, emb_dim) ->
  0 < S ->
  exists attention attended_combined,
    Decoder.calculate_attention dec embedded conved encoder_conved encoder_combined
    = inl (attention, attended_combined) /\
    shape3 attention = (B, T, S) /\
    forall b t,
      (forall s, s < S -> (0 <= at3 attention b t s)%R) /\
      rsum S (fun s => at3 attention b t s) = 1%R.
Proof.
  intros Hinit Se Sc Sv Sb HS.
  destruct (Decoder_init_inv _ _ _ _ _ _ _ _ _ _ Hinit) as [D _].
  destruct D as [_ [_ [_ [_ [_ [_ [_ [_ [_ [A0 [A1 [B0 [B1 _]]]]]]]]]]]]].
  destruct (calculate_attention_ok dec embedded conved encoder_conved
              encoder_combined B T S emb_dim hid_dim A0 A1 B0 B1 Se Sc Sv Sb)
    as [energy [ac [E [Sn _]]]].
  destruct (shape3_inv _ _ _ _ Sn) as [_ [_ n2]].
  exists (softmax2 energy), ac. split; [exact E |]. split; [exact Sn |].
  intros b t. split.
  - intros s Hs. apply Rlt_le. apply softmax2_pos. lia.
  - rewrite <- n2. apply softmax2_sum. lia.
Qed.

Lemma attention_row_stochastic_witness :
  exists attention attended_combined,
    Decoder.calculate_attention sample_decoder
      (mk3 1 3 4 (fun _ t c => INR (t + c))) (mk3 1 2 3 (fun _ c t => INR (c * t)))
      sample_encoder_output sample_encoder_output
    = inl (attention, attended_combined) /\
    shape3 attention = (1, 3, 5) /\
    forall b t,
      (forall s, s < 5 -> (0 <= at3 attention b t s)%R) /\
      rsum 5 (fun s => at3 attention b t s) = 1%R.
Proof.
  apply (attention_row_stochastic 8 4 2 2 3 (1 # 4) 1 default_max_length
           sample_decoder_initial sample_decoder).
  - reflexivity.
  - reflexivity.
  - reflexivity.
  - reflexivity.
  - reflexivity.
  - lia.
Defined.

(* ================================================================= *)
(** ** Causality of the decoder *)

Lemma add3_inv (a b y : tensor3) :
  add3 a b = inl y ->
  y = add3_out a b /\ compatible (d0 a) (d0 b) = true /\
  compatible (d1 a) (d1 b) = true /\ compatible (d2 a) (d2 b) = true.
Proof.
  unfold add3.
  destruct (compatible (d0 a) (d0 b)), (compatible (d1 a) (d1 b)),
    (compatible (d2 a) (d2 b)); simpl; intros H; try discriminate H.
  injection H as <-. auto.
Qed.

Lemma Linear_forward_inv (l : Linear) (x y : tensor3) :
  Linear_forward l x = inl y -> y = Linear_out l x /\ d2 x = in_features l.
Proof.
  unfold Linear_forward. destruct (d2 x =? in_features l) eqn:E; intros H;
    [| discriminate H].
  injection H as <-. apply Nat.eqb_eq in E. auto.
Qed.

Lemma Embedding_forward_inv (e : Embedding) (idx : ltensor2) (y : tensor3) :
  Embedding_forward e idx = inl y -> y = Embedding_out e idx.
Proof.
  unfold Embedding_forward. destruct (indices_ok (num_embeddings e) idx);
    intros H; [| destruct (embedding_dim e =? 0); discriminate H].
  injection H as <-. reflexivity.
Qed.

Lemma Conv1d_forward_inv (cv : Conv1d) (x y : tensor3) :
  Conv1d_forward cv x = inl y -> y = Conv1d_out cv x /\ d1 x = in_channels cv.
Proof.
  unfold Conv1d_forward. destruct (d1 x =? in_channels cv) eqn:E;
    [| intros H; discriminate H].
  destruct (out_channels cv =? 0); [intros H; discriminate H |].
  destruct (d2 x + 2 * padding cv <? kernel_size cv); intros H; [discriminate H |].
  injection H as <-. apply Nat.eqb_eq in E. auto.
Qed.

Lemma Conv1d_forward_channels (cv : Conv1d) (x y : tensor3) :
  Conv1d_forward cv x = inl y -> 0 < out_channels cv.
Proof.
  unfold Conv1d_forward. destruct (d1 x =? in_channels cv);
    [| intros H; discriminate H].
  destruct (Nat.eqb_spec (out_channels cv) 0) as [Z0 | N0];
    [intros H; discriminate H | lia].
Qed.

Lemma glu1_inv (x y : tensor3) : glu1 x = inl y -> y = glu1_out x.
Proof.
  unfold glu1. destruct (Nat.even (d1 x)); intros H; [| discriminate H].
  injection H as <-. reflexivity.
Qed.

Lemma matmul_inv (a b y : tensor3) :
  matmul a b = inl y ->
  y = matmul_out a b /\ compatible (d0 a) (d0 b) = true /\ d2 a = d1 b.
Proof.
  unfold matmul. destruct (compatible (d0 a) (d0 b)); simpl;
    [| intros H; discriminate H].
  destruct (d2 a =? d1 b) eqn:E; intros H; [| discriminate H].
  injection H as <-. apply Nat.eqb_eq in E. auto.
Qed.

Lemma bidx_le (d i : nat) : bidx d i <= i.
Proof. unfold bidx. destruct (d =? 1); lia. Qed.

Lemma bidx_range (m n i : nat) :
  compatible m n = true -> i < bdim m n -> bidx m i < m /\ bidx n i < n.
Proof.
  unfold compatible, bdim, bidx.
  destruct (Nat.eqb_spec m 1) as [M1 | M1]; destruct (Nat.eqb_spec n 1) as [N1 | N1];
    intros C Hi; try lia.
  rewrite !orb_false_r in C. apply Nat.eqb_eq in C. lia.
Qed.

Lemma add3_agree1 (i : nat) (a b a' b' y y' : tensor3) :
  add3 a b = inl y -> add3 a' b' = inl y' ->
  agree1 i a a' -> agree1 i b b' -> agree1 i y y'.
Proof.
  intros E E' [Sa Ha] [Sb Hb].
  destruct (add3_inv _ _ _ E) as [-> [C0 [C1 C2]]].
  destruct (add3_inv _ _ _ E') as [-> _].
  unfold shape3 in Sa, Sb. injection Sa as a0 a1 a2. injection Sb as b0 b1 b2.
  split.
  - unfold add3_out, shape3. simpl. congruence.
  - intros x t c Hx Ht Hc Hi. simpl in Hx, Ht, Hc. simpl.
    rewrite <- a0, <- a1, <- a2, <- b0, <- b1, <- b2.
    destruct (bidx_range _ _ _ C0 Hx), (bidx_range _ _ _ C1 Ht),
      (bidx_range _ _ _ C2 Hc).
    pose proof (bidx_le (d1 a) t). pose proof (bidx_le (d1 b) t).
    rewrite Ha, Hb by (assumption || lia). reflexivity.
Qed.

Lemma add3_agree2 (i : nat) (a b a' b' y y' : tensor3) :
  add3 a b = inl y -> add3 a' b' = inl y' ->
  agree2 i a a' -> agree2 i b b' -> agree2 i y y'.
Proof.
  intros E E' [Sa Ha] [Sb Hb].
  destruct (add3_inv _ _ _ E) as [-> [C0 [C1 C2]]].
  destruct (add3_inv _ _ _ E') as [-> _].
  unfold shape3 in Sa, Sb. injection Sa as a0 a1 a2. injection Sb as b0 b1 b2.
  split.
  - unfold add3_out, shape3. simpl. congruence.
  - intros x c t Hx Hc Ht Hi. simpl in Hx, Ht, Hc. simpl.
    rewrite <- a0, <- a1, <- a2, <- b0, <- b1, <- b2.
    destruct (bidx_range _ _ _ C0 Hx), (bidx_range _ _ _ C1 Hc),
      (bidx_range _ _ _ C2 Ht).
    pose proof (bidx_le (d2 a) t). pose proof (bidx_le (d2 b) t).
    rewrite Ha, Hb by (assumption || lia). reflexivity.
Qed.

Lemma scale3_agree1 (i : nat) (s : R) (x y : tensor3) :
  agree1 i x y -> agree1 i (scale3 x s) (scale3 y s).
Proof.
  intros [S H]. split; [exact S |].
  intros b t c Hb Ht Hc Hi. simpl. rewrite H by assumption. reflexivity.
Qed.

Lemma scale3_agree2 (i : nat) (s : R) (x y : tensor3) :
  agree2 i x y -> agree2 i (scale3 x s) (scale3 y s).
Proof.
  intros [S H]. split; [exact S |].
  intros b t c Hb Ht Hc Hi. simpl. rewrite H by assumption. reflexivity.
Qed.

Lemma permute_agree12 (i : nat) (x y : tensor3) :
  agree1 i x y -> agree2 i (permute021 x) (permute021 y).
Proof.
  intros [S H]. unfold shape3 in S. injection S as s0 s1 s2. split.
  - unfold shape3. simpl. congruence.
  - intros b c t Hb Hc Ht Hi. simpl. apply H; assumption.
Qed.

Lemma permute_agree21 (i : nat) (x y : tensor3) :
  agree2 i x y -> agree1 i (permute021 x) (permute021 y).
Proof.
  intros [S H]. unfold shape3 in S. injection S as s0 s1 s2. split.
  - unfold shape3. simpl. congruence.
  - intros b t c Hb Ht Hc Hi. simpl. apply H; assumption.
Qed.

Lemma Linear_agree1 (i : nat) (l : Linear) (x x' y y' : tensor3) :
  Linear_forward l x = inl y -> Linear_forward l x' = inl y' ->
  agree1 i x x' -> agree1 i y y'.
Proof.
  intros E E' [S H].
  destruct (Linear_forward_inv _ _ _ E) as [-> D].
  destruct (Linear_forward_inv _ _ _ E') as [-> _].
  unfold shape3 in S. injection S as s0 s1 s2. split.
  - unfold shape3. simpl. congruence.
  - intros b t c Hb Ht Hc Hi. simpl in Hb, Ht. simpl. f_equal.
    apply rsum_ext. intros j Hj. rewrite H by (assumption || lia). reflexivity.
Qed.

Lemma Embedding_agree1 (i : nat) (e : Embedding) (x x' : ltensor2) (y y' : tensor3) :
  Embedding_forward e x = inl y -> Embedding_forward e x' = inl y' ->
  agreeL i x x' -> agree1 i y y'.
Proof.
  intros E E' [H0 [H1 H]].
  rewrite (Embedding_forward_inv _ _ _ E), (Embedding_forward_inv _ _ _ E').
  split.
  - unfold shape3. simpl. congruence.
  - intros b t c Hb Ht Hc Hi. simpl in Hb, Ht. simpl.
    rewrite H by assumption. reflexivity.
Qed.

Lemma padded_conv_input_agree (i : nat) (self : Decoder.t) (B H : nat)
    (x x' y y' : tensor3) :
  Decoder.padded_conv_input self B H x = inl y ->
  Decoder.padded_conv_input self B H x' = inl y' ->
  agree2 i x x' ->
  agree2 (i + (Decoder.kernel_size self - 1)) y y'.
Proof.
  unfold Decoder.padded_conv_input, zeros_fill. intros E E' [S Hxx].
  destruct (Z.of_nat (Decoder.kernel_size self) - 1 <? 0)%Z eqn:Z0;
    [discriminate E |].
  apply Z.ltb_ge in Z0. cbn [rbind] in E, E'. unfold cat2 in E, E'.
  destruct ((d0 (zeros_fill_out B H (Z.of_nat (Decoder.kernel_size self) - 1)
                   (Decoder.trg_pad_idx self)) =? d0 x)
            && (d1 (zeros_fill_out B H (Z.of_nat (Decoder.kernel_size self) - 1)
                      (Decoder.trg_pad_idx self)) =? d1 x))%bool eqn:C;
    [| discriminate E].
  apply andb_true_iff in C. destruct C as [C0 C1].
  apply Nat.eqb_eq in C0. apply Nat.eqb_eq in C1.
  destruct ((d0 (zeros_fill_out B H (Z.of_nat (Decoder.kernel_size self) - 1)
                   (Decoder.trg_pad_idx self)) =? d0 x')
            && (d1 (zeros_fill_out B H (Z.of_nat (Decoder.kernel_size self) - 1)
                      (Decoder.trg_pad_idx self)) =? d1 x'))%bool;
    [| discriminate E'].
  injection E as <-. injection E' as <-.
  unfold shape3 in S. injection S as s0 s1 s2.
  cbn [zeros_fill_out d0 d1] in C0, C1.
  assert (Hfill : Z.to_nat (Z.of_nat (Decoder.kernel_size self) - 1)
                  = Decoder.kernel_size self - 1) by lia.
  split.
  - unfold cat2_out, shape3. cbn [d0 d1 d2]. congruence.
  - intros b c u Hb Hc Hu Hi. unfold cat2_out, zeros_fill_out in *.
    cbn [d0 d1 d2 at3] in *. rewrite Hfill in *.
    destruct (u <? Decoder.kernel_size self - 1) eqn:F; [reflexivity |].
    apply Nat.ltb_ge in F. apply Hxx; lia.
Qed.

Lemma Conv1d_agree2 (i : nat) (cv : Conv1d) (x x' y y' : tensor3) :
  Conv1d_forward cv x = inl y -> Conv1d_forward cv x' = inl y' ->
  padding cv = 0 ->
  agree2 (i + (kernel_size cv - 1)) x x' ->
  agree2 i y y'.
Proof.
  intros E E' Hp [S H].
  destruct (Conv1d_forward_inv _ _ _ E) as [-> D].
  destruct (Conv1d_forward_inv _ _ _ E') as [-> _].
  unfold shape3 in S. injection S as s0 s1 s2. split.
  - unfold Conv1d_out, shape3. cbn [d0 d1 d2]. congruence.
  - intros b o t Hb Ho Ht Hi. cbn [Conv1d_out d0 d1 d2] in Hb, Ho, Ht.
    cbn [Conv1d_out at3]. f_equal.
    apply rsum_ext. intros c Hc. apply rsum_ext. intros j Hj. f_equal.
    unfold zero_padded. rewrite Hp, <- s2.
    destruct ((t + j <? 0) || (0 + d2 x <=? t + j))%bool eqn:F; [reflexivity |].
    apply orb_false_iff in F. destruct F as [_ F]. apply Nat.leb_gt in F.
    apply H; lia.
Qed.

Lemma glu1_agree2 (i : nat) (x x' y y' : tensor3) :
  glu1 x = inl y -> glu1 x' = inl y' -> agree2 i x x' -> agree2 i y y'.
Proof.
  intros E E' [S H]. rewrite (glu1_inv _ _ E), (glu1_inv _ _ E').
  unfold shape3 in S. injection S as s0 s1 s2. split.
  - unfold glu1_out, shape3. cbn [d0 d1 d2]. congruence.
  - intros b c t Hb Hc Ht Hi. cbn [glu1_out d0 d1 d2] in Hb, Hc, Ht.
    cbn [glu1_out at3]. rewrite <- s1.
    pose proof (Nat.Div0.mul_div_le (d1 x) 2) as Hd.
    rewrite !H by lia. reflexivity.
Qed.

Lemma matmul_agree1 (i : nat) (a a' m y y' : tensor3) :
  matmul a m = inl y -> matmul a' m = inl y' ->
  agree1 i a a' -> agree1 i y y'.
Proof.
  intros E E' [S H].
  destruct (matmul_inv _ _ _ E) as [-> [C D]].
  destruct (matmul_inv _ _ _ E') as [-> _].
  unfold shape3 in S. injection S as s0 s1 s2. split.
  - unfold matmul_out, shape3. cbn [d0 d1 d2]. congruence.
  - intros b t k Hb Ht Hk Hi. cbn [matmul_out d0 d1 d2] in Hb, Ht, Hk.
    cbn [matmul_out at3]. rewrite <- s0, <- s2.
    destruct (bidx_range _ _ _ C Hb) as [Hr _].
    apply rsum_ext. intros c Hc. rewrite H by assumption. reflexivity.
Qed.

Lemma softmax2_agree1 (i : nat) (x x' : tensor3) :
  agree1 i x x' -> agree1 i (softmax2 x) (softmax2 x').
Proof.
  intros [S H]. split; [exact S |].
  unfold shape3 in S. injection S as s0 s1 s2.
  intros b t k Hb Ht Hk Hi. cbn [softmax2 d0 d1 d2] in Hb, Ht, Hk.
  cbn [softmax2 at3]. rewrite <- s2. rewrite H by assumption. f_equal.
  apply rsum_ext. intros k' Hk'. rewrite H by assumption. reflexivity.
Qed.

Tactic Notation "invert_rbind" hyp(H) ident(a) ident(E) :=
  apply rbind_inl in H; destruct H as [a [E H]]; cbv beta zeta in H.

(** The attention of a block at position [t] is computed from the
    embedding and the convolved state at position [t] alone. *)
Lemma calculate_attention_agree (i : nat) (self : Decoder.t)
    (emb emb' conved conved' ec eb att att' ac ac' : tensor3) :
  Decoder.calculate_attention self emb conved ec eb = inl (att, ac) ->
  Decoder.calculate_attention self emb' conved' ec eb = inl (att', ac') ->
  agree1 i emb emb' -> agree2 i conved conved' ->
  agree1 i att att' /\ agree2 i ac ac'.
Proof.
  unfold Decoder.calculate_attention. intros E E' He Hc.
  invert_rbind E ce E1. invert_rbind E s1 E2. invert_rbind E en E3.
  invert_rbind E ae E4. invert_rbind E ah E5. invert_rbind E s2 E6.
  invert_rbind E' ce' E1'. invert_rbind E' s1' E2'. invert_rbind E' en' E3'.
  invert_rbind E' ae' E4'. invert_rbind E' ah' E5'. invert_rbind E' s2' E6'.
  injection E as <- <-. injection E' as <- <-.
  assert (A1 : agree1 i ce ce').
  { eapply Linear_agree1; [exact E1 | exact E1' |].
    apply permute_agree21. exact Hc. }
  assert (A2 : agree1 i (scale3 s1 (Decoder.scale self))
                        (scale3 s1' (Decoder.scale self))).
  { apply scale3_agree1. exact (add3_agree1 _ _ _ _ _ _ _ E2 E2' A1 He). }
  assert (A3 : agree1 i en en') by exact (matmul_agree1 _ _ _ _ _ _ E3 E3' A2).
  assert (A4 : agree1 i (softmax2 en) (softmax2 en'))
    by (apply softmax2_agree1; exact A3).
  split; [exact A4 |].
  assert (A5 : agree1 i ae ae') by exact (matmul_agree1 _ _ _ _ _ _ E4 E4' A4).
  assert (A6 : agree1 i ah ah') by exact (Linear_agree1 _ _ _ _ _ _ E5 E5' A5).
  apply scale3_agree2.
  exact (add3_agree2 _ _ _ _ _ _ _ E6 E6' Hc (permute_agree12 _ _ _ A6)).
Qed.

Tactic Notation "invert_bind" hyp(H) ident(a) ident(g) ident(E) :=
  apply bind_inl in H; destruct H as [a [g [E H]]]; cbv beta zeta in H.

Tactic Notation "invert_lift" hyp(H) :=
  apply lift_inl in H; destruct H as [H ->].

Lemma Dropout_eval (p : Q) (x y : tensor3) (g g' : rng) :
  Dropout_forward false p x g = inl (y, g') -> y = x /\ g' = g.
Proof. unfold Dropout_forward. simpl. intros H. injection H as <- <-. auto. Qed.

(** One decoder block, outside training: its output and its attention at
    the positions up to [i] are determined by its input and the embedding
    at the positions up to [i]. *)
Lemma Decoder_block_agree (i : nat) (self : Decoder.t)
    (emb emb' ec eb : tensor3) (B H : nat) (conv : Conv1d)
    (x x' y y' att att' : tensor3) (g g' g1 g1' : rng) :
  Decoder.training self = false ->
  kernel_size conv = Decoder.kernel_size self -> padding conv = 0 ->
  Decoder.block self emb ec eb B H conv x g = inl ((y, att), g1) ->
  Decoder.block self emb' ec eb B H conv x' g' = inl ((y', att'), g1') ->
  agree1 i emb emb' -> agree2 i x x' ->
  agree2 i y y' /\ agree1 i att att'.
Proof.
  intros Tr Hk Hp E E' He Hx. unfold Decoder.block in E, E'. rewrite Tr in E, E'.
  invert_bind E d gd Ed. destruct (Dropout_eval _ _ _ _ _ Ed) as [-> ->].
  invert_bind E pd gp Ep. invert_lift Ep.
  invert_bind E cv gc Ec. invert_lift Ec.
  invert_bind E gl gg Eg. invert_lift Eg.
  invert_bind E pr ga Ea. invert_lift Ea. destruct pr as [attention ac].
  invert_bind E s gs Es. invert_lift Es.
  unfold ret in E. injection E as <- <- <-.
  invert_bind E' d' gd' Ed'. destruct (Dropout_eval _ _ _ _ _ Ed') as [-> ->].
  invert_bind E' pd' gp' Ep'. invert_lift Ep'.
  invert_bind E' cv' gc' Ec'. invert_lift Ec'.
  invert_bind E' gl' gg' Eg'. invert_lift Eg'.
  invert_bind E' pr' ga' Ea'. invert_lift Ea'. destruct pr' as [attention' ac'].
  invert_bind E' s' gs' Es'. invert_lift Es'.
  unfold ret in E'. injection E' as <- <- <-.
  pose proof (padded_conv_input_agree i self B H x x' pd pd' Ep Ep' Hx) as A1.
  rewrite <- Hk in A1.
  pose proof (Conv1d_agree2 i conv pd pd' cv cv' Ec Ec' Hp A1) as A2.
  pose proof (glu1_agree2 i cv cv' gl gl' Eg Eg' A2) as A3.
  destruct (calculate_attention_agree i self emb emb' gl gl' ec eb
              attention attention' ac ac' Ea Ea' He A3) as [A4 A5].
  split; [| exact A4].
  apply scale3_agree2. exact (add3_agree2 _ _ _ _ _ _ _ Es Es' A5 Hx).
Qed.

Lemma Decoder_blocks_agree (i : nat) (self : Decoder.t)
    (emb emb' ec eb : tensor3) (B H hid_dim k : nat) :
  Decoder.training self = false -> Decoder.kernel_size self = k ->
  agree1 i emb emb' ->
  forall (cs : list Conv1d) (x x' : tensor3)
         (bound bound' : option (tensor3 * tensor3)) (g g' : rng)
         (z z' : tensor3) (bd bd' : option (tensor3 * tensor3)) (g1 g1' : rng),
    Forall (conv_dims hid_dim k 0) cs ->
    Decoder.blocks self emb ec eb B H cs x bound g = inl ((z, bd), g1) ->
    Decoder.blocks self emb' ec eb B H cs x' bound' g' = inl ((z', bd'), g1') ->
    agree2 i x x' ->
    agree2 i z z' /\
    match cs with
    | [] => bd = bound /\ bd' = bound'
    | _ :: _ =>
        exists c a c' a',
          bd = Some (c, a) /\ bd' = Some (c', a') /\
          agree2 i c c' /\ agree1 i a a'
    end.
Proof.
  intros Tr K He. induction cs as [| conv cs IH];
    intros x x' bound bound' g g' z z' bd bd' g1 g1' Hcs E E' Hx.
  - simpl in E, E'. unfold ret in E, E'.
    injection E as <- <- <-. injection E' as <- <- <-. auto.
  - inversion Hcs as [| c0 cs0 [_ [_ [Ck Cp]]] Hrest]; subst c0 cs0.
    cbn [Decoder.blocks] in E, E'.
    invert_bind E r gr Er. invert_bind E' r' gr' Er'.
    destruct r as [y att]. destruct r' as [y' att']. cbn [fst] in E, E'.
    destruct (Decoder_block_agree i self emb emb' ec eb B H conv x x' y y'
                att att' g g' gr gr' Tr ltac:(congruence) Cp Er Er' He Hx)
      as [Ay Aa].
    destruct (IH y y' (Some (y, att)) (Some (y', att')) gr gr' z z' bd bd' g1 g1'
                Hrest E E' Ay) as [Az P].
    split; [exact Az |].
    destruct cs as [| c2 cs2].
    + destruct P as [-> ->]. exists y, att, y', att'. auto.
    + exact P.
Qed.

(** The decoder outside training: logits and attention at the positions up
    to [i] are determined by the target tokens at the positions up to [i]. *)
Lemma Decoder_forward_agree (i : nat) (self : Decoder.t) (trg trg' : ltensor2)
    (ec eb : tensor3) (g g' : rng) (out att out' att' : tensor3) (g1 g1' : rng)
    (H k : nat) :
  Decoder.training self = false -> Decoder.kernel_size self = k ->
  Forall (conv_dims H k 0) (Decoder.convs self) ->
  Decoder.forward self trg ec eb g = inl ((out, att), g1) ->
  Decoder.forward self trg' ec eb g' = inl ((out', att'), g1') ->
  agreeL i trg trg' ->
  agree1 i out out' /\ agree1 i att att'.
Proof.
  intros Tr K Hcs E E' Ht. pose proof Ht as [T0 [T1 _]].
  unfold Decoder.forward in E, E'. rewrite Tr in E, E'. rewrite <- T0, <- T1 in E'.
  invert_bind E te g2 Et. invert_lift Et.
  invert_bind E pe g3 Ep. invert_lift Ep.
  invert_bind E s g4 Es. invert_lift Es.
  invert_bind E em g5 Ed. destruct (Dropout_eval _ _ _ _ _ Ed) as [-> ->].
  invert_bind E ci g6 Ec. invert_lift Ec.
  invert_bind E r g7 Eb. destruct r as [z bd].
  invert_bind E' te' g2' Et'. invert_lift Et'.
  invert_bind E' pe' g3' Ep'. invert_lift Ep'.
  invert_bind E' s' g4' Es'. invert_lift Es'.
  invert_bind E' em' g5' Ed'. destruct (Dropout_eval _ _ _ _ _ Ed') as [-> ->].
  invert_bind E' ci' g6' Ec'. invert_lift Ec'.
  invert_bind E' r' g7' Eb'. destruct r' as [z' bd'].
  assert (Pe : pe' = pe) by congruence. subst pe'.
  assert (A1 : agree1 i te te') by exact (Embedding_agree1 _ _ _ _ _ _ Et Et' Ht).
  assert (A0 : agree1 i pe pe).
  { split; [reflexivity | intros; reflexivity]. }
  assert (A2 : agree1 i s s') by exact (add3_agree1 _ _ _ _ _ _ _ Es Es' A1 A0).
  assert (A3 : agree1 i ci ci') by exact (Linear_agree1 _ _ _ _ _ _ Ec Ec' A2).
  pose proof (permute_agree12 _ _ _ A3) as A4.
  assert (q0 : d0 (permute021 ci') = d0 (permute021 ci)).
  { destruct A4 as [S4 _]. unfold shape3 in S4. congruence. }
  assert (q1 : d1 (permute021 ci') = d1 (permute021 ci)).
  { destruct A4 as [S4 _]. unfold shape3 in S4. congruence. }
  rewrite q0, q1 in Eb'.
  destruct (Decoder_blocks_agree i self s s' ec eb (d0 (permute021 ci))
              (d1 (permute021 ci)) H k Tr K A2 (Decoder.convs self)
              (permute021 ci) (permute021 ci') None None g g' z z' bd bd' g7 g7'
              Hcs Eb Eb' A4) as [Az P].
  destruct (Decoder.convs self) as [| c cs].
  - destruct P as [-> ->]. discriminate E.
  - destruct P as [cv [a [cv' [a' [-> [-> [Ac Aa]]]]]]].
    invert_bind E h g8 Eh. invert_lift Eh.
    invert_bind E dr g9 Er. destruct (Dropout_eval _ _ _ _ _ Er) as [-> ->].
    invert_bind E o g10 Eo. invert_lift Eo.
    unfold ret in E. injection E as <- <- <-.
    invert_bind E' h' g8' Eh'. invert_lift Eh'.
    invert_bind E' dr' g9' Er'. destruct (Dropout_eval _ _ _ _ _ Er') as [-> ->].
    invert_bind E' o' g10' Eo'. invert_lift Eo'.
    unfold ret in E'. injection E' as <- <- <-.
    split; [| exact Aa].
    eapply Linear_agree1; [exact Eo | exact Eo' |].
    eapply Linear_agree1; [exact Eh | exact Eh' |].
    apply permute_agree21. exact Ac.
Qed.

(** C1.  With dropout disabled ([model.eval()]), for a decoder built with
    at least one block, a hidden width of at least 1 (without output
    channels the convolutions raise) and a kernel size of at least 1, fixed encoder
    outputs, and two valid target batches of the same shape that carry the
    same tokens at every position up to [i]: both forward passes return, and
    the logits (and the attention rows) at every position up to [i] are the
    same.  Changing target tokens at positions greater than [i] therefore
    leaves the output at position [i] unchanged.  Likewise for each block of
    the decoder: its output at the positions up to [i] is determined by its
    input and the embedding at the positions up to [i]. *)
Theorem decoder_is_causal
    (output_dim emb_dim hid_dim n_layers k : nat) (p : Q) (pad : Z)
    (max_length : nat) (w : Decoder.initial) (dec : Decoder.t)
    (trg trg' : ltensor2) (ec eb : tensor3) (g g' : rng) (S i : nat) :
  Decoder.init output_dim emb_dim hid_dim n_layers k p pad max_length w = inl dec ->
  0 < n_layers -> 0 < hid_dim -> 1 <= k ->
  0 < l1 trg <= max_length ->
  indices_ok output_dim trg = true -> indices_ok output_dim trg' = true ->
  shape3 ec = (l0 trg, S, emb_dim) -> shape3 eb = (l0 trg, S, emb_dim) ->
  agreeL i trg trg' ->
  exists out att out' att' g1 g1',
    Decoder.forward (Decoder.train false dec) trg ec eb g = inl ((out, att), g1) /\
    Decoder.forward (Decoder.train false dec) trg' ec eb g' = inl ((out', att'), g1') /\
    shape3 out = (l0 trg, l1 trg, output_dim) /\
    shape3 out' = (l0 trg, l1 trg, output_dim) /\
    (forall b t c, b < l0 trg -> t < l1 trg -> t <= i -> c < output_dim ->
                   at3 out b t c = at3 out' b t c) /\
    agree1 i att att' /\
    (forall conv emb emb' x x' B H g0 g0' y y' a a' g2 g2',
       In conv (Decoder.convs dec) ->
       Decoder.block (Decoder.train false dec) emb ec eb B H conv x g0
       = inl ((y, a), g2) ->
       Decoder.block (Decoder.train false dec) emb' ec eb B H conv x' g0'
       = inl ((y', a'), g2') ->
       agree1 i emb emb' -> agree2 i x x' -> agree2 i y y').
Proof.
  intros Hinit Hn HH Hk HL It It' Sv Sb Ht.
  destruct (Decoder_init_inv _ _ _ _ _ _ _ _ _ _ Hinit) as [D [Len _]].
  pose proof Ht as [T0 [T1 _]].
  assert (D' : Decoder_dims output_dim emb_dim hid_dim k max_length
                 (Decoder.train false dec)) by exact D.
  assert (Hne : Decoder.convs (Decoder.train false dec) <> []).
  { simpl. intros Hnil. rewrite Hnil in Len. simpl in Len. lia. }
  destruct (Decoder_forward_ok (Decoder.train false dec) trg ec eb g output_dim
              emb_dim hid_dim k max_length S D' Hk HH Hne HL It Sv Sb)
    as [y [en [g2 [g1 [E [Sy _]]]]]].
  destruct (Decoder_forward_ok (Decoder.train false dec) trg' ec eb g' output_dim
              emb_dim hid_dim k max_length S D' Hk HH Hne
              ltac:(rewrite <- T1; exact HL) It'
              ltac:(rewrite <- T0; exact Sv) ltac:(rewrite <- T0; exact Sb))
    as [y' [en' [g2' [g1' [E' [Sy' _]]]]]].
  assert (Hcs : Forall (conv_dims hid_dim k 0) (Decoder.convs (Decoder.train false dec))).
  { destruct D as [_ DD]. repeat (destruct DD as [_ DD]). exact DD. }
  destruct (Decoder_forward_agree i (Decoder.train false dec) trg trg' ec eb g g'
              _ _ _ _ g1 g1' hid_dim k eq_refl (proj1 D) Hcs E E' Ht) as [[So Ho] Aa].
  destruct (shape3_inv _ _ _ _ Sy) as [y0 [y1 y2]].
  destruct (shape3_inv _ _ _ _ Sy') as [y0' [y1' y2']].
  assert (F1 : out_features (Decoder.fc_out dec) = output_dim).
  { destruct D as [_ [_ [_ [_ [_ [_ [_ [_ [_ [_ [_ [_ [_ [_ [F1 _]]]]]]]]]]]]]]].
    exact F1. }
  eexists _, _, _, _, g1, g1'. split; [exact E |]. split; [exact E' |].
  split; [| split; [| split; [| split; [exact Aa |]]]].
  - unfold shape3. simpl. congruence.
  - unfold shape3. simpl. congruence.
  - intros b t c Hb Hlt Hi Hc. apply Ho; simpl; congruence || lia.
  - intros conv emb emb' x x' B H g0 g0' z z' a a' g3 g3' Hin Eb Eb' Ae Ax.
    rewrite Forall_forall in Hcs. destruct (Hcs conv Hin) as [_ [_ [Ck Cp]]].
    exact (proj1 (Decoder_block_agree i (Decoder.train false dec) emb emb' ec eb
                    B H conv x x' z z' a a' g0 g0' g3 g3' eq_refl
                    ltac:(rewrite Ck; symmetry; exact (proj1 D)) Cp Eb Eb' Ae Ax)).
Qed.

Lemma decoder_is_causal_witness :
  exists out att out' att' g1 g1',
    Decoder.forward (Decoder.train false sample_decoder) sample_trg
      sample_encoder_output sample_encoder_output sample_rng
    = inl ((out, att), g1) /\
    Decoder.forward (Decoder.train false sample_decoder) sample_trg'
      sample_encoder_output sample_encoder_output sample_rng
    = inl ((out', att'), g1') /\
    shape3 out = (l0 sample_trg, l1 sample_trg, 8) /\
    shape3 out' = (l0 sample_trg, l1 sample_trg, 8) /\
    (forall b t c, b < l0 sample_trg -> t < l1 sample_trg -> t <= 1 -> c < 8 ->
                   at3 out b t c = at3 out' b t c) /\
    agree1 1 att att' /\
    (forall conv emb emb' x x' B H g0 g0' y y' a a' g2 g2',
       In conv (Decoder.convs sample_decoder) ->
       Decoder.block (Decoder.train false sample_decoder) emb
         sample_encoder_output sample_encoder_output B H conv x g0
       = inl ((y, a), g2) ->
       Decoder.block (Decoder.train false sample_decoder) emb'
         sample_encoder_output sample_encoder_output B H conv x' g0'
       = inl ((y', a'), g2') ->
       agree1 1 emb emb' -> agree2 1 x x' -> agree2 1 y y').
Proof.
  apply (decoder_is_causal 8 4 2 2 3 (1 # 4) 1 default_max_length
           sample_decoder_initial sample_decoder sample_trg sample_trg'
           sample_encoder_output sample_encoder_output sample_rng sample_rng 5 1).
  - reflexivity.
  - lia.
  - lia.
  - lia.
  - unfold default_max_length. simpl. lia.
  - reflexivity.
  - reflexivity.
  - reflexivity.
  - reflexivity.
  - split; [reflexivity |]. split; [reflexivity |].
    intros b t Hb Hlt Hi. simpl in Hb, Hlt.
    destruct b as [| b]; [| lia].
    destruct t as [| [| t]]; [reflexivity | reflexivity | lia].
Defined.

(* ================================================================= *)
(** ** The scale constant *)

Lemma scale_squared : (sqrt (1 / 2) * sqrt (1 / 2) = 1 / 2)%R.
Proof. apply sqrt_sqrt. lra. Qed.

(* ================================================================= *)
(** ** Evaluation and dropout *)

Lemma probe_forward (g : rng) :
  exists y energy g2 g',
    Seq2Seq.forward (Seq2Seq.train true probe_model) (src probe_batch)
      (drop_last (trg probe_batch)) g
    = inl ((Linear_out (Decoder.fc_out probe_decoder)
              (Dropout_out true (1 # 2) g2
                 (Linear_out (Decoder.hid2emb probe_decoder) (permute021 y))),
            softmax2 energy), g') /\
    shape3 y = (1, 1, 1) /\ shifted g g2.
Proof.
  destruct (Encoder_init_inv 4 1 1 1 3 (1 # 2) default_max_length
              sample_encoder_initial probe_encoder eq_refl) as [Hodd [De [Le _]]].
  destruct (Decoder_init_inv 4 1 1 1 3 (1 # 2) 1 default_max_length
              probe_decoder_initial probe_decoder eq_refl) as [Dd [Ld _]].
  destruct (Seq2Seq_forward_ok (Seq2Seq.train true probe_model) (src probe_batch)
              (drop_last (trg probe_batch)) g 4 4 1 1 1 3 3 default_max_length)
    as [y [energy [g2 [g' [E [Sy [_ G]]]]]]];
    try assumption; try reflexivity; try lia;
    try (unfold default_max_length; simpl; lia);
    try (simpl; discriminate).
  exists y, energy, g2, g'. split; [exact E |]. split; [exact Sy | exact G].
Qed.

Lemma half_inverse : (/ (1 - Q2R (1 # 2)) = 2)%R.
Proof. unfold Q2R. simpl. field. Qed.

(** The logits of the probe model when the random stream is constant. *)
Lemma probe_logit (g2 : rng) (keep : bool) (y : tensor3) (b t o : nat) :
  (forall n, g2 n = keep) ->
  at3 (Linear_out (Decoder.fc_out probe_decoder)
         (Dropout_out true (1 # 2) g2
            (Linear_out (Decoder.hid2emb probe_decoder) (permute021 y)))) b t o
  = if keep && (o =? 3) then 2%R else 0%R.
Proof.
  intros Hg. cbn [Linear_out at3 Dropout_out d0 d1 d2 permute021].
  change (in_features (Decoder.fc_out probe_decoder)) with 1.
  change (in_features (Decoder.hid2emb probe_decoder)) with 1.
  cbn [rsum]. unfold keeps.
  change (Qeq_bool (1 # 2) 1) with false. change (Qeq_bool (1 # 2) 0) with false.
  cbv iota. rewrite Hg, half_inverse.
  change (lin_weight (Decoder.hid2emb probe_decoder) 0 0) with 0%R.
  change (lin_bias (Decoder.hid2emb probe_decoder) 0) with 1%R.
  change (lin_weight (Decoder.fc_out probe_decoder) o 0)
    with (if o =? 3 then 1%R else 0%R).
  change (lin_bias (Decoder.fc_out probe_decoder) o) with 0%R.
  destruct keep, (o =? 3); simpl; lra.
Qed.

Lemma shifted_const (g g2 : rng) (v : bool) :
  (forall n, g n = v) -> shifted g g2 -> forall n, g2 n = v.
Proof. intros Hg [k Hk] n. rewrite Hk. apply Hg. Qed.

(** The loss of a batch, once the forward pass is known. *)
Lemma batch_loss_of_forward (model : Seq2Seq.t) (criterion : criterion_t)
    (batch : Batch) (g g' : rng) (out att : tensor3) :
  Seq2Seq.forward model (src batch) (drop_last (trg batch)) g = inl ((out, att), g') ->
  d2 out <> 0 ->
  batch_loss model criterion batch g
  = lift (criterion (view_rows_out out) (view_flat (drop_first (trg batch)))) g'.
Proof.
  intros E Hd. unfold batch_loss. rewrite (bind_ok _ _ _ _ _ E).
  unfold view_rows. destruct (d2 out =? 0) eqn:Z0.
  - apply Nat.eqb_eq in Z0. contradiction.
  - reflexivity.
Qed.

(** The cross-entropy of a single row whose target is not ignored. *)
Lemma CrossEntropyLoss_single (ignore_index : Z) (input : tensor2) (target : ltensor1) :
  r0 input = 1 -> n0 target = 1 ->
  atL1 target 0 <> ignore_index ->
  index_ok (r1 input) (atL1 target 0) = true ->
  CrossEntropyLoss ignore_index input target
  = inl (ln (rsum (r1 input) (fun c => exp (at2 input 0 c)))
         - at2 input 0 (Z.to_nat (atL1 target 0)))%R.
Proof.
  intros Hr Hn Hne Hok. apply Z.eqb_neq in Hne.
  unfold CrossEntropyLoss, target_ok, counted. rewrite Hr, Hn. simpl.
  rewrite Hne, Hok. simpl. f_equal. lra.
Qed.

Lemma evaluate_single (model : Seq2Seq.t) (criterion : criterion_t) (batch : Batch)
    (g g' : rng) (loss : R) :
  batch_loss model criterion batch g = inl (loss, g') ->
  evaluate model [batch] criterion g = inl (loss, g').
Proof.
  intros E. unfold evaluate. cbn [evaluate_batches].
  unfold bind at 1. unfold bind at 1. rewrite E. unfold ret. simpl.
  do 2 f_equal. lra.
Qed.

Lemma probe_evaluate (g : rng) (keep : bool) :
  (forall n, g n = keep) ->
  exists out att g1 g',
    Seq2Seq.forward (Seq2Seq.train true probe_model) (src probe_batch)
      (drop_last (trg probe_batch)) g = inl ((out, att), g1) /\
    at3 out 0 0 3 = (if keep then 2 else 0)%R /\
    evaluate (Seq2Seq.train true probe_model) [probe_batch] (CrossEntropyLoss 1) g
    = inl ((ln (3 + exp (if keep then 2 else 0)) - (if keep then 2 else 0))%R, g').
Proof.
  intros Hg. destruct (probe_forward g) as [y [energy [g2 [g' [E [Sy G]]]]]].
  pose proof (shifted_const g g2 keep Hg G) as Hg2.
  pose proof (fun b t o => probe_logit g2 keep y b t o Hg2) as Hl.
  destruct (shape3_inv _ _ _ _ Sy) as [y0 [y1 y2]].
  set (out := Linear_out (Decoder.fc_out probe_decoder)
                (Dropout_out true (1 # 2) g2
                   (Linear_out (Decoder.hid2emb probe_decoder) (permute021 y)))) in *.
  assert (So : shape3 out = (1, 1, 4)).
  { unfold out, shape3. simpl. rewrite y0, y2. reflexivity. }
  clearbody out. destruct out as [o0 o1 o2 ov]. unfold shape3 in So. simpl in So.
  injection So as -> -> ->. simpl in Hl.
  exists (mk3 1 1 4 ov), (softmax2 energy), g', g'. split; [exact E |]. split.
  - simpl. rewrite Hl. destruct keep; reflexivity.
  - apply evaluate_single.
    rewrite (batch_loss_of_forward _ _ _ _ _ _ _ E) by (simpl; discriminate).
    rewrite CrossEntropyLoss_single; try reflexivity; try (simpl; discriminate).
    unfold lift. do 2 f_equal. simpl. rewrite !Hl.
    destruct keep; simpl; rewrite ?exp_0; f_equal; f_equal; lra.
Qed.

Lemma probe_losses_differ :
  (ln (3 + exp 2) - 2 <> ln (3 + exp 0) - 0)%R.
Proof.
  rewrite exp_0. intros H.
  pose proof (exp_pos 2) as P2.
  pose proof (exp_ineq1 2 ltac:(lra)) as I2.
  assert (E : ln (3 + exp 2) = ln (4 * exp 2)).
  { rewrite ln_mult by lra. rewrite ln_exp.
    replace (3 + 1)%R with 4%R in H by lra. lra. }
  apply ln_inv in E; lra.
Qed.

(** C5.  The model is in training mode, as
    [train] leaves it and as [evaluate] finds it; on the same parameters
    and the same batch, [evaluate] and the forward pass inside it give one
    loss and one <eos> logit when the random draws keep every element, and
    another loss and another logit when they drop every element. *)
Theorem evaluate_depends_on_dropout_draws :
  Decoder.training (Seq2Seq.decoder (Seq2Seq.train true probe_model)) = true /\
  exists out_kept att_kept g1 out_dropped att_dropped g2
         loss_kept g3 loss_dropped g4,
    Seq2Seq.forward (Seq2Seq.train true probe_model) (src probe_batch)
      (drop_last (trg probe_batch)) all_kept = inl ((out_kept, att_kept), g1) /\
    Seq2Seq.forward (Seq2Seq.train true probe_model) (src probe_batch)
      (drop_last (trg probe_batch)) all_dropped
    = inl ((out_dropped, att_dropped), g2) /\
    at3 out_kept 0 0 3 = 2%R /\ at3 out_dropped 0 0 3 = 0%R /\
    evaluate (Seq2Seq.train true probe_model) [probe_batch] (CrossEntropyLoss 1)
      all_kept = inl (loss_kept, g3) /\
    evaluate (Seq2Seq.train true probe_model) [probe_batch] (CrossEntropyLoss 1)
      all_dropped = inl (loss_dropped, g4) /\
    loss_kept <> loss_dropped.
Proof.
  split; [reflexivity |].
  destruct (probe_evaluate all_kept true (fun _ => eq_refl))
    as [ok [ak [g1 [g3 [Fk [Lk Ek]]]]]].
  destruct (probe_evaluate all_dropped false (fun _ => eq_refl))
    as [od [ad [g2 [g4 [Fd [Ld Ed]]]]]].
  exists ok, ak, g1, od, ad, g2. eexists _, g3, _, g4.
  split; [exact Fk |]. split; [exact Fd |]. split; [exact Lk |].
  split; [exact Ld |]. split; [exact Ek |]. split; [exact Ed |].
  exact probe_losses_differ.
Qed.

(* ================================================================= *)
(** ** The epoch loop and the checkpoint *)

(** The loop never reads the validation iterator. *)
Lemma epochs_ignore_valid_iterator (optimizer : Type)
    (step : R -> optimizer -> Seq2Seq.t -> Batch -> rng -> optimizer * Seq2Seq.t)
    (train_iterator v1 v2 : iterator) (criterion : criterion_t) (n : nat) :
  forall (epoch : nat) (st : run optimizer) (g : rng),
    epochs optimizer step train_iterator v1 criterion n epoch st g
    = epochs optimizer step train_iterator v2 criterion n epoch st g.
Proof.
  induction n as [| n IH]; intros epoch st g.
  - reflexivity.
  - cbn [epochs]. unfold bind.
    change (epoch_body optimizer step train_iterator v2 criterion epoch st g)
      with (epoch_body optimizer step train_iterator v1 criterion epoch st g).
    destruct (epoch_body optimizer step train_iterator v1 criterion epoch st g)
      as [[st' g'] | e]; [apply IH | reflexivity].
Qed.

(** The logits of a biased model are its output biases. *)
Lemma biased_forward (beta : R) (s t : ltensor2) (g : rng) :
  l0 s = l0 t ->
  0 < l1 s <= default_max_length -> 0 < l1 t <= default_max_length ->
  indices_ok 4 s = true -> indices_ok 4 t = true ->
  exists out att g',
    Seq2Seq.forward (biased_model beta) s t g = inl ((out, att), g') /\
    shape3 out = (l0 t, l1 t, 4) /\
    forall b p o, at3 out b p o = if o =? 3 then beta else 0%R.
Proof.
  intros HB Hs Ht Is It.
  destruct (Encoder_init_inv 4 1 1 1 3 (99 # 100) default_max_length
              sample_encoder_initial _ eq_refl) as [Hodd [De [Le _]]].
  destruct (Decoder_init_inv 4 1 1 1 3 (99 # 100) 1 default_max_length
              (flat_decoder_initial beta) _ eq_refl) as [Dd [Ld _]].
  destruct (Seq2Seq_forward_ok (biased_model beta) s t g 4 4 1 1 1 3 3
              default_max_length De Dd Hodd ltac:(lia) ltac:(lia) ltac:(lia)
              ltac:(simpl; discriminate) ltac:(simpl; discriminate) HB Hs Ht Is It)
    as [y [energy [g2 [g' [E [Sy _]]]]]].
  destruct (shape3_inv _ _ _ _ Sy) as [y0 [y1 y2]].
  eexists _, _, g'. split; [exact E |]. split.
  - unfold shape3. simpl. rewrite y0, y2. reflexivity.
  - intros b p o. cbn [Linear_out at3].
    change (in_features (Decoder.fc_out (Seq2Seq.decoder (biased_model beta))))
      with 1.
    cbn [rsum].
    change (lin_weight (Decoder.fc_out (Seq2Seq.decoder (biased_model beta))) o 0)
      with 0%R.
    change (lin_bias (Decoder.fc_out (Seq2Seq.decoder (biased_model beta))) o)
      with (if o =? 3 then beta else 0%R).
    lra.
Qed.

Lemma CrossEntropyLoss_double (ignore_index : Z) (input : tensor2) (target : ltensor1) :
  r0 input = 2 -> n0 target = 2 ->
  atL1 target 0 <> ignore_index -> atL1 target 1 <> ignore_index ->
  index_ok (r1 input) (atL1 target 0) = true ->
  index_ok (r1 input) (atL1 target 1) = true ->
  CrossEntropyLoss ignore_index input target
  = inl (((ln (rsum (r1 input) (fun c => exp (at2 input 0 c)))
           - at2 input 0 (Z.to_nat (atL1 target 0)))
          + (ln (rsum (r1 input) (fun c => exp (at2 input 1 c)))
             - at2 input 1 (Z.to_nat (atL1 target 1)))) / 2)%R.
Proof.
  intros Hr Hn Hne0 Hne1 Hok0 Hok1.
  apply Z.eqb_neq in Hne0. apply Z.eqb_neq in Hne1.
  unfold CrossEntropyLoss, target_ok, counted. rewrite Hr, Hn. simpl.
  rewrite Hne0, Hne1, Hok0, Hok1. simpl. f_equal. lra.
Qed.

(** The loss of a biased model on the training pair and on the validation
    pair. *)
Lemma biased_train_loss (beta : R) (g : rng) :
  exists g',
    batch_loss (biased_model beta) (CrossEntropyLoss 1) train_pair g
    = inl (train_pair_loss beta, g').
Proof.
  destruct (biased_forward beta (src train_pair) (drop_last (trg train_pair)) g)
    as [out [att [g' [E [So Hl]]]]];
    try reflexivity; try (unfold default_max_length; simpl; lia).
  destruct out as [o0 o1 o2 ov]. unfold shape3 in So. simpl in So.
  injection So as -> -> ->. simpl in Hl.
  exists g'.
  rewrite (batch_loss_of_forward _ _ _ _ _ _ _ E) by (simpl; discriminate).
  rewrite CrossEntropyLoss_single; try reflexivity; try (simpl; discriminate).
  unfold lift, train_pair_loss. do 2 f_equal. simpl. rewrite !Hl. simpl.
  rewrite exp_0. f_equal. f_equal. lra.
Qed.

Lemma biased_valid_loss (beta : R) (g : rng) :
  exists g',
    batch_loss (biased_model beta) (CrossEntropyLoss 1) valid_pair g
    = inl (valid_pair_loss beta, g').
Proof.
  destruct (biased_forward beta (src valid_pair) (drop_last (trg valid_pair)) g)
    as [out [att [g' [E [So Hl]]]]];
    try reflexivity; try (unfold default_max_length; simpl; lia).
  destruct out as [o0 o1 o2 ov]. unfold shape3 in So. simpl in So.
  injection So as -> -> ->. simpl in Hl.
  exists g'.
  rewrite (batch_loss_of_forward _ _ _ _ _ _ _ E) by (simpl; discriminate).
  rewrite CrossEntropyLoss_double; try reflexivity; try (simpl; discriminate).
  unfold lift, valid_pair_loss. do 2 f_equal. simpl. rewrite !Hl. simpl.
  rewrite exp_0.
  replace (0 + 1 + 1 + 1 + exp beta)%R with (3 + exp beta)%R by lra. lra.
Qed.

(** The test pair "<sos> <eos> <pad>": the padded position is ignored. *)
Lemma biased_test_loss (beta : R) (g : rng) :
  exists loss g',
    batch_loss (biased_model beta) (CrossEntropyLoss 1) test_pair g = inl (loss, g').
Proof.
  destruct (biased_forward beta (src test_pair) (drop_last (trg test_pair)) g)
    as [out [att [g' [E [So Hl]]]]];
    try reflexivity; try (unfold default_max_length; simpl; lia).
  destruct out as [o0 o1 o2 ov]. unfold shape3 in So. simpl in So.
  injection So as -> -> ->.
  rewrite (batch_loss_of_forward _ _ _ _ _ _ _ E) by (simpl; discriminate).
  eexists _, g'. unfold lift, CrossEntropyLoss. simpl. reflexivity.
Qed.

Lemma biased_train (beta : R) (g : rng) :
  exists loss g',
    train unit raise_eos (biased_model beta) [train_pair] tt (CrossEntropyLoss 1)
      CLIP g
    = inl ((biased_model (beta + 1), tt, loss), g').
Proof.
  destruct (biased_train_loss beta g) as [g' E].
  unfold train. cbn [train_batches].
  change (Seq2Seq.train true (biased_model beta)) with (biased_model beta).
  unfold bind at 1. unfold bind at 1. unfold get_rng. unfold bind at 1.
  rewrite E. cbn [raise_eos]. unfold ret. simpl.
  eexists _, g'. reflexivity.
Qed.

(** One pass of the epoch body on a biased model. *)
Lemma biased_epoch (beta : R) (epoch : nat) (st : run unit) (g : rng) :
  run_model st = biased_model beta ->
  exists g',
    epoch_body unit raise_eos [train_pair] [valid_pair] (CrossEntropyLoss 1) epoch st g
    = inl ((if below (train_pair_loss (beta + 1)) (best_valid_loss st)
            then {| run_model := biased_model (beta + 1); run_opt := tt;
                    best_valid_loss := Finite (train_pair_loss (beta + 1));
                    checkpoint := Some (biased_model (beta + 1));
                    saved_at := epoch :: saved_at st |}
            else {| run_model := biased_model (beta + 1); run_opt := tt;
                    best_valid_loss := best_valid_loss st;
                    checkpoint := checkpoint st;
                    saved_at := saved_at st |}), g').
Proof.
  intros Hm. unfold epoch_body. rewrite Hm.
  destruct (run_opt st).
  destruct (biased_train beta g) as [loss [g1 E1]].
  rewrite (bind_ok _ _ _ _ _ E1).
  destruct (biased_train_loss (beta + 1) g1) as [g2 E2].
  rewrite (bind_ok _ _ _ _ _ (evaluate_single _ _ _ _ _ _ E2)).
  exists g2.
  destruct (below (train_pair_loss (beta + 1)) (best_valid_loss st)); reflexivity.
Qed.

Lemma exp_1_gt_2 : (2 < exp 1)%R.
Proof. pose proof (exp_ineq1 1 ltac:(lra)). lra. Qed.

(** On the training pair the loss falls with every step of the optimizer. *)
Lemma train_loss_falls (beta : R) :
  (train_pair_loss (beta + 1) < train_pair_loss beta)%R.
Proof.
  unfold train_pair_loss. rewrite exp_plus.
  pose proof exp_1_gt_2 as H. pose proof (exp_pos beta) as P.
  assert (L : (ln (3 + exp beta * exp 1) < ln ((3 + exp beta) * exp 1))%R).
  { apply ln_increasing; nra. }
  rewrite ln_mult in L by lra. rewrite ln_exp in L. lra.
Qed.

(** On the validation pair it rises with every step once the bias has
    reached 1. *)
Lemma valid_loss_rises (beta : R) :
  (1 <= beta)%R -> (valid_pair_loss beta < valid_pair_loss (beta + 1))%R.
Proof.
  intros Hb. unfold valid_pair_loss.
  replace (beta + 1)%R with (beta + (1 / 2 + 1 / 2))%R by lra.
  rewrite !exp_plus.
  pose proof (exp_ineq1 (1 / 2) ltac:(lra)) as Hs.
  set (s := exp (1 / 2)) in *.
  assert (Hx : (s * s <= exp beta)%R).
  { unfold s. rewrite <- exp_plus. replace (1 / 2 + 1 / 2)%R with 1%R by lra.
    destruct Hb as [Hb | <-]; [left; apply exp_increasing; exact Hb | right; reflexivity]. }
  set (x := exp beta) in *.
  assert (P : (0 < s)%R) by lra.
  assert (H3 : (3 < x * s)%R) by nra.
  assert (L : (ln ((3 + x) * s) < ln (3 + x * (s * s)))%R).
  { apply ln_increasing; nra. }
  rewrite ln_mult in L by nra. unfold s in L at 1. rewrite ln_exp in L. lra.
Qed.

Lemma raised_spec (n : nat) : forall beta, raised n beta = (beta + INR n)%R.
Proof.
  induction n as [| n IH]; intros beta.
  - simpl. lra.
  - cbn [raised]. rewrite IH, S_INR. lra.
Qed.

(** The loop on the training pair: every epoch writes the checkpoint. *)
Lemma biased_epochs (n : nat) :
  forall (beta : R) (epoch : nat) (st : run unit) (g : rng),
    run_model st = biased_model beta ->
    best_valid_loss st = Infinity \/
    best_valid_loss st = Finite (train_pair_loss beta) ->
    exists st' g',
      epochs unit raise_eos [train_pair] [valid_pair] (CrossEntropyLoss 1) n epoch st g
      = inl (st', g') /\
      run_model st' = biased_model (raised n beta) /\
      saved_at st' = rev (seq epoch n) ++ saved_at st /\
      (0 < n -> checkpoint st' = Some (biased_model (raised n beta))).
Proof.
  induction n as [| n IH]; intros beta epoch st g Hm Hb.
  - exists st, g. split; [reflexivity |]. split; [exact Hm |].
    split; [reflexivity | lia].
  - destruct (biased_epoch beta epoch st g Hm) as [g1 E1].
    assert (B : below (train_pair_loss (beta + 1)) (best_valid_loss st) = true).
    { destruct Hb as [-> | ->]; [reflexivity |]. simpl.
      destruct (Rlt_dec (train_pair_loss (beta + 1)) (train_pair_loss beta))
        as [_ | N]; [reflexivity | exfalso; exact (N (train_loss_falls beta))]. }
    rewrite B in E1.
    set (st1 := {| run_model := biased_model (beta + 1); run_opt := tt;
                   best_valid_loss := Finite (train_pair_loss (beta + 1));
                   checkpoint := Some (biased_model (beta + 1));
                   saved_at := epoch :: saved_at st |}) in *.
    destruct (IH (beta + 1)%R (S epoch) st1 g1 eq_refl (or_intror eq_refl))
      as [st' [g' [E2 [M2 [S2 C2]]]]].
    exists st', g'. split; [| split; [| split]].
    + cbn [epochs]. rewrite (bind_ok _ _ _ _ _ E1). exact E2.
    + exact M2.
    + rewrite S2. cbn [st1 saved_at seq rev]. rewrite <- app_assoc. reflexivity.
    + intros _. destruct n as [| n'].
      * simpl in E2. unfold ret in E2. injection E2 as <- _. reflexivity.
      * apply C2. lia.
Qed.

(** C6.  The notebook's ten epochs on the training pair "<sos> <eos>" with
    the validation pair "<sos> <unk> <eos>" and an optimizer that raises the
    <eos> bias: the loss the loop compares is the one on the training
    iterator, which falls in every epoch, so the checkpoint is written in
    all ten epochs and the parameters that are loaded back are those of the
    tenth; the model after [k] epochs has the <eos> bias [raised k 0], and
    the loss on the validation pair rises in every epoch after the first. *)
Theorem checkpoint_follows_training_loss (g : rng) :
  exists st model test_loss g1,
    notebook unit raise_eos [train_pair] [valid_pair] [test_pair]
      (CrossEntropyLoss 1) (biased_model 0) tt g
    = inl ((st, model, test_loss), g1) /\
    saved_at st = [9; 8; 7; 6; 5; 4; 3; 2; 1; 0] /\
    checkpoint st = Some (biased_model (raised 10 0)) /\
    model = biased_model (raised 10 0) /\
    (forall k, exists st_k g_k,
        epochs unit raise_eos [train_pair] [valid_pair] (CrossEntropyLoss 1) k 0
          {| run_model := biased_model 0; run_opt := tt;
             best_valid_loss := Infinity; checkpoint := None; saved_at := [] |} g
        = inl (st_k, g_k) /\
        run_model st_k = biased_model (raised k 0)) /\
    forall k g2, 1 <= k ->
      exists v g3 v' g4,
        evaluate (biased_model (raised k 0)) [valid_pair] (CrossEntropyLoss 1) g2
        = inl (v, g3) /\
        evaluate (biased_model (raised (S k) 0)) [valid_pair] (CrossEntropyLoss 1) g2
        = inl (v', g4) /\
        (v < v')%R.
Proof.
  destruct (biased_epochs N_EPOCHS 0 0
              {| run_model := biased_model 0; run_opt := tt;
                 best_valid_loss := Infinity; checkpoint := None; saved_at := [] |}
              g eq_refl (or_introl eq_refl))
    as [st [g1 [E [Hm [Hs Hc]]]]].
  specialize (Hc ltac:(unfold N_EPOCHS; lia)).
  destruct (biased_test_loss (raised N_EPOCHS 0) g1) as [loss [g2 Et]].
  exists st, (biased_model (raised N_EPOCHS 0)), loss, g2.
  split; [| split; [| split; [| split; [| split]]]].
  - unfold notebook. rewrite (bind_ok _ _ _ _ _ E). rewrite Hc.
    unfold torch_load. rewrite (bind_lift _ _ _ _ eq_refl). rewrite Hm.
    change (load_state_dict (biased_model (raised N_EPOCHS 0))
              (biased_model (raised N_EPOCHS 0)))
      with (biased_model (raised N_EPOCHS 0)).
    rewrite (bind_ok _ _ _ _ _ (evaluate_single _ _ _ _ _ _ Et)). reflexivity.
  - rewrite Hs. reflexivity.
  - exact Hc.
  - reflexivity.
  - intros k.
    destruct (biased_epochs k 0 0
                {| run_model := biased_model 0; run_opt := tt;
                   best_valid_loss := Infinity; checkpoint := None;
                   saved_at := [] |}
                g eq_refl (or_introl eq_refl))
      as [st_k [g_k [Ek [Mk _]]]].
    exists st_k, g_k. split; [exact Ek | exact Mk].
  - intros k g3 Hk.
    destruct (biased_valid_loss (raised k 0) g3) as [g4 V1].
    destruct (biased_valid_loss (raised (S k) 0) g3) as [g5 V2].
    eexists _, g4, _, g5.
    split; [exact (evaluate_single _ _ _ _ _ _ V1) |].
    split; [exact (evaluate_single _ _ _ _ _ _ V2) |].
    assert (Hr : raised (S k) 0 = (raised k 0 + 1)%R).
    { rewrite !raised_spec, S_INR. lra. }
    rewrite Hr. apply valid_loss_rises.
    rewrite raised_spec. pose proof (le_INR 1 k Hk) as Hi. simpl in Hi. lra.
Qed.

(* ================================================================= *)
(** ** Evaluation after [model.eval()] *)

Lemma rng_free_ret {A : Type} (a : A) : rng_free (ret a).
Proof. exists (inl a). reflexivity. Qed.

Lemma rng_free_raise {A : Type} (e : exn) : rng_free (@raise A e).
Proof. exists (inr e). reflexivity. Qed.

Lemma rng_free_lift {A : Type} (r : result A) : rng_free (lift r).
Proof. exists r. intros g. destruct r; reflexivity. Qed.

Lemma rng_free_bind {A B : Type} (m : M A) (f : A -> M B) :
  rng_free m -> (forall a, rng_free (f a)) -> rng_free (bind m f).
Proof.
  intros [r Hr] Hf. destruct r as [a | e].
  - destruct (Hf a) as [r' Hr']. exists r'. intros g.
    unfold bind. rewrite Hr. apply Hr'.
  - exists (inr e). intros g. unfold bind. rewrite Hr. reflexivity.
Qed.

Lemma rng_free_dropout (p : Q) (x : tensor3) : rng_free (Dropout_forward false p x).
Proof. exists (inl x). reflexivity. Qed.

Ltac rng_free_step :=
  first [ apply rng_free_ret | apply rng_free_raise | apply rng_free_lift
        | apply rng_free_dropout
        | apply rng_free_bind; [| intros ?]
        | match goal with
          | |- rng_free (match ?p with _ => _ end) => destruct p
          end ].

Lemma Encoder_blocks_rng_free (self : Encoder.t) (cs : list Conv1d) :
  Encoder.training self = false ->
  forall x last, rng_free (Encoder.blocks self cs x last).
Proof.
  intros Tr. induction cs as [| c cs IH]; intros x last; cbn [Encoder.blocks].
  - apply rng_free_ret.
  - apply rng_free_bind; [| intros y; apply IH].
    unfold Encoder.block. rewrite Tr. repeat rng_free_step.
Qed.

Lemma Encoder_forward_rng_free (self : Encoder.t) (s : ltensor2) :
  Encoder.training self = false -> rng_free (Encoder.forward self s).
Proof.
  intros Tr. unfold Encoder.forward. rewrite Tr.
  repeat rng_free_step. apply Encoder_blocks_rng_free. exact Tr.
Qed.

Lemma Decoder_blocks_rng_free (self : Decoder.t) (emb ec eb : tensor3) (B H : nat)
    (cs : list Conv1d) :
  Decoder.training self = false ->
  forall x bound, rng_free (Decoder.blocks self emb ec eb B H cs x bound).
Proof.
  intros Tr. induction cs as [| c cs IH]; intros x bound; cbn [Decoder.blocks].
  - apply rng_free_ret.
  - apply rng_free_bind; [| intros y; apply IH].
    unfold Decoder.block. rewrite Tr. repeat rng_free_step.
Qed.

Lemma Decoder_forward_rng_free (self : Decoder.t) (t : ltensor2) (ec eb : tensor3) :
  Decoder.training self = false -> rng_free (Decoder.forward self t ec eb).
Proof.
  intros Tr. unfold Decoder.forward. rewrite Tr.
  repeat rng_free_step. apply Decoder_blocks_rng_free. exact Tr.
Qed.

Lemma evaluate_rng_free (model : Seq2Seq.t) (it : iterator) (criterion : criterion_t) :
  rng_free (evaluate (Seq2Seq.train false model) it criterion).
Proof.
  unfold evaluate. apply rng_free_bind.
  - generalize 0%R. induction it as [| batch rest IH]; intros acc;
      cbn [evaluate_batches].
    + apply rng_free_ret.
    + apply rng_free_bind; [| intros loss; apply IH].
      unfold batch_loss. apply rng_free_bind.
      * unfold Seq2Seq.forward. apply rng_free_bind.
        -- apply Encoder_forward_rng_free. reflexivity.
        -- intros [cv cb]. apply Decoder_forward_rng_free. reflexivity.
      * intros [out att]. repeat rng_free_step.
  - intros loss. destruct (length it =? 0); [apply rng_free_raise | apply rng_free_ret].
Qed.

(** Had [evaluate] switched the model to evaluation mode, its outcome
    would not depend on the random generator. *)
Lemma evaluate_after_eval_is_deterministic (model : Seq2Seq.t) (it : iterator)
    (criterion : criterion_t) (g g' : rng) :
  match evaluate (Seq2Seq.train false model) it criterion g,
        evaluate (Seq2Seq.train false model) it criterion g' with
  | inl (loss, _), inl (loss', _) => loss = loss'
  | inr e, inr e' => e = e'
  | _, _ => False
  end.
Proof.
  destruct (evaluate_rng_free model it criterion) as [r Hr].
  rewrite (Hr g), (Hr g'). destruct r; reflexivity.
Qed.

(* ================================================================= *)
(** ** Worked values of the primitives *)

(** The sequence 1 2 3 under the kernel 1 2 3 with padding 1: the sliding
    products 0 1 2 . 1 2 3, 1 2 3 . 1 2 3 and 2 3 0 . 1 2 3. *)
Example Conv1d_values :
  let cv := mkConv1d 1 1 3 1 (fun _ _ j => INR (j + 1)) (fun _ => 0%R) in
  let x := mk3 1 1 3 (fun _ _ t => INR (t + 1)) in
  Conv1d_forward cv x = inl (Conv1d_out cv x) /\
  shape3 (Conv1d_out cv x) = (1, 1, 3) /\
  at3 (Conv1d_out cv x) 0 0 0 = 8%R /\
  at3 (Conv1d_out cv x) 0 0 1 = 14%R /\
  at3 (Conv1d_out cv x) 0 0 2 = 8%R.
Proof.
  cbv zeta. split; [reflexivity |]. split; [reflexivity |].
  unfold Conv1d_out, zero_padded. simpl. repeat split; lra.
Qed.

(** A kernel longer than the padded sequence raises. *)
Example Conv1d_too_short :
  Conv1d_forward (mkConv1d 1 1 3 0 (fun _ _ _ => 1%R) (fun _ => 0%R))
    (mk3 1 1 2 (fun _ _ _ => 1%R)) = inr RuntimeError.
Proof. reflexivity. Qed.

(** Dropout of probability one half in training mode: a kept element is
    doubled, a dropped one is zero; outside training nothing changes. *)
Example Dropout_values :
  let x := mk3 1 1 2 (fun _ _ _ => 3%R) in
  at3 (Dropout_out true (1 # 2) sample_rng x) 0 0 0 = 6%R /\
  at3 (Dropout_out true (1 # 2) sample_rng x) 0 0 1 = 0%R /\
  Dropout_out false (1 # 2) sample_rng x = x.
Proof.
  cbv zeta. split; [| split; [| reflexivity]].
  - simpl. unfold keeps. simpl. rewrite half_inverse. lra.
  - simpl. unfold keeps. simpl. reflexivity.
Qed.

(** A decoder with kernel size 0 cannot pad: the size of the padding is
    negative. *)
Example padded_conv_input_kernel_0 :
  Decoder.padded_conv_input (Decoder.mk true 0 1 (sqrt (1 / 2))
      (Decoder.tok_embedding sample_decoder) (Decoder.pos_embedding sample_decoder)
      (Decoder.emb2hid sample_decoder) (Decoder.hid2emb sample_decoder)
      (Decoder.attn_hid2emb sample_decoder) (Decoder.attn_emb2hid sample_decoder)
      (Decoder.fc_out sample_decoder) [] (1 # 4))
    1 2 (mk3 1 2 3 (fun _ _ _ => 0%R)) = inr RuntimeError.
Proof. reflexivity. Qed.

(** An encoder without blocks reaches the use of [conved] with the
    variable unbound. *)
Example Encoder_without_blocks :
  exists enc,
    Encoder.init 8 4 2 0 3 (1 # 4) default_max_length sample_encoder_initial = inl enc /\
    Encoder.forward enc sample_src sample_rng = inr UnboundLocalError.
Proof. eexists. split; reflexivity. Qed.

(* ================================================================= *)
(** ** The number of parameters *)

Lemma list_sum_flat_map_convs (hid_dim k p : nat) (cs : list Conv1d) :
  Forall (conv_dims hid_dim k p) cs ->
  list_sum (flat_map Conv1d_numels cs)
  = length cs * (2 * hid_dim * hid_dim * k + 2 * hid_dim).
Proof.
  induction 1 as [| c cs [Hi [Ho [Hk _]]] _ IH]; [reflexivity |].
  cbn [flat_map length]. rewrite list_sum_app, IH.
  unfold Conv1d_numels, list_sum. cbn [fold_right]. rewrite Hi, Ho, Hk. lia.
Qed.

Lemma count_parameters_built
    (input_dim output_dim emb_dim hid_dim n_enc n_dec k_enc k_dec : nat)
    (p_enc p_dec : Q) (pad : Z) (max_length : nat)
    (we : Encoder.initial) (wd : Decoder.initial)
    (enc : Encoder.t) (dec : Decoder.t) (mode : bool) :
  Encoder.init input_dim emb_dim hid_dim n_enc k_enc p_enc max_length we = inl enc ->
  Decoder.init output_dim emb_dim hid_dim n_dec k_dec p_dec pad max_length wd
  = inl dec ->
  count_parameters (Seq2Seq.train mode (Seq2Seq.init enc dec))
  = (input_dim * emb_dim + max_length * emb_dim
     + (hid_dim * emb_dim + hid_dim) + (emb_dim * hid_dim + emb_dim)
     + n_enc * (2 * hid_dim * hid_dim * k_enc + 2 * hid_dim))
    + (output_dim * emb_dim + max_length * emb_dim
       + (hid_dim * emb_dim + hid_dim) + (emb_dim * hid_dim + emb_dim)
       + (emb_dim * hid_dim + emb_dim) + (hid_dim * emb_dim + hid_dim)
       + (output_dim * emb_dim + output_dim)
       + n_dec * (2 * hid_dim * hid_dim * k_dec + 2 * hid_dim)).
Proof.
  intros He Hd.
  destruct (Encoder_init_inv _ _ _ _ _ _ _ _ _ He)
    as [_ [[T0 [T1 [P0 [P1 [A0 [A1 [B0 [B1 Hcs]]]]]]]] [Le _]]].
  destruct (Decoder_init_inv _ _ _ _ _ _ _ _ _ _ Hd)
    as [[_ [U0 [U1 [Q0 [Q1 [C0 [C1 [D0 [D1 [E0 [E1 [F0 [F1 [G0 [G1 Hds]]]]]]]]]]]]]]]
          [Ld _]].
  unfold count_parameters, parameters, Encoder_parameters, Decoder_parameters,
    Embedding_numel, Linear_numels.
  cbn [Seq2Seq.train Seq2Seq.init Seq2Seq.encoder Seq2Seq.decoder Encoder.train
       Decoder.train Encoder.tok_embedding Encoder.pos_embedding Encoder.emb2hid
       Encoder.hid2emb Encoder.convs Decoder.tok_embedding Decoder.pos_embedding
       Decoder.emb2hid Decoder.hid2emb Decoder.attn_hid2emb Decoder.attn_emb2hid
       Decoder.fc_out Decoder.convs].
  rewrite !list_sum_app.
  rewrite (list_sum_flat_map_convs _ _ _ _ Hcs), (list_sum_flat_map_convs _ _ _ _ Hds).
  unfold list_sum. cbn [fold_right app].
  rewrite T0, T1, P0, P1, A0, A1, B0, B1, U0, U1, Q0, Q1, C0, C1, D0, D1, E0, E1,
    F0, F1, G0, G1, Le, Ld.
  lia.
Qed.

(** X1.  The number [count_parameters] reports for a model built from an
    encoder and a decoder is fixed by the sizes they were built with: two
    embedding tables and two linear layers with their biases for the
    encoder, two more tables and five linear layers for the decoder, and per
    block a kernel of [2 * hid_dim * hid_dim * kernel_size] weights with
    [2 * hid_dim] biases.  It does not depend on the dropout rates, on the
    pad index, on the values of the parameters or on the mode. *)
Theorem count_parameters_formula
    (input_dim output_dim emb_dim hid_dim n_enc n_dec k_enc k_dec : nat)
    (p_enc p_dec : Q) (pad : Z) (max_length : nat)
    (we : Encoder.initial) (wd : Decoder.initial)
    (enc : Encoder.t) (dec : Decoder.t) (mode : bool) :
  Encoder.init input_dim emb_dim hid_dim n_enc k_enc p_enc max_length we = inl enc ->
  Decoder.init output_dim emb_dim hid_dim n_dec k_dec p_dec pad max_length wd
  = inl dec ->
  count_parameters (Seq2Seq.train mode (Seq2Seq.init enc dec))
  = (input_dim * emb_dim + max_length * emb_dim
     + (hid_dim * emb_dim + hid_dim) + (emb_dim * hid_dim + emb_dim)
     + n_enc * (2 * hid_dim * hid_dim * k_enc + 2 * hid_dim))
    + (output_dim * emb_dim + max_length * emb_dim
       + (hid_dim * emb_dim + hid_dim) + (emb_dim * hid_dim + emb_dim)
       + (emb_dim * hid_dim + emb_dim) + (hid_dim * emb_dim + hid_dim)
       + (output_dim * emb_dim + output_dim)
       + n_dec * (2 * hid_dim * hid_dim * k_dec + 2 * hid_dim)).
Proof. exact (count_parameters_built _ _ _ _ _ _ _ _ _ _ _ _ _ _ _ _ _). Qed.

Lemma count_parameters_formula_witness :
  count_parameters (Seq2Seq.train false (Seq2Seq.init sample_encoder sample_decoder))
  = (8 * 4 + default_max_length * 4 + (2 * 4 + 2) + (4 * 2 + 4)
     + 2 * (2 * 2 * 2 * 3 + 2 * 2))
    + (8 * 4 + default_max_length * 4 + (2 * 4 + 2) + (4 * 2 + 4)
       + (4 * 2 + 4) + (2 * 4 + 2) + (8 * 4 + 8)
       + 2 * (2 * 2 * 2 * 3 + 2 * 2)).
Proof.
  apply (count_parameters_formula 8 8 4 2 2 2 3 3 (1 # 4) (1 # 4) 1
           default_max_length sample_encoder_initial sample_decoder_initial
           sample_encoder sample_decoder false).
  - reflexivity.
  - reflexivity.
Defined.

(** X2.  The model cell builds for every pair of vocabulary sizes and every
    pad index: its encoder kernel size passes the assertion and its dropout
    rate is accepted.  The model it builds is in training mode and has
    [128 * INPUT_DIM + 257 * OUTPUT_DIM + 569408] parameters. *)
Theorem model_cell_builds (INPUT_DIM OUTPUT_DIM : nat) (TRG_PAD_IDX : Z)
    (we : Encoder.initial) (wd : Decoder.initial) :
  exists model,
    model_cell INPUT_DIM OUTPUT_DIM TRG_PAD_IDX we wd = inl model /\
    Encoder.training (Seq2Seq.encoder model) = true /\
    Decoder.training (Seq2Seq.decoder model) = true /\
    Z.of_nat (count_parameters model)
    = (128 * Z.of_nat INPUT_DIM + 257 * Z.of_nat OUTPUT_DIM + 569408)%Z.
Proof.
  destruct (Encoder_init_ok INPUT_DIM EMB_DIM HID_DIM ENC_LAYERS ENC_KERNEL_SIZE
              ENC_DROPOUT default_max_length we eq_refl eq_refl) as [enc He].
  destruct (Decoder_init_ok OUTPUT_DIM EMB_DIM HID_DIM DEC_LAYERS DEC_KERNEL_SIZE
              DEC_DROPOUT TRG_PAD_IDX default_max_length wd eq_refl) as [dec Hd].
  exists (Seq2Seq.init enc dec). unfold model_cell. rewrite He, Hd.
  split; [reflexivity |].
  destruct (Encoder_init_inv _ _ _ _ _ _ _ _ _ He) as [_ [_ [_ [Te _]]]].
  destruct (Decoder_init_inv _ _ _ _ _ _ _ _ _ _ Hd) as [_ [_ [Td _]]].
  split; [exact Te |]. split; [exact Td |].
  pose proof (count_parameters_built _ _ _ _ _ _ _ _ _ _ _ _ _ _ _ _ true He Hd) as F.
  assert (M : Seq2Seq.train true (Seq2Seq.init enc dec) = Seq2Seq.init enc dec).
  { unfold Seq2Seq.train, Seq2Seq.init. cbn [Seq2Seq.encoder Seq2Seq.decoder].
    destruct enc, dec. simpl in Te, Td. subst. reflexivity. }
  rewrite M in F. rewrite F.
  unfold EMB_DIM, HID_DIM, ENC_LAYERS, DEC_LAYERS, ENC_KERNEL_SIZE, DEC_KERNEL_SIZE,
    default_max_length.
  lia.
Qed.

(* ================================================================= *)
(** ** Minutes and seconds *)

Lemma int_of_split (q : Q) :
  let m := int_of (q / 60)%Q in
  let s := int_of (q - inject_Z m * 60)%Q in
  (60 * m + s = int_of q)%Z /\
  ((0 <= Qnum q)%Z -> (0 <= m /\ 0 <= s < 60)%Z) /\
  ((Qnum q <= 0)%Z -> (m <= 0 /\ -60 < s <= 0)%Z).
Proof.
  destruct q as [n d]. unfold int_of. cbn -[Z.quot Z.mul Z.add Z.opp Pos.mul].
  rewrite !Pos.mul_1_r, !Z.mul_1_r. rewrite Pos2Z.inj_mul.
  assert (Hd : (0 < Z.pos d)%Z) by lia.
  generalize dependent (Z.pos d). intros D HD.
  set (m := (n ÷ (D * 60))%Z).
  assert (E : (n + - (m * 60) * D = n - m * (D * 60))%Z) by lia. rewrite E.
  pose proof (Z.quot_rem' n (D * 60)) as QR. fold m in QR.
  assert (R : (n - m * (D * 60) = Z.rem n (D * 60))%Z) by lia. rewrite R.
  split; [| split].
  - subst m. Z.to_euclidean_division_equations. nia.
  - intros Hn. subst m. Z.to_euclidean_division_equations. nia.
  - intros Hn. subst m. Z.to_euclidean_division_equations. nia.
Qed.

(** X3.  [epoch_time] splits the whole seconds of the elapsed time into
    minutes and seconds: sixty times the minutes plus the seconds is the
    elapsed time truncated to an integer, and when the end is not before the
    start the minutes are not negative and the seconds lie between 0 and 59.
    (Times are exact rationals here.) *)
Theorem epoch_time_splits_the_seconds (start_time end_time : Q) :
  (start_time <= end_time)%Q ->
  (60 * fst (epoch_time start_time end_time) + snd (epoch_time start_time end_time)
   = int_of (end_time - start_time)%Q)%Z /\
  (0 <= fst (epoch_time start_time end_time))%Z /\
  (0 <= snd (epoch_time start_time end_time) < 60)%Z.
Proof.
  intros Hle. unfold epoch_time. cbn [fst snd].
  destruct (int_of_split (end_time - start_time)%Q) as [E [Hpos _]].
  split; [exact E |]. apply Hpos.
  destruct start_time as [sn sd], end_time as [en ed].
  unfold Qle in Hle. simpl in Hle. simpl. lia.
Qed.

Lemma epoch_time_splits_the_seconds_witness :
  (60 * fst (epoch_time 1000 (2251 # 2)) + snd (epoch_time 1000 (2251 # 2))
   = int_of ((2251 # 2) - 1000)%Q)%Z /\
  (0 <= fst (epoch_time 1000 (2251 # 2)))%Z /\
  (0 <= snd (epoch_time 1000 (2251 # 2)) < 60)%Z.
Proof.
  apply (epoch_time_splits_the_seconds 1000 (2251 # 2)).
  unfold Qle. simpl. lia.
Defined.

Example epoch_time_value : epoch_time 1000 (2251 # 2) = (2, 5)%Z.
Proof. reflexivity. Qed.

(** When the clock runs backwards both numbers are negative or zero. *)
Example epoch_time_backwards : epoch_time (2251 # 2) 1000 = (-2, -5)%Z.
Proof. reflexivity. Qed.

(* ================================================================= *)
(** ** What [evaluate] reports *)

(** On an iterator without batches both [evaluate] and [train] end in the
    division of the accumulated loss by zero. *)
Example empty_iterator_divides_by_zero (optimizer : Type)
    (step : R -> optimizer -> Seq2Seq.t -> Batch -> rng -> optimizer * Seq2Seq.t)
    (model : Seq2Seq.t) (opt : optimizer) (criterion : criterion_t) (clip : R)
    (g : rng) :
  evaluate model [] criterion g = inr ZeroDivisionError /\
  train optimizer step model [] opt criterion clip g = inr ZeroDivisionError.
Proof. split; reflexivity. Qed.

(* ================================================================= *)
(** ** Batches the model cannot take *)

Lemma indices_ok_empty (num : nat) (idx : ltensor2) :
  l1 idx = 0 -> indices_ok num idx = true.
Proof.
  intros H. apply indices_ok_spec. intros b t _ Ht. lia.
Qed.

(** A decoder with at least one block raises on a target without
    positions: the padded input of the first block is one short of the
    kernel. *)
Lemma Decoder_forward_empty_target (self : Decoder.t) (t : ltensor2)
    (ec eb : tensor3) (g : rng) (output_dim E H k max_length : nat) :
  Decoder_dims output_dim E H k max_length self ->
  1 <= k -> Decoder.convs self <> [] -> l1 t = 0 ->
  Decoder.forward self t ec eb g = inr RuntimeError.
Proof.
  intros D Hk Hne HL.
  pose proof D as [K [T0 [T1 [P0 [P1 [A0 [A1 [_ [_ [_ [_ [_ [_ [_ [_ Hcs]]]]]]]]]]]]]]].
  unfold Decoder.forward.
  rewrite (bind_lift _ _ _ _
             (Embedding_forward_ok (Decoder.tok_embedding self) t
                (indices_ok_empty _ _ HL))).
  rewrite (bind_lift _ _ _ _
             (Embedding_forward_ok (Decoder.pos_embedding self)
                (arange_repeat (l0 t) (l1 t))
                (indices_ok_empty (num_embeddings (Decoder.pos_embedding self))
                   (arange_repeat (l0 t) (l1 t)) HL))).
  destruct (add3_same (Embedding_out (Decoder.tok_embedding self) t)
              (Embedding_out (Decoder.pos_embedding self)
                 (arange_repeat (l0 t) (l1 t)))) as [E1 S1].
  { unfold shape3. simpl. congruence. }
  rewrite (bind_lift _ _ _ _ E1). rewrite bind_dropout.
  set (g1 := Dropout_rng _ g _).
  set (embedded := Dropout_out _ _ g _).
  assert (Se : shape3 embedded = (l0 t, 0, E)).
  { unfold embedded. rewrite Dropout_shape, S1. unfold shape3. simpl. congruence. }
  clearbody embedded g1.
  destruct (shape3_inv _ _ _ _ Se) as [e0 [e1 e2]].
  rewrite (bind_lift _ _ _ _
             (Linear_forward_ok (Decoder.emb2hid self) embedded ltac:(congruence))).
  cbv zeta.
  set (ci := permute021 (Linear_out (Decoder.emb2hid self) embedded)).
  assert (Sc : shape3 ci = (l0 t, H, 0)).
  { unfold ci. rewrite permute021_shape. simpl. congruence. }
  clearbody ci.
  destruct (shape3_inv _ _ _ _ Sc) as [c0 [c1 c2]]. rewrite c0, c1.
  destruct (Decoder.convs self) as [| conv cs]; [congruence |].
  inversion Hcs as [| c' cs' [Ci [Co [Ck Cp]]] _]; subst c' cs'.
  cbn [Decoder.blocks]. unfold bind at 1. unfold bind at 1.
  unfold Decoder.block. rewrite bind_dropout.
  set (x1 := Dropout_out _ _ g1 ci).
  assert (S2 : shape3 x1 = (l0 t, H, 0)).
  { unfold x1. rewrite Dropout_shape. exact Sc. }
  destruct (padded_conv_input_ok self (l0 t) H 0 k x1 K Hk S2) as [E2 S3].
  rewrite (bind_lift _ _ _ _ E2).
  destruct (shape3_inv _ _ _ _ S3) as [p0 [p1 p2]].
  assert (E3 : Conv1d_forward conv
                 (cat2_out (zeros_fill_out (l0 t) H (Z.of_nat k - 1)
                              (Decoder.trg_pad_idx self)) x1) = inr RuntimeError).
  { unfold Conv1d_forward. rewrite p1, Ci, Nat.eqb_refl, p2, Cp, Ck.
    destruct (out_channels conv =? 0); [reflexivity |].
    destruct (k - 1 + 0 + 2 * 0 <? k) eqn:F; [reflexivity |].
    apply Nat.ltb_ge in F. lia. }
  rewrite (bind_lift_err _ _ _ _ E3). reflexivity.
Qed.

Lemma Conv1d_no_channels (cv : Conv1d) (x : tensor3) :
  out_channels cv = 0 -> Conv1d_forward cv x = inr RuntimeError.
Proof.
  intros H. unfold Conv1d_forward. rewrite H.
  destruct (d1 x =? in_channels cv); reflexivity.
Qed.

(** An encoder of hidden width 0 with at least one block raises in its
    first convolution, which has no output channel. *)
Lemma Encoder_forward_no_channels (self : Encoder.t) (s : ltensor2) (g : rng)
    (input_dim E k max_length : nat) :
  Encoder_dims input_dim E 0 k max_length self -> Encoder.convs self <> [] ->
  l1 s <= max_length -> indices_ok input_dim s = true ->
  Encoder.forward self s g = inr RuntimeError.
Proof.
  intros [T0 [T1 [P0 [P1 [A0 [A1 [_ [_ Hcs]]]]]]]] Hne Hs Is.
  unfold Encoder.forward.
  rewrite (bind_lift _ _ _ _
             (Embedding_forward_ok (Encoder.tok_embedding self) s
                ltac:(rewrite T0; exact Is))).
  rewrite (bind_lift _ _ _ _
             (Embedding_forward_ok (Encoder.pos_embedding self)
                (arange_repeat (l0 s) (l1 s))
                ltac:(rewrite P0; apply arange_indices_ok; exact Hs))).
  destruct (add3_same (Embedding_out (Encoder.tok_embedding self) s)
              (Embedding_out (Encoder.pos_embedding self)
                 (arange_repeat (l0 s) (l1 s)))) as [E1 S1].
  { unfold shape3. simpl. congruence. }
  rewrite (bind_lift _ _ _ _ E1). rewrite bind_dropout.
  set (g1 := Dropout_rng _ g _).
  set (embedded := Dropout_out _ _ g _).
  assert (Se : d2 embedded = in_features (Encoder.emb2hid self)).
  { pose proof (Dropout_shape (Encoder.training self) (Encoder.dropout self) g
                  (add3_out (Embedding_out (Encoder.tok_embedding self) s)
                     (Embedding_out (Encoder.pos_embedding self)
                        (arange_repeat (l0 s) (l1 s))))) as Sd.
    fold embedded in Sd. rewrite S1 in Sd. unfold shape3 in Sd.
    injection Sd as _ _ ->. simpl. congruence. }
  clearbody embedded g1.
  rewrite (bind_lift _ _ _ _ (Linear_forward_ok (Encoder.emb2hid self) embedded Se)).
  destruct (Encoder.convs self) as [| conv cs]; [congruence |].
  inversion Hcs as [| c' cs' [_ [Co _]] _]; subst c' cs'.
  cbn [Encoder.blocks]. unfold bind at 1. unfold bind at 1.
  unfold Encoder.block. rewrite bind_dropout.
  rewrite (bind_lift_err _ _ _ _ (Conv1d_no_channels conv _ Co)). reflexivity.
Qed.

(** X5.  A batch whose target has a single token (or none) cannot be
    scored: [trg[:, :-1]] leaves the decoder a sequence without positions,
    and the first decoder block, whose padded input is then one short of the
    kernel, raises a RuntimeError.  This is so in either mode and for every
    criterion. *)
Theorem target_of_one_token_raises
    (input_dim output_dim emb_dim hid_enc hid_dec n_enc n_dec k_enc k_dec : nat)
    (p_enc p_dec : Q) (pad : Z) (max_length : nat)
    (we : Encoder.initial) (wd : Decoder.initial)
    (enc : Encoder.t) (dec : Decoder.t) (mode : bool)
    (s t : ltensor2) (criterion : criterion_t) (g : rng) :
  Encoder.init input_dim emb_dim hid_enc n_enc k_enc p_enc max_length we = inl enc ->
  Decoder.init output_dim emb_dim hid_dec n_dec k_dec p_dec pad max_length wd
  = inl dec ->
  0 < n_enc -> 0 < n_dec -> 1 <= k_dec ->
  0 < l1 s <= max_length -> indices_ok input_dim s = true ->
  l1 t <= 1 ->
  batch_loss (Seq2Seq.train mode (Seq2Seq.init enc dec)) criterion (mkBatch s t) g
  = inr RuntimeError.
Proof.
  intros He Hd Ne Nd Hk Hs Is Ht.
  destruct (Encoder_init_inv _ _ _ _ _ _ _ _ _ He) as [Hodd [De [Le _]]].
  destruct (Decoder_init_inv _ _ _ _ _ _ _ _ _ _ Hd) as [Dd [Ld _]].
  assert (Hne : Encoder.convs (Encoder.train mode enc) <> []).
  { simpl. intros Hnil. rewrite Hnil in Le. simpl in Le. lia. }
  unfold batch_loss, Seq2Seq.forward.
  cbn [src trg Seq2Seq.train Seq2Seq.init Seq2Seq.encoder Seq2Seq.decoder].
  unfold bind at 1. unfold bind at 1.
  destruct (Nat.eq_0_gt_0_cases hid_enc) as [Z0 | HH].
  { (* without channels the encoder raises first *)
    subst hid_enc.
    rewrite (Encoder_forward_no_channels (Encoder.train mode enc) s g input_dim
               emb_dim k_enc max_length De Hne (proj2 Hs) Is).
    reflexivity. }
  destruct (Encoder_forward_ok (Encoder.train mode enc) s g input_dim emb_dim
              hid_enc k_enc max_length De Hodd HH Hne Hs Is)
    as [cv [cb [g1 [E1 _]]]].
  rewrite E1.
  rewrite (Decoder_forward_empty_target (Decoder.train mode dec) (drop_last t) cv cb
             g1 output_dim emb_dim hid_dec k_dec max_length Dd Hk
             ltac:(simpl; intros Hnil; rewrite Hnil in Ld; simpl in Ld; lia)
             ltac:(simpl; lia)).
  reflexivity.
Qed.

Lemma target_of_one_token_raises_witness :
  batch_loss (Seq2Seq.train true (Seq2Seq.init sample_encoder sample_decoder))
    (CrossEntropyLoss 1) (mkBatch sample_src (of_rows [[2]]%Z)) sample_rng
  = inr RuntimeError.
Proof.
  apply (target_of_one_token_raises 8 8 4 2 2 2 2 3 3 (1 # 4) (1 # 4) 1
           default_max_length sample_encoder_initial sample_decoder_initial
           sample_encoder sample_decoder true sample_src (of_rows [[2]]%Z)).
  - reflexivity.
  - reflexivity.
  - lia.
  - lia.
  - lia.
  - unfold default_max_length. simpl. lia.
  - reflexivity.
  - simpl. lia.
Defined.

(* ================================================================= *)
(** ** Evaluation mode *)

(** X7.  After [model.eval()] — [model.train(False)], which reaches every
    submodule — neither a forward pass nor [evaluate] reads the random
    generator: each has one outcome, whatever the state of the generator,
    and leaves the generator as it found it. *)
Theorem eval_mode_draws_nothing (model : Seq2Seq.t) (s t : ltensor2)
    (it : iterator) (criterion : criterion_t) :
  rng_free (Seq2Seq.forward (Seq2Seq.train false model) s t) /\
  rng_free (evaluate (Seq2Seq.train false model) it criterion).
Proof.
  split.
  - unfold Seq2Seq.forward. apply rng_free_bind.
    + apply Encoder_forward_rng_free. reflexivity.
    + intros [cv cb]. apply Decoder_forward_rng_free. reflexivity.
  - apply evaluate_rng_free.
Qed.

(* ================================================================= *)
(** ** The loss of a well-formed batch *)

Lemma indices_ok_drop_last (num : nat) (t : ltensor2) :
  indices_ok num t = true -> indices_ok num (drop_last t) = true.
Proof.
  intros H. rewrite indices_ok_spec in H. apply indices_ok_spec. simpl.
  intros b p Hb Hp. apply H; lia.
Qed.

Lemma flat_index (n rows cols : nat) :
  n < rows * cols -> n / cols < rows /\ n mod cols < cols.
Proof.
  intros H. assert (C : cols <> 0) by (intros ->; lia). split.
  - apply Nat.Div0.div_lt_upper_bound. lia.
  - apply Nat.mod_upper_bound. exact C.
Qed.

Lemma target_ok_drop_first (pad : Z) (num : nat) (t : ltensor2) :
  indices_ok num t = true ->
  target_ok pad num (view_flat (drop_first t)) = true.
Proof.
  intros H. rewrite indices_ok_spec in H.
  unfold target_ok. apply forallb_forall. intros n Hn. apply in_seq in Hn.
  cbn [view_flat drop_first n0 atL1 atL2 l0 l1] in *.
  destruct (flat_index n (l0 t) (l1 t - 1) ltac:(lia)) as [Hb Hp].
  apply orb_true_iff. right. unfold index_ok.
  specialize (H (n / (l1 t - 1)) (n mod (l1 t - 1) + 1) Hb ltac:(lia)).
  apply andb_true_iff. split; [apply Z.leb_le | apply Z.ltb_lt]; lia.
Qed.

(** X8.  A well-formed batch is scored, in either mode, by a model whose
    hidden widths are at least 1: with as many source as target sentences,
    a source of 1 to [max_length] tokens, a target of 2 to [max_length + 1]
    tokens, every token in its vocabulary and at least one target token
    after the first that is not padding, the forward pass returns logits of
    shape (batch, trg_len - 1, output_dim) and attention of shape
    (batch, trg_len - 1, src_len), and the loss is the mean, over the
    target tokens after the first that are not padding, of the negated
    log-softmax that the logits at position [p] give to the token at
    position [p + 1].  (Without such a token the mean is a division of zero
    by zero.) *)
Theorem well_formed_batch_is_scored
    (input_dim output_dim emb_dim hid_enc hid_dec n_enc n_dec k_enc k_dec : nat)
    (p_enc p_dec : Q) (pad : Z) (max_length : nat)
    (we : Encoder.initial) (wd : Decoder.initial)
    (enc : Encoder.t) (dec : Decoder.t) (mode : bool)
    (s t : ltensor2) (g : rng) :
  Encoder.init input_dim emb_dim hid_enc n_enc k_enc p_enc max_length we = inl enc ->
  Decoder.init output_dim emb_dim hid_dec n_dec k_dec p_dec pad max_length wd
  = inl dec ->
  0 < n_enc -> 0 < n_dec -> 1 <= k_dec -> 0 < output_dim ->
  0 < hid_enc -> 0 < hid_dec ->
  l0 s = l0 t ->
  0 < l1 s <= max_length -> 2 <= l1 t <= max_length + 1 ->
  indices_ok input_dim s = true -> indices_ok output_dim t = true ->
  0 < counted pad (view_flat (drop_first t)) ->
  exists out att g',
    Seq2Seq.forward (Seq2Seq.train mode (Seq2Seq.init enc dec)) s (drop_last t) g
    = inl ((out, att), g') /\
    shape3 out = (l0 t, l1 t - 1, output_dim) /\
    shape3 att = (l0 t, l1 t - 1, l1 s) /\
    batch_loss (Seq2Seq.train mode (Seq2Seq.init enc dec)) (CrossEntropyLoss pad)
      (mkBatch s t) g
    = inl ((rsum (l0 t * (l1 t - 1))%nat
              (fun n =>
                 let b := (n / (l1 t - 1))%nat in
                 let p := (n mod (l1 t - 1))%nat in
                 if (atL2 t b (p + 1)%nat =? pad)%Z then 0
                 else ln (rsum output_dim (fun c => exp (at3 out b p c)))
                      - at3 out b p (Z.to_nat (atL2 t b (p + 1)%nat)))
            / INR (counted pad (view_flat (drop_first t))))%R, g').
Proof.
  intros He Hd Ne Nd Hk Ho HHe HHd HB Hs Ht Is It Hcount.
  destruct (Encoder_init_inv _ _ _ _ _ _ _ _ _ He) as [Hodd [De [Le _]]].
  destruct (Decoder_init_inv _ _ _ _ _ _ _ _ _ _ Hd) as [Dd [Ld _]].
  assert (Hne : Encoder.convs enc <> []).
  { intros Hnil. rewrite Hnil in Le. simpl in Le. lia. }
  assert (Hnd : Decoder.convs dec <> []).
  { intros Hnil. rewrite Hnil in Ld. simpl in Ld. lia. }
  assert (Ht' : 0 < l1 (drop_last t) <= max_length) by (simpl; lia).
  destruct (Seq2Seq_forward_ok (Seq2Seq.train mode (Seq2Seq.init enc dec)) s
              (drop_last t) g input_dim output_dim emb_dim hid_enc hid_dec k_enc
              k_dec max_length De Dd Hodd Hk HHe HHd Hne Hnd HB Hs Ht' Is
              (indices_ok_drop_last _ _ It))
    as [y [energy [g2 [g' [E [Sy [Se _]]]]]]].
  destruct (shape3_inv _ _ _ _ Sy) as [y0 [y1 y2]].
  pose proof Dd as [_ [_ [_ [_ [_ [_ [_ [_ [_ [_ [_ [_ [_ [_ [F1 _]]]]]]]]]]]]]]].
  cbn [Seq2Seq.train Seq2Seq.init Seq2Seq.decoder Decoder.train Decoder.fc_out
       Decoder.hid2emb Decoder.training Decoder.dropout] in E, F1.
  set (out := Linear_out (Decoder.fc_out dec) _) in E.
  assert (So : shape3 out = (l0 t, l1 t - 1, output_dim)).
  { unfold out, shape3. cbn [Linear_out d0 d1 d2].
    pose proof (Dropout_shape mode (Decoder.dropout dec) g2
                  (Linear_out (Decoder.hid2emb dec) (permute021 y))) as Sd.
    unfold shape3 in Sd. injection Sd as -> -> _.
    cbn [Linear_out permute021 d0 d1 d2]. rewrite y0, y2, F1. reflexivity. }
  clearbody out.
  destruct (shape3_inv _ _ _ _ So) as [o0 [o1 o2]].
  exists out, (softmax2 energy), g'.
  split; [exact E |]. split; [exact So |]. split; [exact Se |].
  rewrite (batch_loss_of_forward _ (CrossEntropyLoss pad) (mkBatch s t) g g' out
             (softmax2 energy) E) by lia.
  unfold lift, CrossEntropyLoss.
  cbn [trg view_rows_out r0 r1 at2].
  replace (n0 (view_flat (drop_first t))) with (l0 t * (l1 t - 1)) by reflexivity.
  rewrite o0, o1, o2, Nat.eqb_refl, (target_ok_drop_first pad output_dim t It).
  do 2 f_equal. f_equal. apply rsum_ext. intros n Hn.
  cbn [view_flat drop_first atL1 atL2 l0 l1].
  destruct (atL2 t (n / (l1 t - 1)) (n mod (l1 t - 1) + 1) =? pad)%Z;
    [reflexivity | lra].
Qed.

Lemma well_formed_batch_is_scored_witness :
  exists out att g',
    Seq2Seq.forward (Seq2Seq.train false (Seq2Seq.init sample_encoder sample_decoder))
      sample_src (drop_last (of_rows [[2; 4; 5; 3]]%Z)) sample_rng
    = inl ((out, att), g') /\
    shape3 out = (1, 3, 8) /\
    shape3 att = (1, 3, 5) /\
    batch_loss (Seq2Seq.train false (Seq2Seq.init sample_encoder sample_decoder))
      (CrossEntropyLoss 1) (mkBatch sample_src (of_rows [[2; 4; 5; 3]]%Z)) sample_rng
    = inl ((rsum 3
              (fun n =>
                 let b := (n / 3)%nat in
                 let p := (n mod 3)%nat in
                 if (atL2 (of_rows [[2; 4; 5; 3]]%Z) b (p + 1)%nat =? 1)%Z then 0
                 else ln (rsum 8 (fun c => exp (at3 out b p c)))
                      - at3 out b p
                          (Z.to_nat (atL2 (of_rows [[2; 4; 5; 3]]%Z) b (p + 1)%nat)))
            / INR (counted 1 (view_flat (drop_first (of_rows [[2; 4; 5; 3]]%Z)))))%R,
           g').
Proof.
  apply (well_formed_batch_is_scored 8 8 4 2 2 2 2 3 3 (1 # 4) (1 # 4) 1
           default_max_length sample_encoder_initial sample_decoder_initial
           sample_encoder sample_decoder false sample_src
           (of_rows [[2; 4; 5; 3]]%Z) sample_rng).
  - reflexivity.
  - reflexivity.
  - lia.
  - lia.
  - lia.
  - lia.
  - lia.
  - lia.
  - reflexivity.
  - unfold default_max_length. simpl. lia.
  - unfold default_max_length. simpl. lia.
  - reflexivity.
  - reflexivity.
  - vm_compute. lia.
Defined.

(* ================================================================= *)
(** ** What an output entry is computed from

    Two runs on the same parameters and the same random stream, in either
    mode, on inputs that have the same shape and agree on a set [P] of
    (batch, position) pairs. *)

Lemma agree_on1_refl (P : nat -> nat -> Prop) (x : tensor3) : agree_on1 P x x.
Proof. split; [reflexivity | intros; reflexivity]. Qed.

Lemma agree_on1_weaken (P Q : nat -> nat -> Prop) (x y : tensor3) :
  (forall b t, b < d0 x -> t < d1 x -> Q b t -> P b t) ->
  agree_on1 P x y -> agree_on1 Q x y.
Proof.
  intros HPQ [S H]. split; [exact S |].
  intros b t c Hb Ht Hc Hq. apply H; auto.
Qed.

Lemma agree_on2_weaken (P Q : nat -> nat -> Prop) (x y : tensor3) :
  (forall b t, b < d0 x -> t < d2 x -> Q b t -> P b t) ->
  agree_on2 P x y -> agree_on2 Q x y.
Proof.
  intros HPQ [S H]. split; [exact S |].
  intros b c t Hb Hc Ht Hq. apply H; auto.
Qed.

Lemma Dropout_forward_inv (tr : bool) (p : Q) (x y : tensor3) (g g' : rng) :
  Dropout_forward tr p x g = inl (y, g') ->
  y = Dropout_out tr p g x /\ g' = Dropout_rng tr g x.
Proof. unfold Dropout_forward. intros H. injection H as <- <-. auto. Qed.

(** The draws a dropout makes depend on the shape of its input alone. *)
Lemma Dropout_rng_shape (tr : bool) (g : rng) (x x' : tensor3) :
  shape3 x = shape3 x' -> Dropout_rng tr g x = Dropout_rng tr g x'.
Proof.
  unfold shape3. intros S. injection S as s0 s1 s2.
  unfold Dropout_rng. rewrite s0, s1, s2. reflexivity.
Qed.

Lemma Dropout_agree_on1 (P : nat -> nat -> Prop) (tr : bool) (p : Q) (g : rng)
    (x x' : tensor3) :
  agree_on1 P x x' -> agree_on1 P (Dropout_out tr p g x) (Dropout_out tr p g x').
Proof.
  intros [S H]. destruct tr; [| split; assumption].
  pose proof S as S'. unfold shape3 in S'. injection S' as s0 s1 s2. split.
  - unfold shape3. cbn [Dropout_out d0 d1 d2]. congruence.
  - intros b t c Hb Ht Hc Hp. cbn [Dropout_out d0 d1 d2] in Hb, Ht, Hc.
    cbn [Dropout_out at3]. rewrite <- s1, <- s2, H by assumption. reflexivity.
Qed.

Lemma Dropout_agree_on2 (P : nat -> nat -> Prop) (tr : bool) (p : Q) (g : rng)
    (x x' : tensor3) :
  agree_on2 P x x' -> agree_on2 P (Dropout_out tr p g x) (Dropout_out tr p g x').
Proof.
  intros [S H]. destruct tr; [| split; assumption].
  pose proof S as S'. unfold shape3 in S'. injection S' as s0 s1 s2. split.
  - unfold shape3. cbn [Dropout_out d0 d1 d2]. congruence.
  - intros b c t Hb Hc Ht Hp. cbn [Dropout_out d0 d1 d2] in Hb, Ht, Hc.
    cbn [Dropout_out at3]. rewrite <- s1, <- s2, H by assumption. reflexivity.
Qed.

Lemma scale3_agree_on1 (P : nat -> nat -> Prop) (s : R) (x y : tensor3) :
  agree_on1 P x y -> agree_on1 P (scale3 x s) (scale3 y s).
Proof.
  intros [S H]. split; [exact S |].
  intros b t c Hb Ht Hc Hp. simpl. rewrite H by assumption. reflexivity.
Qed.

Lemma scale3_agree_on2 (P : nat -> nat -> Prop) (s : R) (x y : tensor3) :
  agree_on2 P x y -> agree_on2 P (scale3 x s) (scale3 y s).
Proof.
  intros [S H]. split; [exact S |].
  intros b c t Hb Hc Ht Hp. simpl. rewrite H by assumption. reflexivity.
Qed.

Lemma permute_agree_on12 (P : nat -> nat -> Prop) (x y : tensor3) :
  agree_on1 P x y -> agree_on2 P (permute021 x) (permute021 y).
Proof.
  intros [S H]. unfold shape3 in S. injection S as s0 s1 s2. split.
  - unfold shape3. simpl. congruence.
  - intros b c t Hb Hc Ht Hp. simpl. apply H; assumption.
Qed.

Lemma permute_agree_on21 (P : nat -> nat -> Prop) (x y : tensor3) :
  agree_on2 P x y -> agree_on1 P (permute021 x) (permute021 y).
Proof.
  intros [S H]. unfold shape3 in S. injection S as s0 s1 s2. split.
  - unfold shape3. simpl. congruence.
  - intros b t c Hb Ht Hc Hp. simpl. apply H; assumption.
Qed.

(** Agreement on whole rows of the batch does not depend on the layout. *)
Lemma permute_agree_rows (R : nat -> Prop) (x y : tensor3) :
  agree_on1 (fun b _ => R b) x y ->
  agree_on1 (fun b _ => R b) (permute021 x) (permute021 y).
Proof.
  intros [S H]. unfold shape3 in S. injection S as s0 s1 s2. split.
  - unfold shape3. simpl. congruence.
  - intros b t c Hb Ht Hc Hp. simpl. apply H; assumption.
Qed.

Lemma Linear_out_agree_on (P : nat -> nat -> Prop) (l : Linear) (x x' : tensor3) :
  d2 x = in_features l ->
  agree_on1 P x x' -> agree_on1 P (Linear_out l x) (Linear_out l x').
Proof.
  intros D [S H]. unfold shape3 in S. injection S as s0 s1 s2. split.
  - unfold shape3. simpl. congruence.
  - intros b t c Hb Ht Hc Hp. simpl in Hb, Ht. simpl. f_equal.
    apply rsum_ext. intros j Hj. rewrite H by (assumption || lia). reflexivity.
Qed.

Lemma Embedding_out_agree_on (P : nat -> nat -> Prop) (e : Embedding)
    (x x' : ltensor2) :
  agree_onL P x x' -> agree_on1 P (Embedding_out e x) (Embedding_out e x').
Proof.
  intros [H0 [H1 H]]. split.
  - unfold shape3. simpl. congruence.
  - intros b t c Hb Ht Hc Hp. simpl in Hb, Ht. simpl.
    rewrite H by assumption. reflexivity.
Qed.

Lemma add3_out_agree_on1 (P : nat -> nat -> Prop) (a b a' b' : tensor3) :
  shape3 a = shape3 b ->
  agree_on1 P a a' -> agree_on1 P b b' ->
  agree_on1 P (add3_out a b) (add3_out a' b').
Proof.
  intros Sab [Sa Ha] [Sb Hb].
  unfold shape3 in Sab, Sa, Sb.
  injection Sab as e0 e1 e2. injection Sa as a0 a1 a2. injection Sb as b0 b1 b2.
  split.
  - unfold add3_out, shape3. simpl. congruence.
  - intros x t c Hx Ht Hc Hp. cbn [add3_out d0 d1 d2] in Hx, Ht, Hc.
    rewrite <- e0, bdim_same in Hx. rewrite <- e1, bdim_same in Ht.
    rewrite <- e2, bdim_same in Hc.
    cbn [add3_out at3]. rewrite <- a0, <- a1, <- a2, <- b0, <- b1, <- b2.
    rewrite <- e0, <- e1, <- e2.
    rewrite !(bidx_lt _ _ Hx), !(bidx_lt _ _ Ht), !(bidx_lt _ _ Hc).
    rewrite Ha, Hb by (assumption || lia). reflexivity.
Qed.

Lemma add3_out_agree_on2 (P : nat -> nat -> Prop) (a b a' b' : tensor3) :
  shape3 a = shape3 b ->
  agree_on2 P a a' -> agree_on2 P b b' ->
  agree_on2 P (add3_out a b) (add3_out a' b').
Proof.
  intros Sab [Sa Ha] [Sb Hb].
  unfold shape3 in Sab, Sa, Sb.
  injection Sab as e0 e1 e2. injection Sa as a0 a1 a2. injection Sb as b0 b1 b2.
  split.
  - unfold add3_out, shape3. simpl. congruence.
  - intros x c t Hx Hc Ht Hp. cbn [add3_out d0 d1 d2] in Hx, Ht, Hc.
    rewrite <- e0, bdim_same in Hx. rewrite <- e1, bdim_same in Hc.
    rewrite <- e2, bdim_same in Ht.
    cbn [add3_out at3]. rewrite <- a0, <- a1, <- a2, <- b0, <- b1, <- b2.
    rewrite <- e0, <- e1, <- e2.
    rewrite !(bidx_lt _ _ Hx), !(bidx_lt _ _ Ht), !(bidx_lt _ _ Hc).
    rewrite Ha, Hb by (assumption || lia). reflexivity.
Qed.

(** The entry of a convolution at position [t] reads the input at the
    positions [t + j - padding] for [j < kernel_size]. *)
Lemma Conv1d_out_agree_on (P Q : nat -> nat -> Prop) (cv : Conv1d) (x x' : tensor3) :
  d1 x = in_channels cv ->
  (forall b t j, Q b t -> j < kernel_size cv ->
                 padding cv <= t + j -> t + j < padding cv + d2 x ->
                 P b (t + j - padding cv)) ->
  agree_on2 P x x' ->
  agree_on2 Q (Conv1d_out cv x) (Conv1d_out cv x').
Proof.
  intros D W [S H]. unfold shape3 in S. injection S as s0 s1 s2. split.
  - unfold Conv1d_out, shape3. cbn [d0 d1 d2]. congruence.
  - intros b o t Hb Ho Ht Hq. cbn [Conv1d_out d0 d1 d2] in Hb, Ho, Ht.
    cbn [Conv1d_out at3]. f_equal.
    apply rsum_ext. intros c Hc. apply rsum_ext. intros j Hj. f_equal.
    unfold zero_padded. rewrite <- s2.
    destruct ((t + j <? padding cv) || (padding cv + d2 x <=? t + j))%bool eqn:F;
      [reflexivity |].
    apply orb_false_iff in F. destruct F as [F1 F2].
    apply Nat.ltb_ge in F1. apply Nat.leb_gt in F2.
    apply H; [exact Hb | lia | lia | apply W; assumption].
Qed.

Lemma glu1_out_agree_on (P : nat -> nat -> Prop) (x x' : tensor3) :
  agree_on2 P x x' -> agree_on2 P (glu1_out x) (glu1_out x').
Proof.
  intros [S H]. unfold shape3 in S. injection S as s0 s1 s2. split.
  - unfold glu1_out, shape3. cbn [d0 d1 d2]. congruence.
  - intros b c t Hb Hc Ht Hp. cbn [glu1_out d0 d1 d2] in Hb, Hc, Ht.
    cbn [glu1_out at3]. rewrite <- s1.
    pose proof (Nat.Div0.mul_div_le (d1 x) 2) as Hd.
    rewrite !H by (assumption || lia). reflexivity.
Qed.

(** A row of a batched product is computed from the same row of the left
    operand and the matrix of the right operand for the same batch. *)
Lemma matmul_out_agree_on (P : nat -> nat -> Prop) (R : nat -> Prop)
    (a a' m m' : tensor3) :
  d0 a = d0 m -> d2 a = d1 m ->
  (forall b t, P b t -> R b) ->
  agree_on1 P a a' -> agree_on1 (fun b _ => R b) m m' ->
  agree_on1 P (matmul_out a m) (matmul_out a' m').
Proof.
  intros D0 D2 PR [Sa Ha] [Sm Hm].
  unfold shape3 in Sa, Sm. injection Sa as a0 a1 a2. injection Sm as m0 m1 m2.
  split.
  - unfold matmul_out, shape3. cbn [d0 d1 d2]. congruence.
  - intros b t k Hb Ht Hk Hp. cbn [matmul_out d0 d1 d2] in Hb, Ht, Hk.
    rewrite <- D0, bdim_same in Hb.
    cbn [matmul_out at3]. rewrite <- a0, <- a2, <- m0, <- D0.
    rewrite !(bidx_lt _ _ Hb).
    apply rsum_ext. intros c Hc.
    rewrite Ha by assumption.
    rewrite (Hm b c k) by (try lia; exact (PR b t Hp)). reflexivity.
Qed.

Lemma softmax2_agree_on (P : nat -> nat -> Prop) (x x' : tensor3) :
  agree_on1 P x x' -> agree_on1 P (softmax2 x) (softmax2 x').
Proof.
  intros [S H]. split; [exact S |].
  unfold shape3 in S. injection S as s0 s1 s2.
  intros b t k Hb Ht Hk Hp. cbn [softmax2 d0 d1 d2] in Hb, Ht, Hk.
  cbn [softmax2 at3]. rewrite <- s2. rewrite H by assumption. f_equal.
  apply rsum_ext. intros k' Hk'. rewrite H by assumption. reflexivity.
Qed.

(** Behind a prefix [a] that both runs share, position [u] of the
    concatenation is position [u - d2 a] of the input. *)
Lemma cat2_out_agree_on (P Q : nat -> nat -> Prop) (a x x' : tensor3) :
  d0 a = d0 x -> d1 a = d1 x ->
  (forall b u, Q b u -> d2 a <= u -> u < d2 a + d2 x -> P b (u - d2 a)) ->
  agree_on2 P x x' ->
  agree_on2 Q (cat2_out a x) (cat2_out a x').
Proof.
  intros D0 D1 W [S H]. unfold shape3 in S. injection S as s0 s1 s2. split.
  - unfold cat2_out, shape3. cbn [d0 d1 d2]. congruence.
  - intros b c u Hb Hc Hu Hq. cbn [cat2_out d0 d1 d2] in Hb, Hc, Hu.
    cbn [cat2_out at3].
    destruct (u <? d2 a) eqn:F; [reflexivity |].
    apply Nat.ltb_ge in F. apply H; [lia | lia | lia | apply W; assumption].
Qed.

(** One encoder block: its output at a position is computed from its input
    at the positions within [(k - 1) / 2] of it, in the same row of the
    batch. *)
Lemma Encoder_block_agree_on (P Q : nat -> nat -> Prop) (self : Encoder.t)
    (conv : Conv1d) (x x' y y' : tensor3) (g g1 g1' : rng) (B H L k : nat) :
  conv_dims H k ((k - 1) / 2) conv -> k mod 2 = 1 ->
  shape3 x = (B, H, L) -> 0 < L ->
  (forall b t u, Q b t -> u < L ->
                 t <= u + (k - 1) / 2 -> u <= t + (k - 1) / 2 -> P b u) ->
  Encoder.block self conv x g = inl (y, g1) ->
  Encoder.block self conv x' g = inl (y', g1') ->
  agree_on2 P x x' ->
  agree_on2 Q y y' /\ g1 = g1' /\ shape3 y = (B, H, L).
Proof.
  intros [Hin [Hout [Hk Hp]]] Hodd Sx HL W E E' A.
  pose proof (odd_half k Hodd) as Hh.
  destruct (shape3_inv _ _ _ _ Sx) as [x0 [x1 x2]].
  pose proof A as [SA _].
  unfold Encoder.block in E, E'.
  invert_bind E d gd Ed. destruct (Dropout_forward_inv _ _ _ _ _ _ Ed) as [-> ->].
  invert_bind E cv gc Ec. invert_lift Ec.
  pose proof (Conv1d_forward_channels _ _ _ Ec) as Hch.
  destruct (Conv1d_forward_inv _ _ _ Ec) as [-> Dc].
  invert_bind E gl gg Eg. invert_lift Eg. apply glu1_inv in Eg. subst gl.
  invert_bind E s gs Es. invert_lift Es. destruct (add3_inv _ _ _ Es) as [-> _].
  unfold ret in E. injection E as <- <-.
  invert_bind E' d' gd' Ed'.
  destruct (Dropout_forward_inv _ _ _ _ _ _ Ed') as [-> ->].
  invert_bind E' cv' gc' Ec'. invert_lift Ec'.
  destruct (Conv1d_forward_inv _ _ _ Ec') as [-> _].
  invert_bind E' gl' gg' Eg'. invert_lift Eg'. apply glu1_inv in Eg'. subst gl'.
  invert_bind E' s' gs' Es'. invert_lift Es'. destruct (add3_inv _ _ _ Es') as [-> _].
  unfold ret in E'. injection E' as <- <-.
  clear Ed Ec Es Ed' Ec' Es'.
  pose proof (Dropout_agree_on2 P (Encoder.training self) (Encoder.dropout self) g
                x x' A) as A1.
  pose proof (Dropout_shape (Encoder.training self) (Encoder.dropout self) g x) as S1.
  rewrite Sx in S1.
  set (d := Dropout_out (Encoder.training self) (Encoder.dropout self) g x) in *.
  set (d' := Dropout_out (Encoder.training self) (Encoder.dropout self) g x') in *.
  clearbody d d'.
  destruct (shape3_inv _ _ _ _ S1) as [e0 [e1 e2]].
  assert (A2 : agree_on2 Q (Conv1d_out conv d) (Conv1d_out conv d')).
  { apply (Conv1d_out_agree_on P Q conv d d' Dc); [| exact A1].
    intros b t j Hq Hj Hlo Hhi. rewrite Hk in Hj. rewrite Hp in Hlo, Hhi |- *.
    apply (W b t); [exact Hq | lia | lia | lia]. }
  destruct (Conv1d_same_length conv d k Dc Hk Hp Hodd ltac:(lia) Hch) as [_ S2].
  rewrite e0, e2, Hout in S2.
  pose proof (glu1_out_agree_on Q _ _ A2) as A3.
  destruct (glu1_ok (Conv1d_out conv d) H) as [_ S3].
  { destruct (shape3_inv _ _ _ _ S2) as [_ [c1 _]]. exact c1. }
  destruct (shape3_inv _ _ _ _ S2) as [c0 [_ c2]]. rewrite c0, c2 in S3.
  set (gl := glu1_out (Conv1d_out conv d)) in *.
  set (gl' := glu1_out (Conv1d_out conv d')) in *.
  clearbody gl gl'.
  assert (Sgx : shape3 gl = shape3 x) by congruence.
  split; [| split].
  - apply scale3_agree_on2. apply add3_out_agree_on2; [exact Sgx | exact A3 |].
    apply (agree_on2_weaken P Q); [| exact A].
    intros b t Hb Ht Hq. apply (W b t); [exact Hq | lia | lia | lia].
  - apply Dropout_rng_shape. exact SA.
  - rewrite scale3_shape. destruct (add3_same gl x Sgx) as [_ ->]. exact S3.
Qed.

(** The stack of encoder blocks: [F n] is the set of pairs the input of a
    stack of [n] blocks is read at, [F 0] the set of pairs of its output. *)
Lemma Encoder_blocks_agree_on (F : nat -> nat -> nat -> Prop) (self : Encoder.t)
    (B H L k : nat) :
  k mod 2 = 1 -> 0 < L ->
  (forall n b t u, F n b t -> u < L ->
                   t <= u + (k - 1) / 2 -> u <= t + (k - 1) / 2 -> F (S n) b u) ->
  forall (cs : list Conv1d) (x x' : tensor3) (last last' : option tensor3)
         (g : rng) (z z' : tensor3) (bd bd' : option tensor3) (g1 g1' : rng),
    Forall (conv_dims H k ((k - 1) / 2)) cs ->
    shape3 x = (B, H, L) ->
    Encoder.blocks self cs x last g = inl ((z, bd), g1) ->
    Encoder.blocks self cs x' last' g = inl ((z', bd'), g1') ->
    agree_on2 (F (length cs)) x x' ->
    agree_on2 (F 0) z z' /\ g1 = g1' /\ shape3 z = (B, H, L) /\
    match cs with
    | [] => bd = last /\ bd' = last'
    | _ :: _ => bd = Some z /\ bd' = Some z'
    end.
Proof.
  intros Hodd HL W. induction cs as [| conv cs IH];
    intros x x' last last' g z z' bd bd' g1 g1' Hcs Sx E E' A.
  - simpl in E, E'. unfold ret in E, E'.
    injection E as <- <- <-. injection E' as <- <- <-. auto.
  - inversion Hcs as [| c0 cs0 Hc Hrest]; subst c0 cs0.
    cbn [Encoder.blocks] in E, E'.
    invert_bind E y gy Ey. invert_bind E' y' gy' Ey'.
    destruct (Encoder_block_agree_on (F (S (length cs))) (F (length cs)) self conv
                x x' y y' g gy gy' B H L k Hc Hodd Sx HL (W (length cs)) Ey Ey' A)
      as [Ay [Gy Sy]].
    subst gy'.
    destruct (IH y y' (Some y) (Some y') gy z z' bd bd' g1 g1' Hrest Sy E E' Ay)
      as [Az [Gz [Sz M]]].
    split; [exact Az |]. split; [exact Gz |]. split; [exact Sz |].
    destruct cs as [| c2 cs2].
    + destruct M as [-> ->].
      simpl in E, E'. unfold ret in E, E'.
      injection E as <- _. injection E' as <- _. auto.
    + exact M.
Qed.

Lemma agree_onL_shape (P : nat -> nat -> Prop) (x y : ltensor2) :
  agree_onL P x y -> l0 y = l0 x /\ l1 y = l1 x.
Proof. intros [H0 [H1 _]]. auto. Qed.

(** The encoder: [F n] for the number [n] of blocks is the set of pairs
    the source is read at, [F 0] the set of pairs of the two outputs. *)
Lemma Encoder_forward_agree_on (F : nat -> nat -> nat -> Prop) (self : Encoder.t)
    (s s' : ltensor2) (g : rng) (cv cb cv' cb' : tensor3) (g1 g1' : rng)
    (input_dim E H k max_length : nat) :
  Encoder_dims input_dim E H k max_length self -> k mod 2 = 1 -> 0 < l1 s ->
  (forall n b t u, F n b t -> u < l1 s ->
                   t <= u + (k - 1) / 2 -> u <= t + (k - 1) / 2 -> F (S n) b u) ->
  Encoder.forward self s g = inl ((cv, cb), g1) ->
  Encoder.forward self s' g = inl ((cv', cb'), g1') ->
  agree_onL (F (length (Encoder.convs self))) s s' ->
  agree_on1 (F 0) cv cv' /\ agree_on1 (F 0) cb cb' /\ g1 = g1'.
Proof.
  intros [T0 [T1 [P0 [P1 [A0 [A1 [B0 [B1 Hcs]]]]]]]] Hodd HL W E0 E0' As.
  destruct (agree_onL_shape _ _ _ As) as [L0 L1].
  assert (Up : forall n b t, t < l1 s -> F 0 b t -> F n b t).
  { induction n as [| n IH]; intros b t Ht H0; [exact H0 |].
    apply (W n b t t); [apply IH; assumption | lia | lia | lia]. }
  unfold Encoder.forward in E0, E0'. rewrite L0, L1 in E0'.
  invert_bind E0 te g2 Et. invert_lift Et. apply Embedding_forward_inv in Et. subst te.
  invert_bind E0 pe g3 Ep. invert_lift Ep. apply Embedding_forward_inv in Ep. subst pe.
  invert_bind E0 sm g4 Es. invert_lift Es. destruct (add3_inv _ _ _ Es) as [-> _].
  invert_bind E0 em g5 Ed. destruct (Dropout_forward_inv _ _ _ _ _ _ Ed) as [-> ->].
  invert_bind E0 ci g6 Ec. invert_lift Ec.
  destruct (Linear_forward_inv _ _ _ Ec) as [-> Dc].
  invert_bind E0 r g7 Eb. destruct r as [z bd].
  invert_bind E0' te' g2' Et'. invert_lift Et'. apply Embedding_forward_inv in Et'.
  subst te'.
  invert_bind E0' pe' g3' Ep'. invert_lift Ep'. apply Embedding_forward_inv in Ep'.
  subst pe'.
  invert_bind E0' sm' g4' Es'. invert_lift Es'. destruct (add3_inv _ _ _ Es') as [-> _].
  invert_bind E0' em' g5' Ed'.
  destruct (Dropout_forward_inv _ _ _ _ _ _ Ed') as [-> ->].
  invert_bind E0' ci' g6' Ec'. invert_lift Ec'.
  destruct (Linear_forward_inv _ _ _ Ec') as [-> _].
  invert_bind E0' r' g7' Eb'. destruct r' as [z' bd'].
  clear Es Ed Ec Es' Ed' Ec'.
  set (n := length (Encoder.convs self)) in *.
  assert (Q1 : agree_on1 (F n)
                 (add3_out (Embedding_out (Encoder.tok_embedding self) s)
                    (Embedding_out (Encoder.pos_embedding self)
                       (arange_repeat (l0 s) (l1 s))))
                 (add3_out (Embedding_out (Encoder.tok_embedding self) s')
                    (Embedding_out (Encoder.pos_embedding self)
                       (arange_repeat (l0 s) (l1 s))))).
  { apply add3_out_agree_on1.
    - unfold shape3. simpl. congruence.
    - apply Embedding_out_agree_on. exact As.
    - apply agree_on1_refl. }
  assert (S1 : shape3 (add3_out (Embedding_out (Encoder.tok_embedding self) s)
                         (Embedding_out (Encoder.pos_embedding self)
                            (arange_repeat (l0 s) (l1 s))))
               = (l0 s, l1 s, E)).
  { destruct (add3_same (Embedding_out (Encoder.tok_embedding self) s)
                (Embedding_out (Encoder.pos_embedding self)
                   (arange_repeat (l0 s) (l1 s)))) as [_ ->];
      unfold shape3; simpl; congruence. }
  set (sm := add3_out (Embedding_out (Encoder.tok_embedding self) s) _) in *.
  set (sm' := add3_out (Embedding_out (Encoder.tok_embedding self) s') _) in *.
  clearbody sm sm'.
  pose proof (Dropout_agree_on1 (F n) (Encoder.training self) (Encoder.dropout self)
                g sm sm' Q1) as Q2.
  pose proof (Dropout_shape (Encoder.training self) (Encoder.dropout self) g sm) as S2.
  rewrite S1 in S2.
  assert (G5 : Dropout_rng (Encoder.training self) g sm'
               = Dropout_rng (Encoder.training self) g sm).
  { symmetry. apply Dropout_rng_shape. exact (proj1 Q1). }
  rewrite G5 in Eb'.
  set (g5 := Dropout_rng (Encoder.training self) g sm) in *.
  set (em := Dropout_out (Encoder.training self) (Encoder.dropout self) g sm) in *.
  set (em' := Dropout_out (Encoder.training self) (Encoder.dropout self) g sm') in *.
  clearbody em em' g5.
  destruct (shape3_inv _ _ _ _ S2) as [e0 [e1 e2]].
  pose proof (permute_agree_on12 _ _ _ (Linear_out_agree_on (F n) _ em em' Dc Q2)) as Q3.
  assert (S3 : shape3 (permute021 (Linear_out (Encoder.emb2hid self) em))
               = (l0 s, H, l1 s)).
  { rewrite permute021_shape. cbn [Linear_out d0 d1 d2]. congruence. }
  set (ci := permute021 (Linear_out (Encoder.emb2hid self) em)) in *.
  set (ci' := permute021 (Linear_out (Encoder.emb2hid self) em')) in *.
  clearbody ci ci'.
  destruct (Encoder_blocks_agree_on F self (l0 s) H (l1 s) k Hodd HL W
              (Encoder.convs self) ci ci' None None g5 z z' bd bd' g7 g7'
              Hcs S3 Eb Eb' Q3) as [Qz [G7 [Sz M]]].
  subst g7'. clear Eb Eb'.
  destruct (Encoder.convs self) as [| c cs].
  - destruct M as [-> ->]. discriminate E0.
  - destruct M as [-> ->].
    invert_bind E0 h g8 Eh. invert_lift Eh. destruct (Linear_forward_inv _ _ _ Eh) as [-> Dh].
    invert_bind E0 s2 g9 Ea. invert_lift Ea. destruct (add3_inv _ _ _ Ea) as [-> _].
    unfold ret in E0. injection E0 as <- <- <-.
    invert_bind E0' h' g8' Eh'. invert_lift Eh'.
    destruct (Linear_forward_inv _ _ _ Eh') as [-> _].
    invert_bind E0' s2' g9' Ea'. invert_lift Ea'. destruct (add3_inv _ _ _ Ea') as [-> _].
    unfold ret in E0'. injection E0' as <- <- <-.
    destruct (shape3_inv _ _ _ _ Sz) as [z0 [z1 z2]].
    pose proof (Linear_out_agree_on (F 0) (Encoder.hid2emb self) (permute021 z)
                  (permute021 z') Dh (permute_agree_on21 _ _ _ Qz)) as Q4.
    split; [exact Q4 |]. split; [| reflexivity].
    apply scale3_agree_on1. apply add3_out_agree_on1; [| exact Q4 |].
    + unfold shape3. cbn [Linear_out permute021 d0 d1 d2]. congruence.
    + apply (agree_on1_weaken (F n) (F 0)); [| exact Q2].
      intros b t Hb Ht H0. apply Up; [lia | exact H0].
Qed.

(** The attention of a decoder block, with its shapes known: the row of a
    target position is computed from the embedding and the convolved state
    at that position and from the encoder outputs of the same sentence. *)
Lemma calculate_attention_agree_on (P : nat -> nat -> Prop) (R : nat -> Prop)
    (self : Decoder.t)
    (emb emb' conved conved' ec ec' eb eb' att att' ac ac' : tensor3)
    (B T S E H : nat) :
  in_features (Decoder.attn_hid2emb self) = H ->
  out_features (Decoder.attn_hid2emb self) = E ->
  in_features (Decoder.attn_emb2hid self) = E ->
  out_features (Decoder.attn_emb2hid self) = H ->
  shape3 emb = (B, T, E) -> shape3 conved = (B, H, T) ->
  shape3 ec = (B, S, E) -> shape3 eb = (B, S, E) ->
  (forall b t, P b t -> R b) ->
  Decoder.calculate_attention self emb conved ec eb = inl (att, ac) ->
  Decoder.calculate_attention self emb' conved' ec' eb' = inl (att', ac') ->
  agree_on1 P emb emb' -> agree_on2 P conved conved' ->
  agree_on1 (fun b _ => R b) ec ec' -> agree_on1 (fun b _ => R b) eb eb' ->
  agree_on1 P att att' /\ agree_on2 P ac ac'.
Proof.
  intros A0 A1 B0 B1 Se Sc Sv Sb PR E0 E0' Qe Qc Qv Qb.
  destruct (shape3_inv _ _ _ _ Se) as [e0 [e1 e2]].
  destruct (shape3_inv _ _ _ _ Sc) as [c0 [c1 c2]].
  destruct (shape3_inv _ _ _ _ Sv) as [v0 [v1 v2]].
  destruct (shape3_inv _ _ _ _ Sb) as [b0 [b1 b2]].
  unfold Decoder.calculate_attention in E0, E0'.
  invert_rbind E0 ce E1. destruct (Linear_forward_inv _ _ _ E1) as [-> D1].
  invert_rbind E0 s1 E2. destruct (add3_inv _ _ _ E2) as [-> _].
  invert_rbind E0 en E3. destruct (matmul_inv _ _ _ E3) as [-> _].
  invert_rbind E0 ae E4. destruct (matmul_inv _ _ _ E4) as [-> _].
  invert_rbind E0 ah E5. destruct (Linear_forward_inv _ _ _ E5) as [-> D5].
  invert_rbind E0 s2 E6. destruct (add3_inv _ _ _ E6) as [-> _].
  injection E0 as <- <-.
  invert_rbind E0' ce' E1'. destruct (Linear_forward_inv _ _ _ E1') as [-> _].
  invert_rbind E0' s1' E2'. destruct (add3_inv _ _ _ E2') as [-> _].
  invert_rbind E0' en' E3'. destruct (matmul_inv _ _ _ E3') as [-> _].
  invert_rbind E0' ae' E4'. destruct (matmul_inv _ _ _ E4') as [-> _].
  invert_rbind E0' ah' E5'. destruct (Linear_forward_inv _ _ _ E5') as [-> _].
  invert_rbind E0' s2' E6'. destruct (add3_inv _ _ _ E6') as [-> _].
  injection E0' as <- <-.
  clear E1 E2 E3 E4 E5 E6 E1' E2' E3' E4' E5' E6'.
  (* conved_emb *)
  pose proof (Linear_out_agree_on P (Decoder.attn_hid2emb self) (permute021 conved)
                (permute021 conved') D1 (permute_agree_on21 _ _ _ Qc)) as Q1.
  assert (S1 : shape3 (Linear_out (Decoder.attn_hid2emb self) (permute021 conved))
               = (B, T, E)).
  { unfold shape3. cbn [Linear_out permute021 d0 d1 d2]. congruence. }
  set (ce := Linear_out (Decoder.attn_hid2emb self) (permute021 conved)) in *.
  set (ce' := Linear_out (Decoder.attn_hid2emb self) (permute021 conved')) in *.
  clearbody ce ce'.
  (* combined *)
  assert (Sce : shape3 ce = shape3 emb) by congruence.
  pose proof (scale3_agree_on1 P (Decoder.scale self) _ _
                (add3_out_agree_on1 P ce emb ce' emb' Sce Q1 Qe)) as Q2.
  assert (S2 : shape3 (scale3 (add3_out ce emb) (Decoder.scale self)) = (B, T, E)).
  { rewrite scale3_shape. destruct (add3_same ce emb Sce) as [_ ->]. exact S1. }
  set (cm := scale3 (add3_out ce emb) (Decoder.scale self)) in *.
  set (cm' := scale3 (add3_out ce' emb') (Decoder.scale self)) in *.
  clearbody cm cm'.
  destruct (shape3_inv _ _ _ _ S2) as [q0 [q1 q2]].
  (* energy and attention *)
  assert (Q3 : agree_on1 P (matmul_out cm (permute021 ec))
                           (matmul_out cm' (permute021 ec'))).
  { apply (matmul_out_agree_on P R); [| | exact PR | exact Q2 |].
    - cbn [permute021 d0]. congruence.
    - cbn [permute021 d1]. congruence.
    - apply permute_agree_rows. exact Qv. }
  destruct (matmul_ok cm (permute021 ec)) as [_ S3];
    [cbn [permute021 d0]; congruence | cbn [permute021 d1]; congruence |].
  cbn [permute021 d2] in S3. rewrite q0, q1, v1 in S3.
  set (en := matmul_out cm (permute021 ec)) in *.
  set (en' := matmul_out cm' (permute021 ec')) in *.
  clearbody en en'.
  destruct (shape3_inv _ _ _ _ S3) as [n0' [n1' n2']].
  pose proof (softmax2_agree_on P en en' Q3) as Q4.
  split; [exact Q4 |].
  (* attended encoding *)
  assert (Q5 : agree_on1 P (matmul_out (softmax2 en) eb)
                           (matmul_out (softmax2 en') eb')).
  { apply (matmul_out_agree_on P R); [| | exact PR | exact Q4 | exact Qb].
    - cbn [softmax2 d0]. congruence.
    - cbn [softmax2 d2]. congruence. }
  destruct (matmul_ok (softmax2 en) eb) as [_ S5];
    [cbn [softmax2 d0]; congruence | cbn [softmax2 d2]; congruence |].
  cbn [softmax2 d0 d1] in S5. rewrite n0', n1', b2 in S5.
  set (ae := matmul_out (softmax2 en) eb) in *.
  set (ae' := matmul_out (softmax2 en') eb') in *.
  clearbody ae ae'.
  destruct (shape3_inv _ _ _ _ S5) as [a0 [a1 a2]].
  pose proof (permute_agree_on12 _ _ _
                (Linear_out_agree_on P (Decoder.attn_emb2hid self) ae ae' D5 Q5))
    as Q6.
  assert (S6 : shape3 conved
               = shape3 (permute021 (Linear_out (Decoder.attn_emb2hid self) ae))).
  { rewrite permute021_shape. cbn [Linear_out d0 d1 d2]. congruence. }
  apply scale3_agree_on2. apply add3_out_agree_on2; assumption.
Qed.

(** One decoder block: its output and its attention at a target position
    are computed from its input at that position and the [k - 1] positions
    before it, from the embedding at that position and from the encoder
    outputs of the same sentence. *)
Lemma Decoder_block_agree_on (P Q : nat -> nat -> Prop) (R : nat -> Prop)
    (self : Decoder.t) (emb emb' ec ec' eb eb' : tensor3) (conv : Conv1d)
    (x x' y y' att att' : tensor3) (g g1 g1' : rng)
    (output_dim E H k max_length B L S : nat) :
  Decoder_dims output_dim E H k max_length self ->
  conv_dims H k 0 conv -> 1 <= k -> 0 < L ->
  shape3 emb = (B, L, E) -> shape3 ec = (B, S, E) -> shape3 eb = (B, S, E) ->
  shape3 x = (B, H, L) ->
  (forall b t u, Q b t -> u <= t -> t <= u + (k - 1) -> P b u) ->
  (forall b t, Q b t -> R b) ->
  Decoder.block self emb ec eb B H conv x g = inl ((y, att), g1) ->
  Decoder.block self emb' ec' eb' B H conv x' g = inl ((y', att'), g1') ->
  agree_on1 Q emb emb' -> agree_on2 P x x' ->
  agree_on1 (fun b _ => R b) ec ec' -> agree_on1 (fun b _ => R b) eb eb' ->
  agree_on2 Q y y' /\ agree_on1 Q att att' /\ g1 = g1' /\ shape3 y = (B, H, L).
Proof.
  intros D [Hin [Hout [Hk Hp]]] Hk1 HL Se Sv Sb Sx W QR E0 E0' Qe Qx Qv Qb.
  pose proof D as [K [_ [_ [_ [_ [_ [_ [_ [_ [A0 [A1 [B0 [B1 _]]]]]]]]]]]]].
  pose proof Qx as [SX _]. pose proof Qe as [SE _].
  pose proof Qv as [SV _]. pose proof Qb as [SB _].
  unfold Decoder.block in E0, E0'.
  invert_bind E0 d gd Ed. destruct (Dropout_forward_inv _ _ _ _ _ _ Ed) as [-> ->].
  invert_bind E0 pd gp Ep. invert_lift Ep.
  invert_bind E0 cv gc Ec. invert_lift Ec.
  pose proof (Conv1d_forward_channels _ _ _ Ec) as Hch.
  destruct (Conv1d_forward_inv _ _ _ Ec) as [-> Dc].
  invert_bind E0 gl gg Eg. invert_lift Eg. apply glu1_inv in Eg. subst gl.
  invert_bind E0 pr ga Ea. invert_lift Ea. destruct pr as [attention ac].
  invert_bind E0 s gs Es. invert_lift Es. destruct (add3_inv _ _ _ Es) as [-> _].
  unfold ret in E0. injection E0 as <- <- <-.
  invert_bind E0' d' gd' Ed'.
  destruct (Dropout_forward_inv _ _ _ _ _ _ Ed') as [-> ->].
  invert_bind E0' pd' gp' Ep'. invert_lift Ep'.
  invert_bind E0' cv' gc' Ec'. invert_lift Ec'.
  destruct (Conv1d_forward_inv _ _ _ Ec') as [-> _].
  invert_bind E0' gl' gg' Eg'. invert_lift Eg'. apply glu1_inv in Eg'. subst gl'.
  invert_bind E0' pr' ga' Ea'. invert_lift Ea'. destruct pr' as [attention' ac'].
  invert_bind E0' s' gs' Es'. invert_lift Es'. destruct (add3_inv _ _ _ Es') as [-> _].
  unfold ret in E0'. injection E0' as <- <- <-.
  clear Ed Ec Es Ed' Ec' Es'.
  (* the dropout *)
  pose proof (Dropout_agree_on2 P (Decoder.training self) (Decoder.dropout self) g
                x x' Qx) as Q1.
  pose proof (Dropout_shape (Decoder.training self) (Decoder.dropout self) g x) as S1.
  pose proof (Dropout_shape (Decoder.training self) (Decoder.dropout self) g x') as S1'.
  rewrite <- SX, Sx in S1'. rewrite Sx in S1.
  assert (G1 : Dropout_rng (Decoder.training self) g x
               = Dropout_rng (Decoder.training self) g x')
    by (apply Dropout_rng_shape; exact SX).
  set (d := Dropout_out (Decoder.training self) (Decoder.dropout self) g x) in *.
  set (d' := Dropout_out (Decoder.training self) (Decoder.dropout self) g x') in *.
  clearbody d d'.
  destruct (shape3_inv _ _ _ _ S1) as [d0' [d1' d2']].
  (* the padding *)
  destruct (padded_conv_input_ok self B H L k d K Hk1 S1) as [Ep0 Sp].
  rewrite Ep0 in Ep. injection Ep as <-.
  destruct (padded_conv_input_ok self B H L k d' K Hk1 S1') as [Ep0' _].
  rewrite Ep0' in Ep'. injection Ep' as <-.
  clear Ep0 Ep0'.
  set (fill := zeros_fill_out B H (Z.of_nat k - 1) (Decoder.trg_pad_idx self)) in *.
  assert (Fl : d2 fill = k - 1) by (unfold fill; cbn [zeros_fill_out d2]; lia).
  assert (Q2 : agree_on2 (fun b u => k - 1 <= u -> P b (u - (k - 1)))
                 (cat2_out fill d) (cat2_out fill d')).
  { apply (cat2_out_agree_on P); [| | | exact Q1].
    - unfold fill. cbn [zeros_fill_out d0]. congruence.
    - unfold fill. cbn [zeros_fill_out d1]. congruence.
    - intros b u Hu Hlo _. rewrite Fl in Hlo |- *. exact (Hu Hlo). }
  set (pd := cat2_out fill d) in *.
  set (pd' := cat2_out fill d') in *.
  clearbody pd pd'. clear Fl. clearbody fill.
  destruct (shape3_inv _ _ _ _ Sp) as [p0 [p1 p2]].
  (* the convolution and the gate *)
  assert (Q3 : agree_on2 Q (Conv1d_out conv pd) (Conv1d_out conv pd')).
  { apply (Conv1d_out_agree_on (fun b u => k - 1 <= u -> P b (u - (k - 1))) Q
             conv pd pd' Dc); [| exact Q2].
    intros b t j Hq Hj _ _ Hlo. rewrite Hk in Hj. rewrite Hp in Hlo |- *.
    apply (W b t); [exact Hq | lia | lia]. }
  destruct (Conv1d_causal_length conv pd k L Dc Hk Hp Hk1 p2 HL Hch) as [_ S3].
  rewrite p0, Hout in S3.
  pose proof (glu1_out_agree_on Q _ _ Q3) as Q4.
  destruct (glu1_ok (Conv1d_out conv pd) H) as [_ S4].
  { destruct (shape3_inv _ _ _ _ S3) as [_ [c1 _]]. exact c1. }
  destruct (shape3_inv _ _ _ _ S3) as [c0 [_ c2]]. rewrite c0, c2 in S4.
  set (gl := glu1_out (Conv1d_out conv pd)) in *.
  set (gl' := glu1_out (Conv1d_out conv pd')) in *.
  clearbody gl gl'.
  (* the attention *)
  destruct (calculate_attention_agree_on Q R self emb emb' gl gl' ec ec' eb eb'
              attention attention' ac ac' B L S E H A0 A1 B0 B1 Se S4 Sv Sb QR
              Ea Ea' Qe Q4 Qv Qb) as [Q5 Q6].
  destruct (calculate_attention_ok self emb gl ec eb B L S E H A0 A1 B0 B1 Se S4
              Sv Sb) as [energy [ac0 [Ea0 [_ S6]]]].
  rewrite Ea0 in Ea. injection Ea as _ <-.
  assert (Sad : shape3 ac0 = shape3 d) by congruence.
  split; [| split; [exact Q5 | split; [exact G1 |]]].
  - apply scale3_agree_on2. apply add3_out_agree_on2; [exact Sad | exact Q6 |].
    apply (agree_on2_weaken P Q); [| exact Q1].
    intros b t _ _ Hq. apply (W b t); [exact Hq | lia | lia].
  - rewrite scale3_shape. destruct (add3_same ac0 d Sad) as [_ ->]. exact S6.
Qed.

(** The stack of decoder blocks, with [F] as for the encoder. *)
Lemma Decoder_blocks_agree_on (F : nat -> nat -> nat -> Prop) (R : nat -> Prop)
    (self : Decoder.t) (emb emb' ec ec' eb eb' : tensor3)
    (output_dim E H k max_length B L S : nat) :
  Decoder_dims output_dim E H k max_length self -> 1 <= k -> 0 < L ->
  shape3 emb = (B, L, E) -> shape3 ec = (B, S, E) -> shape3 eb = (B, S, E) ->
  (forall n b t u, F n b t -> u <= t -> t <= u + (k - 1) -> F (Datatypes.S n) b u) ->
  (forall n b t, F n b t -> R b) ->
  agree_on1 (fun b _ => R b) ec ec' -> agree_on1 (fun b _ => R b) eb eb' ->
  forall (cs : list Conv1d) (x x' : tensor3)
         (bound bound' : option (tensor3 * tensor3)) (g : rng)
         (z z' : tensor3) (bd bd' : option (tensor3 * tensor3)) (g1 g1' : rng),
    Forall (conv_dims H k 0) cs -> shape3 x = (B, H, L) ->
    agree_on1 (F (length cs)) emb emb' ->
    Decoder.blocks self emb ec eb B H cs x bound g = inl ((z, bd), g1) ->
    Decoder.blocks self emb' ec' eb' B H cs x' bound' g = inl ((z', bd'), g1') ->
    agree_on2 (F (length cs)) x x' ->
    agree_on2 (F 0) z z' /\ g1 = g1' /\ shape3 z = (B, H, L) /\
    match cs with
    | [] => bd = bound /\ bd' = bound'
    | _ :: _ =>
        exists a a', bd = Some (z, a) /\ bd' = Some (z', a') /\ agree_on1 (F 0) a a'
    end.
Proof.
  intros D Hk1 HL Se Sv Sb W FR Qv Qb. induction cs as [| conv cs IH];
    intros x x' bound bound' g z z' bd bd' g1 g1' Hcs Sx Qe E0 E0' Qx.
  - simpl in E0, E0'. unfold ret in E0, E0'.
    injection E0 as <- <- <-. injection E0' as <- <- <-. auto.
  - inversion Hcs as [| c0 cs0 Hc Hrest]; subst c0 cs0.
    cbn [Decoder.blocks] in E0, E0'.
    invert_bind E0 r gr Er. invert_bind E0' r' gr' Er'.
    destruct r as [y att]. destruct r' as [y' att']. cbn [fst] in E0, E0'.
    cbn [length] in Qe, Qx.
    assert (Qe' : agree_on1 (F (length cs)) emb emb').
    { apply (agree_on1_weaken (F (Datatypes.S (length cs)))); [| exact Qe].
      intros b t _ _ Hf. apply (W (length cs) b t t); [exact Hf | lia | lia]. }
    destruct (Decoder_block_agree_on (F (Datatypes.S (length cs))) (F (length cs)) R
                self emb emb' ec ec' eb eb' conv x x' y y' att att' g gr gr'
                output_dim E H k max_length B L S D Hc Hk1 HL Se Sv Sb Sx
                (W (length cs)) (FR (length cs)) Er Er' Qe' Qx Qv Qb)
      as [Qy [Qa [Gr Sy]]].
    subst gr'.
    destruct (IH y y' (Some (y, att)) (Some (y', att')) gr z z' bd bd' g1 g1'
                Hrest Sy Qe' E0 E0' Qy) as [Qz [G1 [Sz M]]].
    split; [exact Qz |]. split; [exact G1 |]. split; [exact Sz |].
    destruct cs as [| c2 cs2].
    + destruct M as [-> ->].
      simpl in E0, E0'. unfold ret in E0, E0'.
      injection E0 as <- _. injection E0' as <- _.
      exists att, att'. auto.
    + exact M.
Qed.

(** The decoder: [F n] for the number [n] of blocks is the set of pairs
    the target is read at, [F 0] the set of pairs of the logits and of the
    attention; the encoder outputs are read at the rows [R]. *)
Lemma Decoder_forward_agree_on (F : nat -> nat -> nat -> Prop) (R : nat -> Prop)
    (self : Decoder.t) (t t' : ltensor2) (ec ec' eb eb' : tensor3) (g : rng)
    (out att out' att' : tensor3) (g1 g1' : rng)
    (output_dim E H k max_length S : nat) :
  Decoder_dims output_dim E H k max_length self -> 1 <= k -> 0 < l1 t ->
  shape3 ec = (l0 t, S, E) -> shape3 eb = (l0 t, S, E) ->
  (forall n b p u, F n b p -> u <= p -> p <= u + (k - 1) -> F (Datatypes.S n) b u) ->
  (forall n b p, F n b p -> R b) ->
  agree_on1 (fun b _ => R b) ec ec' -> agree_on1 (fun b _ => R b) eb eb' ->
  Decoder.forward self t ec eb g = inl ((out, att), g1) ->
  Decoder.forward self t' ec' eb' g = inl ((out', att'), g1') ->
  agree_onL (F (length (Decoder.convs self))) t t' ->
  agree_on1 (F 0) out out' /\ agree_on1 (F 0) att att' /\ g1 = g1'.
Proof.
  intros D Hk1 HL Sv Sb W FR Qv Qb E0 E0' Qt.
  pose proof D as [K [T0 [T1 [P0 [P1 [A0 [A1 [B0 [B1 [_ [_ [_ [_ [F0 [F1 Hcs]]]]]]]]]]]]]]].
  destruct (agree_onL_shape _ _ _ Qt) as [L0 L1].
  unfold Decoder.forward in E0, E0'. rewrite L0, L1 in E0'.
  invert_bind E0 te g2 Et. invert_lift Et. apply Embedding_forward_inv in Et. subst te.
  invert_bind E0 pe g3 Ep. invert_lift Ep. apply Embedding_forward_inv in Ep. subst pe.
  invert_bind E0 sm g4 Es. invert_lift Es. destruct (add3_inv _ _ _ Es) as [-> _].
  invert_bind E0 em g5 Ed. destruct (Dropout_forward_inv _ _ _ _ _ _ Ed) as [-> ->].
  invert_bind E0 ci g6 Ec. invert_lift Ec.
  destruct (Linear_forward_inv _ _ _ Ec) as [-> Dc].
  invert_bind E0 r g7 Eb. destruct r as [z bd].
  invert_bind E0' te' g2' Et'. invert_lift Et'. apply Embedding_forward_inv in Et'.
  subst te'.
  invert_bind E0' pe' g3' Ep'. invert_lift Ep'. apply Embedding_forward_inv in Ep'.
  subst pe'.
  invert_bind E0' sm' g4' Es'. invert_lift Es'. destruct (add3_inv _ _ _ Es') as [-> _].
  invert_bind E0' em' g5' Ed'.
  destruct (Dropout_forward_inv _ _ _ _ _ _ Ed') as [-> ->].
  invert_bind E0' ci' g6' Ec'. invert_lift Ec'.
  destruct (Linear_forward_inv _ _ _ Ec') as [-> _].
  invert_bind E0' r' g7' Eb'. destruct r' as [z' bd'].
  clear Es Ed Ec Es' Ed' Ec'.
  set (n := length (Decoder.convs self)) in *.
  assert (Q1 : agree_on1 (F n)
                 (add3_out (Embedding_out (Decoder.tok_embedding self) t)
                    (Embedding_out (Decoder.pos_embedding self)
                       (arange_repeat (l0 t) (l1 t))))
                 (add3_out (Embedding_out (Decoder.tok_embedding self) t')
                    (Embedding_out (Decoder.pos_embedding self)
                       (arange_repeat (l0 t) (l1 t))))).
  { apply add3_out_agree_on1.
    - unfold shape3. simpl. congruence.
    - apply Embedding_out_agree_on. exact Qt.
    - apply agree_on1_refl. }
  assert (S1 : shape3 (add3_out (Embedding_out (Decoder.tok_embedding self) t)
                         (Embedding_out (Decoder.pos_embedding self)
                            (arange_repeat (l0 t) (l1 t))))
               = (l0 t, l1 t, E)).
  { destruct (add3_same (Embedding_out (Decoder.tok_embedding self) t)
                (Embedding_out (Decoder.pos_embedding self)
                   (arange_repeat (l0 t) (l1 t)))) as [_ ->];
      unfold shape3; simpl; congruence. }
  set (sm := add3_out (Embedding_out (Decoder.tok_embedding self) t) _) in *.
  set (sm' := add3_out (Embedding_out (Decoder.tok_embedding self) t') _) in *.
  clearbody sm sm'.
  pose proof (Dropout_agree_on1 (F n) (Decoder.training self) (Decoder.dropout self)
                g sm sm' Q1) as Q2.
  pose proof (Dropout_shape (Decoder.training self) (Decoder.dropout self) g sm) as S2.
  rewrite S1 in S2.
  assert (G5 : Dropout_rng (Decoder.training self) g sm'
               = Dropout_rng (Decoder.training self) g sm).
  { symmetry. apply Dropout_rng_shape. exact (proj1 Q1). }
  rewrite G5 in Eb'.
  set (g5 := Dropout_rng (Decoder.training self) g sm) in *.
  set (em := Dropout_out (Decoder.training self) (Decoder.dropout self) g sm) in *.
  set (em' := Dropout_out (Decoder.training self) (Decoder.dropout self) g sm') in *.
  clearbody em em' g5.
  destruct (shape3_inv _ _ _ _ S2) as [e0 [e1 e2]].
  pose proof (permute_agree_on12 _ _ _ (Linear_out_agree_on (F n) _ em em' Dc Q2)) as Q3.
  assert (S3 : shape3 (permute021 (Linear_out (Decoder.emb2hid self) em))
               = (l0 t, H, l1 t)).
  { rewrite permute021_shape. cbn [Linear_out d0 d1 d2]. congruence. }
  set (ci := permute021 (Linear_out (Decoder.emb2hid self) em)) in *.
  set (ci' := permute021 (Linear_out (Decoder.emb2hid self) em')) in *.
  clearbody ci ci'.
  destruct (shape3_inv _ _ _ _ S3) as [i0 [i1 i2]].
  pose proof Q3 as [S3' _]. unfold shape3 in S3'. injection S3' as j0 j1 j2.
  rewrite <- j0, <- j1 in Eb'. rewrite i0, i1 in Eb, Eb'.
  destruct (Decoder_blocks_agree_on F R self em em' ec ec' eb eb' output_dim E H k
              max_length (l0 t) (l1 t) S D Hk1 HL S2 Sv Sb W FR Qv Qb
              (Decoder.convs self) ci ci' None None g5 z z' bd bd' g7 g7'
              Hcs S3 Q2 Eb Eb' Q3) as [Qz [G7 [Sz M]]].
  subst g7'. clear Eb Eb'.
  destruct (Decoder.convs self) as [| c cs].
  - destruct M as [-> ->]. discriminate E0.
  - destruct M as [a [a' [-> [-> Qa]]]].
    invert_bind E0 h g8 Eh. invert_lift Eh.
    destruct (Linear_forward_inv _ _ _ Eh) as [-> Dh].
    invert_bind E0 dr g9 Er. destruct (Dropout_forward_inv _ _ _ _ _ _ Er) as [-> ->].
    invert_bind E0 o g10 Eo. invert_lift Eo.
    destruct (Linear_forward_inv _ _ _ Eo) as [-> Do].
    unfold ret in E0. injection E0 as <- <- <-.
    invert_bind E0' h' g8' Eh'. invert_lift Eh'.
    destruct (Linear_forward_inv _ _ _ Eh') as [-> _].
    invert_bind E0' dr' g9' Er'.
    destruct (Dropout_forward_inv _ _ _ _ _ _ Er') as [-> ->].
    invert_bind E0' o' g10' Eo'. invert_lift Eo'.
    destruct (Linear_forward_inv _ _ _ Eo') as [-> _].
    unfold ret in E0'. injection E0' as <- <- <-.
    pose proof (Linear_out_agree_on (F 0) (Decoder.hid2emb self) (permute021 z)
                  (permute021 z') Dh (permute_agree_on21 _ _ _ Qz)) as Q4.
    split; [| split; [exact Qa |]].
    + apply (Linear_out_agree_on (F 0) (Decoder.fc_out self) _ _ Do).
      apply Dropout_agree_on1. exact Q4.
    + apply Dropout_rng_shape. exact (proj1 Q4).
Qed.

(** X9.  The receptive field of the encoder.  For an encoder built with
    [n_layers] blocks of kernel size [k] and a hidden width of at least 1
    (without output channels the convolutions raise), in either mode and on the same
    random stream: if two valid source batches of the same shape carry the
    same tokens in sentence [b0] at the positions within
    [n_layers * ((k - 1) / 2)] of [t0], both forward passes return, leave
    the random stream in the same state, and [conved] and [combined] are
    the same at position [t0] of sentence [b0].  Tokens farther away, and
    the other sentences of the batch, do not reach that position. *)
Theorem encoder_receptive_field
    (input_dim emb_dim hid_dim n_layers k : nat) (p : Q) (max_length : nat)
    (w : Encoder.initial) (enc : Encoder.t) (mode : bool)
    (s s' : ltensor2) (g : rng) (b0 t0 : nat) :
  Encoder.init input_dim emb_dim hid_dim n_layers k p max_length w = inl enc ->
  0 < n_layers -> 0 < hid_dim -> 0 < l1 s <= max_length ->
  indices_ok input_dim s = true -> indices_ok input_dim s' = true ->
  agree_onL (around b0 t0 (n_layers * ((k - 1) / 2))) s s' ->
  b0 < l0 s -> t0 < l1 s ->
  exists cv cb cv' cb' g1,
    Encoder.forward (Encoder.train mode enc) s g = inl ((cv, cb), g1) /\
    Encoder.forward (Encoder.train mode enc) s' g = inl ((cv', cb'), g1) /\
    forall c, c < emb_dim ->
              at3 cv b0 t0 c = at3 cv' b0 t0 c /\ at3 cb b0 t0 c = at3 cb' b0 t0 c.
Proof.
  intros Hinit Hn HH HL Is Is' Qs Hb Ht.
  destruct (Encoder_init_inv _ _ _ _ _ _ _ _ _ Hinit) as [Hodd [D [Len _]]].
  destruct (agree_onL_shape _ _ _ Qs) as [L0 L1].
  assert (D' : Encoder_dims input_dim emb_dim hid_dim k max_length
                 (Encoder.train mode enc)) by exact D.
  assert (Hne : Encoder.convs (Encoder.train mode enc) <> []).
  { simpl. intros Hnil. rewrite Hnil in Len. simpl in Len. lia. }
  destruct (Encoder_forward_ok (Encoder.train mode enc) s g input_dim emb_dim
              hid_dim k max_length D' Hodd HH Hne HL Is)
    as [cv [cb [g1 [E [Sv [Sb _]]]]]].
  destruct (Encoder_forward_ok (Encoder.train mode enc) s' g input_dim emb_dim
              hid_dim k max_length D' Hodd HH Hne ltac:(rewrite L1; exact HL) Is')
    as [cv' [cb' [g1' [E' _]]]].
  destruct (Encoder_forward_agree_on
              (fun n => around b0 t0 (n * ((k - 1) / 2))) (Encoder.train mode enc)
              s s' g cv cb cv' cb' g1 g1' input_dim emb_dim hid_dim k max_length
              D' Hodd (proj1 HL)) as [[_ Qv] [[_ Qb] G]]; try assumption.
  - intros n b t u [Hb0 [Hlo Hhi]] Hu H1 H2. unfold around.
    rewrite Nat.mul_succ_l. lia.
  - cbn [Encoder.train Encoder.convs]. rewrite Len. exact Qs.
  - subst g1'. exists cv, cb, cv', cb', g1.
    split; [exact E |]. split; [exact E' |].
    destruct (shape3_inv _ _ _ _ Sv) as [v0 [v1 v2]].
    destruct (shape3_inv _ _ _ _ Sb) as [c0 [c1 c2]].
    assert (A : around b0 t0 (0 * ((k - 1) / 2)) b0 t0) by (unfold around; lia).
    intros c Hc. split; [apply Qv | apply Qb]; (exact A || lia).
Qed.

Lemma encoder_receptive_field_witness :
  exists cv cb cv' cb' g1,
    Encoder.forward (Encoder.train true sample_encoder) sample_src sample_rng
    = inl ((cv, cb), g1) /\
    Encoder.forward (Encoder.train true sample_encoder)
      (of_rows [[2; 4; 5; 6; 7]]%Z) sample_rng
    = inl ((cv', cb'), g1) /\
    forall c, c < 4 ->
              at3 cv 0 1 c = at3 cv' 0 1 c /\ at3 cb 0 1 c = at3 cb' 0 1 c.
Proof.
  apply (encoder_receptive_field 8 4 2 2 3 (1 # 4) default_max_length
           sample_encoder_initial sample_encoder true sample_src
           (of_rows [[2; 4; 5; 6; 7]]%Z) sample_rng 0 1).
  - reflexivity.
  - lia.
  - lia.
  - unfold default_max_length. simpl. lia.
  - reflexivity.
  - reflexivity.
  - split; [reflexivity |]. split; [reflexivity |].
    intros b t Hb Ht [Hb0 [_ Hhi]]. subst b. simpl in Hhi.
    destruct t as [| [| [| [| t]]]]; try reflexivity. lia.
  - simpl. lia.
  - simpl. lia.
Defined.

(** X10.  The window of the decoder.  For a decoder built with [n_layers]
    blocks of kernel size [k] and a hidden width of at least 1 (without
    output channels the convolutions raise), in either mode and on the same random
    stream: if two valid target batches of the same shape carry the same
    tokens in sentence [b0] at the positions from [t0 - n_layers * (k - 1)]
    to [t0], and the encoder outputs are the same for sentence [b0], both
    forward passes return, leave the random stream in the same state, and
    the logits and the attention row at position [t0] of sentence [b0] are
    the same.  Later target tokens, earlier ones outside the window and the
    other sentences of the batch do not reach that position. *)
Theorem decoder_reads_a_window_of_the_target
    (output_dim emb_dim hid_dim n_layers k : nat) (p : Q) (pad : Z)
    (max_length : nat) (w : Decoder.initial) (dec : Decoder.t) (mode : bool)
    (t t' : ltensor2) (ec eb ec' eb' : tensor3) (g : rng) (S b0 t0 : nat) :
  Decoder.init output_dim emb_dim hid_dim n_layers k p pad max_length w = inl dec ->
  0 < n_layers -> 0 < hid_dim -> 1 <= k ->
  0 < l1 t <= max_length ->
  indices_ok output_dim t = true -> indices_ok output_dim t' = true ->
  shape3 ec = (l0 t, S, emb_dim) -> shape3 eb = (l0 t, S, emb_dim) ->
  agree_on1 (row b0) ec ec' -> agree_on1 (row b0) eb eb' ->
  agree_onL (behind b0 t0 (n_layers * (k - 1))) t t' ->
  b0 < l0 t -> t0 < l1 t ->
  exists out att out' att' g1,
    Decoder.forward (Decoder.train mode dec) t ec eb g = inl ((out, att), g1) /\
    Decoder.forward (Decoder.train mode dec) t' ec' eb' g = inl ((out', att'), g1) /\
    (forall c, c < output_dim -> at3 out b0 t0 c = at3 out' b0 t0 c) /\
    (forall q, q < S -> at3 att b0 t0 q = at3 att' b0 t0 q).
Proof.
  intros Hinit Hn HH Hk HL It It' Sv Sb Qv Qb Qt Hb Ht.
  destruct (Decoder_init_inv _ _ _ _ _ _ _ _ _ _ Hinit) as [D [Len _]].
  destruct (agree_onL_shape _ _ _ Qt) as [L0 L1].
  assert (D' : Decoder_dims output_dim emb_dim hid_dim k max_length
                 (Decoder.train mode dec)) by exact D.
  assert (Hne : Decoder.convs (Decoder.train mode dec) <> []).
  { simpl. intros Hnil. rewrite Hnil in Len. simpl in Len. lia. }
  assert (Sv' : shape3 ec' = (l0 t', S, emb_dim)).
  { rewrite L0, <- (proj1 Qv). exact Sv. }
  assert (Sb' : shape3 eb' = (l0 t', S, emb_dim)).
  { rewrite L0, <- (proj1 Qb). exact Sb. }
  destruct (Decoder_forward_ok (Decoder.train mode dec) t ec eb g output_dim
              emb_dim hid_dim k max_length S D' Hk HH Hne HL It Sv Sb)
    as [y [en [g2 [g1 [E [Sy [Sn _]]]]]]].
  destruct (Decoder_forward_ok (Decoder.train mode dec) t' ec' eb' g output_dim
              emb_dim hid_dim k max_length S D' Hk HH Hne
              ltac:(rewrite L1; exact HL) It' Sv' Sb')
    as [y' [en' [g2' [g1' [E' _]]]]].
  assert (F1 : out_features (Decoder.fc_out dec) = output_dim).
  { destruct D as [_ [_ [_ [_ [_ [_ [_ [_ [_ [_ [_ [_ [_ [_ [F1 _]]]]]]]]]]]]]]].
    exact F1. }
  cbn [Decoder.train Decoder.fc_out Decoder.hid2emb Decoder.training
       Decoder.dropout] in E, E'.
  set (out := Linear_out (Decoder.fc_out dec) _) in E.
  assert (So : shape3 out = (l0 t, l1 t, output_dim)).
  { destruct (shape3_inv _ _ _ _ Sy) as [y0 [y1 y2]].
    unfold out, shape3. cbn [Linear_out d0 d1 d2].
    pose proof (Dropout_shape mode (Decoder.dropout dec) g2
                  (Linear_out (Decoder.hid2emb dec) (permute021 y))) as Sd.
    unfold shape3 in Sd. injection Sd as -> -> _.
    cbn [Linear_out permute021 d0 d1 d2]. rewrite y0, y2, F1. reflexivity. }
  set (out' := Linear_out (Decoder.fc_out dec) _) in E'.
  clearbody out out'.
  destruct (Decoder_forward_agree_on
              (fun n => behind b0 t0 (n * (k - 1))) (fun b => b = b0)
              (Decoder.train mode dec) t t' ec ec' eb eb' g out (softmax2 en)
              out' (softmax2 en') g1 g1'
              output_dim emb_dim hid_dim k max_length S D' Hk (proj1 HL) Sv Sb)
    as [[_ Qo] [[_ Qa] G]]; try assumption.
  - intros n b q u [Hb0 [Hlo Hhi]] H1 H2. unfold behind.
    rewrite Nat.mul_succ_l. lia.
  - intros n b q [Hb0 _]. exact Hb0.
  - cbn [Decoder.train Decoder.convs]. rewrite Len. exact Qt.
  - subst g1'. exists out, (softmax2 en), out', (softmax2 en'), g1.
    split; [exact E |]. split; [exact E' |].
    destruct (shape3_inv _ _ _ _ So) as [o0 [o1 o2]].
    destruct (shape3_inv _ _ _ _ Sn) as [n0' [n1' n2']].
    assert (A : behind b0 t0 (0 * (k - 1)) b0 t0) by (unfold behind; lia).
    split.
    + intros c Hc. apply Qo; (exact A || lia).
    + intros q Hq. apply Qa; [| | | exact A]; cbn [softmax2 d0 d1 d2]; lia.
Qed.

Lemma decoder_reads_a_window_of_the_target_witness :
  exists out att out' att' g1,
    Decoder.forward (Decoder.train true sample_decoder)
      (of_rows [[2; 4; 5; 6; 7; 4; 3]]%Z)
      sample_encoder_output sample_encoder_output sample_rng
    = inl ((out, att), g1) /\
    Decoder.forward (Decoder.train true sample_decoder)
      (of_rows [[5; 4; 5; 6; 7; 4; 2]]%Z)
      sample_encoder_output sample_encoder_output sample_rng
    = inl ((out', att'), g1) /\
    (forall c, c < 8 -> at3 out 0 5 c = at3 out' 0 5 c) /\
    (forall q, q < 5 -> at3 att 0 5 q = at3 att' 0 5 q).
Proof.
  apply (decoder_reads_a_window_of_the_target 8 4 2 2 3 (1 # 4) 1
           default_max_length sample_decoder_initial sample_decoder true
           (of_rows [[2; 4; 5; 6; 7; 4; 3]]%Z) (of_rows [[5; 4; 5; 6; 7; 4; 2]]%Z)
           sample_encoder_output sample_encoder_output
           sample_encoder_output sample_encoder_output sample_rng 5 0 5).
  - reflexivity.
  - lia.
  - lia.
  - lia.
  - unfold default_max_length. simpl. lia.
  - reflexivity.
  - reflexivity.
  - reflexivity.
  - reflexivity.
  - apply agree_on1_refl.
  - apply agree_on1_refl.
  - split; [reflexivity |]. split; [reflexivity |].
    intros b t Hb Ht [Hb0 [Hhi Hlo]]. subst b. simpl in Hlo.
    destruct t as [| [| [| [| [| [| t]]]]]]; try reflexivity; lia.
  - simpl. lia.
  - simpl. lia.
Defined.

Lemma agree_onL_shapes_only (x y : ltensor2) :
  l0 y = l0 x -> l1 y = l1 x -> agree_onL (fun _ _ => False) x y.
Proof.
  intros H0 H1. split; [congruence |]. split; [congruence |].
  intros b t _ _ [].
Qed.

(** X11.  Sentences of a batch do not mix, and the logits at a position do
    not see the target beyond it.  For a model built from an encoder and a
    decoder with at least one block and a hidden width of at least 1 each
    (without output channels the convolutions raise), in either mode and on the same
    random stream: on two valid batches of the same shapes whose sentence
    [b0] has the same source, both forward passes return and leave the
    random stream in the same state; and at every target position [p]
    where sentence [b0] carries the same target tokens from
    [p - n_dec * (k_dec - 1)] to [p], the logits and the attention row of
    sentence [b0] are the same. *)
Theorem sentences_of_a_batch_do_not_mix
    (input_dim output_dim emb_dim hid_enc hid_dec n_enc n_dec k_enc k_dec : nat)
    (p_enc p_dec : Q) (pad : Z) (max_length : nat)
    (we : Encoder.initial) (wd : Decoder.initial)
    (enc : Encoder.t) (dec : Decoder.t) (mode : bool)
    (s s' t t' : ltensor2) (g : rng) (b0 : nat) :
  Encoder.init input_dim emb_dim hid_enc n_enc k_enc p_enc max_length we = inl enc ->
  Decoder.init output_dim emb_dim hid_dec n_dec k_dec p_dec pad max_length wd
  = inl dec ->
  0 < n_enc -> 0 < n_dec -> 1 <= k_dec -> 0 < hid_enc -> 0 < hid_dec ->
  l0 s = l0 t -> l0 t' = l0 t -> l1 t' = l1 t ->
  0 < l1 s <= max_length -> 0 < l1 t <= max_length ->
  indices_ok input_dim s = true -> indices_ok input_dim s' = true ->
  indices_ok output_dim t = true -> indices_ok output_dim t' = true ->
  agree_onL (row b0) s s' ->
  b0 < l0 t ->
  exists out att out' att' g1,
    Seq2Seq.forward (Seq2Seq.train mode (Seq2Seq.init enc dec)) s t g
    = inl ((out, att), g1) /\
    Seq2Seq.forward (Seq2Seq.train mode (Seq2Seq.init enc dec)) s' t' g
    = inl ((out', att'), g1) /\
    forall p, p < l1 t ->
      agree_onL (behind b0 p (n_dec * (k_dec - 1))) t t' ->
      (forall c, c < output_dim -> at3 out b0 p c = at3 out' b0 p c) /\
      (forall q, q < l1 s -> at3 att b0 p q = at3 att' b0 p q).
Proof.
  intros He Hd Ne Nd Hk HHe HHd HB T0 T1 Hs Ht Is Is' It It' Qs Hb.
  destruct (Encoder_init_inv _ _ _ _ _ _ _ _ _ He) as [Hodd [De [Le _]]].
  destruct (Decoder_init_inv _ _ _ _ _ _ _ _ _ _ Hd) as [Dd [Ld _]].
  destruct (agree_onL_shape _ _ _ Qs) as [L0 L1].
  assert (De' : Encoder_dims input_dim emb_dim hid_enc k_enc max_length
                  (Encoder.train mode enc)) by exact De.
  assert (Dd' : Decoder_dims output_dim emb_dim hid_dec k_dec max_length
                  (Decoder.train mode dec)) by exact Dd.
  assert (Hne : Encoder.convs (Encoder.train mode enc) <> []).
  { simpl. intros Hnil. rewrite Hnil in Le. simpl in Le. lia. }
  assert (Hnd : Decoder.convs (Decoder.train mode dec) <> []).
  { simpl. intros Hnil. rewrite Hnil in Ld. simpl in Ld. lia. }
  (* the two encoder passes *)
  destruct (Encoder_forward_ok (Encoder.train mode enc) s g input_dim emb_dim
              hid_enc k_enc max_length De' Hodd HHe Hne Hs Is)
    as [cv [cb [g1 [E1 [Sv [Sb _]]]]]].
  destruct (Encoder_forward_ok (Encoder.train mode enc) s' g input_dim emb_dim
              hid_enc k_enc max_length De' Hodd HHe Hne ltac:(rewrite L1; exact Hs) Is')
    as [cv' [cb' [g1' [E1' [Sv' [Sb' _]]]]]].
  destruct (Encoder_forward_agree_on (fun _ => row b0) (Encoder.train mode enc)
              s s' g cv cb cv' cb' g1 g1' input_dim emb_dim hid_enc k_enc
              max_length De' Hodd (proj1 Hs)) as [Qv [Qb G1]]; try assumption.
  { intros n b q u Hr _ _ _. exact Hr. }
  subst g1'. rewrite HB in Sv, Sb.
  rewrite L0, HB, <- T0, L1 in Sv', Sb'.
  (* the two decoder passes *)
  destruct (Decoder_forward_ok (Decoder.train mode dec) t cv cb g1 output_dim
              emb_dim hid_dec k_dec max_length (l1 s) Dd' Hk HHd Hnd Ht It Sv Sb)
    as [y [en [g2 [g3 [E2 [Sy [Sn _]]]]]]].
  destruct (Decoder_forward_ok (Decoder.train mode dec) t' cv' cb' g1 output_dim
              emb_dim hid_dec k_dec max_length (l1 s) Dd' Hk HHd Hnd
              ltac:(rewrite T1; exact Ht) It' Sv' Sb')
    as [y' [en' [g2' [g3' [E2' _]]]]].
  assert (F1 : out_features (Decoder.fc_out dec) = output_dim).
  { destruct Dd as [_ [_ [_ [_ [_ [_ [_ [_ [_ [_ [_ [_ [_ [_ [F1 _]]]]]]]]]]]]]]].
    exact F1. }
  cbn [Decoder.train Decoder.fc_out Decoder.hid2emb Decoder.training
       Decoder.dropout] in E2, E2'.
  set (out := Linear_out (Decoder.fc_out dec) _) in E2.
  assert (So : shape3 out = (l0 t, l1 t, output_dim)).
  { destruct (shape3_inv _ _ _ _ Sy) as [y0 [y1 y2]].
    unfold out, shape3. cbn [Linear_out d0 d1 d2].
    pose proof (Dropout_shape mode (Decoder.dropout dec) g2
                  (Linear_out (Decoder.hid2emb dec) (permute021 y))) as Sd.
    unfold shape3 in Sd. injection Sd as -> -> _.
    cbn [Linear_out permute021 d0 d1 d2]. rewrite y0, y2, F1. reflexivity. }
  set (out' := Linear_out (Decoder.fc_out dec) _) in E2'.
  clearbody out out'.
  (* the state of the random stream *)
  destruct (Decoder_forward_agree_on (fun _ _ _ => False) (fun b => b = b0)
              (Decoder.train mode dec) t t' cv cv' cb cb' g1 out (softmax2 en)
              out' (softmax2 en') g3 g3'
              output_dim emb_dim hid_dec k_dec max_length (l1 s) Dd' Hk (proj1 Ht)
              Sv Sb) as [_ [_ G3]]; try assumption.
  { intros n b q u []. }
  { intros n b q []. }
  { apply agree_onL_shapes_only; assumption. }
  subst g3'.
  exists out, (softmax2 en), out', (softmax2 en'), g3.
  split; [| split].
  - unfold Seq2Seq.forward.
    cbn [Seq2Seq.train Seq2Seq.init Seq2Seq.encoder Seq2Seq.decoder].
    rewrite (bind_ok _ _ _ _ _ E1). exact E2.
  - unfold Seq2Seq.forward.
    cbn [Seq2Seq.train Seq2Seq.init Seq2Seq.encoder Seq2Seq.decoder].
    rewrite (bind_ok _ _ _ _ _ E1'). exact E2'.
  - intros p Hp Qt.
    destruct (Decoder_forward_agree_on
                (fun n => behind b0 p (n * (k_dec - 1))) (fun b => b = b0)
                (Decoder.train mode dec) t t' cv cv' cb cb' g1 out (softmax2 en)
                out' (softmax2 en') g3 g3
                output_dim emb_dim hid_dec k_dec max_length (l1 s) Dd' Hk (proj1 Ht)
                Sv Sb) as [[_ Qo] [[_ Qa] _]]; try assumption.
    + intros n b q u [Hb0 [Hlo Hhi]] H1 H2. unfold behind.
      rewrite Nat.mul_succ_l. lia.
    + intros n b q [Hb0 _]. exact Hb0.
    + cbn [Decoder.train Decoder.convs]. rewrite Ld. exact Qt.
    + destruct (shape3_inv _ _ _ _ So) as [o0 [o1 o2]].
      destruct (shape3_inv _ _ _ _ Sn) as [n0' [n1' n2']].
      assert (A : behind b0 p (0 * (k_dec - 1)) b0 p) by (unfold behind; lia).
      split.
      * intros c Hc. apply Qo; (exact A || lia).
      * intros q Hq. apply Qa; [| | | exact A]; cbn [softmax2 d0 d1 d2]; lia.
Qed.

Lemma sentences_of_a_batch_do_not_mix_witness :
  exists out att out' att' g1,
    Seq2Seq.forward (Seq2Seq.train true (Seq2Seq.init sample_encoder sample_decoder))
      (of_rows [[2; 4; 3]; [2; 5; 3]]%Z) (of_rows [[2; 4; 5]; [2; 6; 7]]%Z) sample_rng
    = inl ((out, att), g1) /\
    Seq2Seq.forward (Seq2Seq.train true (Seq2Seq.init sample_encoder sample_decoder))
      (of_rows [[2; 4; 3]; [2; 6; 3]]%Z) (of_rows [[2; 4; 5]; [2; 7; 6]]%Z) sample_rng
    = inl ((out', att'), g1) /\
    forall p, p < 3 ->
      agree_onL (behind 0 p (2 * (3 - 1)))
        (of_rows [[2; 4; 5]; [2; 6; 7]]%Z) (of_rows [[2; 4; 5]; [2; 7; 6]]%Z) ->
      (forall c, c < 8 -> at3 out 0 p c = at3 out' 0 p c) /\
      (forall q, q < 3 -> at3 att 0 p q = at3 att' 0 p q).
Proof.
  apply (sentences_of_a_batch_do_not_mix 8 8 4 2 2 2 2 3 3 (1 # 4) (1 # 4) 1
           default_max_length sample_encoder_initial sample_decoder_initial
           sample_encoder sample_decoder true
           (of_rows [[2; 4; 3]; [2; 5; 3]]%Z) (of_rows [[2; 4; 3]; [2; 6; 3]]%Z)
           (of_rows [[2; 4; 5]; [2; 6; 7]]%Z) (of_rows [[2; 4; 5]; [2; 7; 6]]%Z)
           sample_rng 0).
  - reflexivity.
  - reflexivity.
  - lia.
  - lia.
  - lia.
  - lia.
  - lia.
  - reflexivity.
  - reflexivity.
  - reflexivity.
  - unfold default_max_length. simpl. lia.
  - unfold default_max_length. simpl. lia.
  - reflexivity.
  - reflexivity.
  - reflexivity.
  - reflexivity.
  - split; [reflexivity |]. split; [reflexivity |].
    intros b t Hb Ht Hr. unfold row in Hr. subst b. reflexivity.
  - simpl. lia.
Defined.

(* ================================================================= *)
(** ** The epoch loop and the two loss functions *)

Lemma train_batches_without_update (optimizer : Type)
    (step : R -> optimizer -> Seq2Seq.t -> Batch -> rng -> optimizer * Seq2Seq.t)
    (model : Seq2Seq.t) (criterion : criterion_t) (clip : R) :
  (forall c o m b g0, snd (step c o m b g0) = m) ->
  forall (it : iterator) (opt : optimizer) (acc : R) (g : rng),
    match train_batches optimizer step model opt criterion clip it acc g,
          evaluate_batches model criterion it acc g with
    | inl ((m, _, loss), g1), inl (loss', g2) => m = model /\ loss = loss' /\ g1 = g2
    | inr e, inr e' => e = e'
    | _, _ => False
    end.
Proof.
  intros Hidle. induction it as [| batch rest IH]; intros opt acc g.
  - simpl. auto.
  - cbn [train_batches evaluate_batches]. unfold bind, get_rng.
    destruct (batch_loss model criterion batch g) as [[loss g1] | e];
      [| reflexivity].
    pose proof (Hidle clip opt model batch g) as Hm.
    destruct (step clip opt model batch g) as [opt' model'].
    simpl in Hm. subst model'. apply IH.
Qed.

(** X13.  [evaluate] is [train] without the update: with an optimizer
    step that leaves the parameters as they are, [train] returns the model
    it was given, switched to training mode, and reports the loss that
    [evaluate] computes on that model from the same random stream, which
    both leave in the same state; and when [train] raises, [evaluate]
    raises the same exception.  The only differences between the two
    functions are the update and the call of [model.train()]. *)
Theorem evaluate_is_train_without_the_update (optimizer : Type)
    (step : R -> optimizer -> Seq2Seq.t -> Batch -> rng -> optimizer * Seq2Seq.t)
    (model : Seq2Seq.t) (it : iterator) (opt : optimizer)
    (criterion : criterion_t) (clip : R) (g : rng) :
  (forall c o m b g0, snd (step c o m b g0) = m) ->
  (forall m o loss g1,
     train optimizer step model it opt criterion clip g = inl ((m, o, loss), g1) ->
     m = Seq2Seq.train true model /\
     evaluate (Seq2Seq.train true model) it criterion g = inl (loss, g1)) /\
  (forall e,
     train optimizer step model it opt criterion clip g = inr e ->
     evaluate (Seq2Seq.train true model) it criterion g = inr e).
Proof.
  intros Hidle. unfold train, evaluate, bind.
  pose proof (train_batches_without_update optimizer step (Seq2Seq.train true model)
                criterion clip Hidle it opt 0%R g) as H.
  destruct (train_batches optimizer step (Seq2Seq.train true model) opt criterion
              clip it 0 g) as [[[[m o] l] g1] | e];
    destruct (evaluate_batches (Seq2Seq.train true model) criterion it 0 g)
      as [[l' g2] | e']; try contradiction.
  - destruct H as [-> [-> ->]].
    destruct (length it =? 0); unfold raise, ret; split.
    + intros m' o' loss g1 Hm. discriminate Hm.
    + intros e He. injection He as <-. reflexivity.
    + intros m' o' loss g1 Hm. injection Hm as <- _ <- <-. auto.
    + intros e He. discriminate He.
  - subst e'. split.
    + intros m' o' loss g1 Hm. discriminate Hm.
    + intros e0 He. injection He as <-. reflexivity.
Qed.

Lemma evaluate_is_train_without_the_update_witness :
  (forall m o loss g1,
     train unit (fun _ o m _ _ => (o, m)) (biased_model 0) [train_pair] tt
       (CrossEntropyLoss 1) CLIP sample_rng = inl ((m, o, loss), g1) ->
     m = Seq2Seq.train true (biased_model 0) /\
     evaluate (Seq2Seq.train true (biased_model 0)) [train_pair]
       (CrossEntropyLoss 1) sample_rng = inl (loss, g1)) /\
  (forall e,
     train unit (fun _ o m _ _ => (o, m)) (biased_model 0) [train_pair] tt
       (CrossEntropyLoss 1) CLIP sample_rng = inr e ->
     evaluate (Seq2Seq.train true (biased_model 0)) [train_pair]
       (CrossEntropyLoss 1) sample_rng = inr e).
Proof.
  apply (evaluate_is_train_without_the_update unit (fun _ o m _ _ => (o, m))
           (biased_model 0) [train_pair] tt (CrossEntropyLoss 1) CLIP sample_rng).
  intros c o m b g0. reflexivity.
Defined.

(* ================================================================= *)
(** ** The sign of the loss *)

Lemma rsum_nonneg (n : nat) (f : nat -> R) :
  (forall i, i < n -> (0 <= f i)%R) -> (0 <= rsum n f)%R.
Proof.
  induction n as [| n IH]; intros Hf; simpl.
  - lra.
  - assert (0 <= rsum n f)%R by (apply IH; intros; apply Hf; lia).
    specialize (Hf n ltac:(lia)). lra.
Qed.

Lemma rsum_ge_term (n : nat) (f : nat -> R) (c : nat) :
  c < n -> (forall i, i < n -> (0 <= f i)%R) -> (f c <= rsum n f)%R.
Proof.
  induction n as [| n IH]; intros Hc Hf; [lia |].
  simpl. assert (Hn : (0 <= rsum n f)%R) by (apply rsum_nonneg; intros; apply Hf; lia).
  destruct (Nat.eq_dec c n) as [-> | Hne].
  - lra.
  - assert (f c <= rsum n f)%R by (apply IH; [lia | intros; apply Hf; lia]).
    specialize (Hf n ltac:(lia)). lra.
Qed.

(** The logarithm of a sum of exponentials is at least each exponent. *)
Lemma log_sum_exp_ge (n : nat) (f : nat -> R) (c : nat) :
  c < n -> (f c <= ln (rsum n (fun i => exp (f i))))%R.
Proof.
  intros Hc.
  assert (Hge : (exp (f c) <= rsum n (fun i => exp (f i)))%R).
  { apply (rsum_ge_term n (fun i => exp (f i)) c Hc).
    intros i _. left. apply exp_pos. }
  pose proof (exp_pos (f c)) as Hp.
  apply Rnot_lt_le. intros Hlt. apply exp_increasing in Hlt.
  rewrite exp_ln in Hlt by lra. lra.
Qed.

Lemma CrossEntropyLoss_nonneg (pad : Z) (input : tensor2) (target : ltensor1)
    (loss : R) :
  CrossEntropyLoss pad input target = inl loss ->
  0 < counted pad target -> (0 <= loss)%R.
Proof.
  unfold CrossEntropyLoss. intros H Hc.
  destruct (r0 input =? n0 target); [| discriminate H].
  destruct (target_ok pad (r1 input) target) eqn:T; [| discriminate H].
  injection H as <-. unfold Rdiv. apply Rle_mult_inv_pos.
  - apply rsum_nonneg. intros i Hi.
    unfold target_ok in T. rewrite forallb_forall in T.
    specialize (T i ltac:(apply in_seq; lia)).
    destruct (atL1 target i =? pad)%Z; [lra |].
    cbn [orb] in T. unfold index_ok in T. apply andb_true_iff in T.
    destruct T as [T1 T2]. apply Z.leb_le in T1. apply Z.ltb_lt in T2.
    pose proof (log_sum_exp_ge (r1 input) (fun c => at2 input i c)
                  (Z.to_nat (atL1 target i)) ltac:(lia)) as Hl.
    cbv beta in Hl. lra.
  - apply lt_0_INR. exact Hc.
Qed.

Lemma batch_loss_nonneg (model : Seq2Seq.t) (pad : Z) (batch : Batch)
    (g g' : rng) (loss : R) :
  batch_loss model (CrossEntropyLoss pad) batch g = inl (loss, g') ->
  0 < counted pad (view_flat (drop_first (trg batch))) -> (0 <= loss)%R.
Proof.
  unfold batch_loss. intros H Hc.
  invert_bind H r g1 E1. destruct r as [out att].
  invert_bind H rows g2 E2. invert_lift H.
  exact (CrossEntropyLoss_nonneg _ _ _ _ H Hc).
Qed.

Lemma evaluate_batches_nonneg (model : Seq2Seq.t) (pad : Z) (it : iterator) :
  Forall (fun batch => 0 < counted pad (view_flat (drop_first (trg batch)))) it ->
  forall (acc : R) (g g' : rng) (loss : R),
    evaluate_batches model (CrossEntropyLoss pad) it acc g = inl (loss, g') ->
    (0 <= acc)%R -> (0 <= loss)%R.
Proof.
  induction 1 as [| batch rest Hb _ IH]; intros acc g g' loss H Hacc.
  - simpl in H. unfold ret in H. injection H as <- _. exact Hacc.
  - cbn [evaluate_batches] in H. invert_bind H l g1 E1.
    pose proof (batch_loss_nonneg _ _ _ _ _ _ E1 Hb) as Hl.
    apply (IH _ _ _ _ H). lra.
Qed.

Lemma train_batches_nonneg (optimizer : Type)
    (step : R -> optimizer -> Seq2Seq.t -> Batch -> rng -> optimizer * Seq2Seq.t)
    (pad : Z) (clip : R) (it : iterator) :
  Forall (fun batch => 0 < counted pad (view_flat (drop_first (trg batch)))) it ->
  forall (model : Seq2Seq.t) (opt : optimizer) (acc : R) (g g' : rng)
         (m : Seq2Seq.t) (o : optimizer) (loss : R),
    train_batches optimizer step model opt (CrossEntropyLoss pad) clip it acc g
    = inl ((m, o, loss), g') ->
    (0 <= acc)%R -> (0 <= loss)%R.
Proof.
  induction 1 as [| batch rest Hb _ IH]; intros model opt acc g g' m o loss H Hacc.
  - simpl in H. unfold ret in H. injection H as _ _ <- _. exact Hacc.
  - cbn [train_batches] in H. invert_bind H g0 g1 E0.
    unfold get_rng in E0. injection E0 as <- <-.
    invert_bind H l g2 E1.
    pose proof (batch_loss_nonneg _ _ _ _ _ _ E1 Hb) as Hl.
    destruct (step clip opt model batch g) as [opt' model'].
    apply (IH _ _ _ _ _ _ _ _ H). lra.
Qed.

(** X14.  The losses that [train] and [evaluate] report under the
    cross-entropy criterion are never negative — the perplexity printed
    from them is at least 1 — when every batch of the iterator has a target
    token after the first that is not padding. *)
Theorem reported_losses_are_not_negative (optimizer : Type)
    (step : R -> optimizer -> Seq2Seq.t -> Batch -> rng -> optimizer * Seq2Seq.t)
    (model : Seq2Seq.t) (it : iterator) (opt : optimizer) (pad : Z) (clip : R)
    (g : rng) :
  Forall (fun batch => 0 < counted pad (view_flat (drop_first (trg batch)))) it ->
  (forall m o loss g',
     train optimizer step model it opt (CrossEntropyLoss pad) clip g
     = inl ((m, o, loss), g') ->
     (0 <= loss)%R /\ (1 <= exp loss)%R) /\
  (forall loss g',
     evaluate model it (CrossEntropyLoss pad) g = inl (loss, g') ->
     (0 <= loss)%R /\ (1 <= exp loss)%R).
Proof.
  intros Hit.
  assert (Hexp : forall x, (0 <= x)%R -> (0 <= x)%R /\ (1 <= exp x)%R).
  { intros x Hx. split; [exact Hx |]. pose proof (exp_ineq1_le x). lra. }
  split.
  - intros m o loss g' H. apply Hexp. unfold train in H.
    invert_bind H r g1 E1. destruct r as [[m1 o1] l1].
    destruct (length it =? 0) eqn:Z0; [discriminate H |].
    unfold ret in H. injection H as _ _ <- _.
    apply Nat.eqb_neq in Z0.
    pose proof (train_batches_nonneg _ _ _ _ _ Hit _ _ _ _ _ _ _ _ E1 (Rle_refl 0))
      as Hl.
    unfold Rdiv. apply Rle_mult_inv_pos; [exact Hl |]. apply lt_0_INR. lia.
  - intros loss g' H. apply Hexp. unfold evaluate in H.
    invert_bind H l1 g1 E1.
    destruct (length it =? 0) eqn:Z0; [discriminate H |].
    unfold ret in H. injection H as <- _.
    apply Nat.eqb_neq in Z0.
    pose proof (evaluate_batches_nonneg _ _ _ Hit _ _ _ _ E1 (Rle_refl 0)) as Hl.
    unfold Rdiv. apply Rle_mult_inv_pos; [exact Hl |]. apply lt_0_INR. lia.
Qed.

Lemma reported_losses_are_not_negative_witness :
  (forall m o loss g',
     train unit raise_eos (biased_model 0) [train_pair; valid_pair] tt
       (CrossEntropyLoss 1) CLIP sample_rng
     = inl ((m, o, loss), g') ->
     (0 <= loss)%R /\ (1 <= exp loss)%R) /\
  (forall loss g',
     evaluate (biased_model 0) [train_pair; valid_pair] (CrossEntropyLoss 1)
       sample_rng = inl (loss, g') ->
     (0 <= loss)%R /\ (1 <= exp loss)%R).
Proof.
  apply (reported_losses_are_not_negative unit raise_eos (biased_model 0)
           [train_pair; valid_pair] tt 1 CLIP sample_rng).
  repeat constructor.
Defined.

(* ================================================================= *)
(** ** Tokens outside the vocabulary *)

Lemma target_ok_last_column (pad : Z) (num : nat) (t : ltensor2) :
  index_ok num pad = true -> 2 <= l1 t ->
  indices_ok num (drop_last t) = true -> indices_ok num t = false ->
  target_ok pad num (view_flat (drop_first t)) = false.
Proof.
  intros Hpad HL Hd Ht.
  destruct (target_ok pad num (view_flat (drop_first t))) eqn:T; [| reflexivity].
  exfalso. rewrite indices_ok_spec in Hd. cbn [drop_last l0 l1 atL2] in Hd.
  assert (Hall : indices_ok num t = true); [| congruence].
  assert (Hix : forall z, index_ok num z = true -> (0 <= z < Z.of_nat num)%Z).
  { intros z Hz. unfold index_ok in Hz. apply andb_true_iff in Hz.
    destruct Hz as [H1 H2]. apply Z.leb_le in H1. apply Z.ltb_lt in H2. lia. }
  apply indices_ok_spec. intros b p Hb Hp.
  destruct (Nat.lt_ge_cases p (l1 t - 1)) as [Hlt | Hge]; [apply Hd; assumption |].
  assert (Hp' : p = l1 t - 2 + 1) by lia.
  unfold target_ok in T. rewrite forallb_forall in T.
  set (m := l1 t - 1) in *.
  specialize (T (m * b + (l1 t - 2))).
  cbn [view_flat drop_first n0 atL1 atL2 l0 l1] in T. fold m in T.
  rewrite <- (Nat.div_unique (m * b + (l1 t - 2)) m b (l1 t - 2)) in T
    by (unfold m; lia).
  rewrite <- (Nat.mod_unique (m * b + (l1 t - 2)) m b (l1 t - 2)) in T
    by (unfold m; lia).
  rewrite <- Hp' in T.
  assert (Hin : In (m * b + (l1 t - 2)) (seq 0 (l0 t * m))).
  { apply in_seq. unfold m. nia. }
  specialize (T Hin). apply orb_true_iff in T. destruct T as [T | T].
  - apply Z.eqb_eq in T. rewrite T. apply Hix. exact Hpad.
  - apply Hix. exact T.
Qed.

(** X15.  A token outside the vocabulary raises.  On a batch with as many
    source as target sentences, a source of 1 to [max_length] tokens and a
    target of 2 to [max_length + 1] tokens, for a model of embedding width
    and hidden widths at least 1, in either mode and with the padding index
    a word of the target vocabulary: when some source token lies
    outside the source vocabulary, or some target token outside the target
    vocabulary, the loss of the batch is not computed and an IndexError is
    raised — by the embedding of the encoder, by the embedding of the
    decoder, or, for the last target token, by the criterion. *)
Theorem token_outside_the_vocabulary_raises
    (input_dim output_dim emb_dim hid_enc hid_dec n_enc n_dec k_enc k_dec : nat)
    (p_enc p_dec : Q) (pad : Z) (max_length : nat)
    (we : Encoder.initial) (wd : Decoder.initial)
    (enc : Encoder.t) (dec : Decoder.t) (mode : bool)
    (s t : ltensor2) (g : rng) :
  Encoder.init input_dim emb_dim hid_enc n_enc k_enc p_enc max_length we = inl enc ->
  Decoder.init output_dim emb_dim hid_dec n_dec k_dec p_dec pad max_length wd
  = inl dec ->
  0 < n_enc -> 0 < n_dec -> 1 <= k_dec -> 0 < output_dim ->
  0 < emb_dim -> 0 < hid_enc -> 0 < hid_dec ->
  l0 s = l0 t ->
  0 < l1 s <= max_length -> 2 <= l1 t <= max_length + 1 ->
  index_ok output_dim pad = true ->
  indices_ok input_dim s = false \/ indices_ok output_dim t = false ->
  batch_loss (Seq2Seq.train mode (Seq2Seq.init enc dec)) (CrossEntropyLoss pad)
    (mkBatch s t) g
  = inr IndexError.
Proof.
  intros He Hd Ne Nd Hk Ho HE HHe HHd HB Hs Ht Hpad Hbad.
  destruct (Encoder_init_inv _ _ _ _ _ _ _ _ _ He) as [Hodd [De [Le _]]].
  destruct (Decoder_init_inv _ _ _ _ _ _ _ _ _ _ Hd) as [Dd [Ld _]].
  assert (Hne : Encoder.convs enc <> []).
  { intros Hnil. rewrite Hnil in Le. simpl in Le. lia. }
  assert (Hnd : Decoder.convs dec <> []).
  { intros Hnil. rewrite Hnil in Ld. simpl in Ld. lia. }
  pose proof De as [T0 [T1 _]]. pose proof Dd as [_ [U0 [U1 _]]].
  assert (HE0 : (emb_dim =? 0) = false) by (apply Nat.eqb_neq; lia).
  destruct (indices_ok input_dim s) eqn:Is.
  - destruct Hbad as [Hbad | It]; [discriminate Hbad |].
    destruct (Encoder_forward_ok (Encoder.train mode enc) s g input_dim emb_dim
                hid_enc k_enc max_length De Hodd HHe Hne Hs Is)
      as [cv [cb [g1 [E1 [Sv [Sb _]]]]]].
    destruct (indices_ok output_dim (drop_last t)) eqn:Id.
    + (* the last target token *)
      assert (Ht' : 0 < l1 (drop_last t) <= max_length) by (simpl; lia).
      destruct (Seq2Seq_forward_ok (Seq2Seq.train mode (Seq2Seq.init enc dec)) s
                  (drop_last t) g input_dim output_dim emb_dim hid_enc hid_dec
                  k_enc k_dec max_length De Dd Hodd Hk HHe HHd Hne Hnd HB Hs Ht' Is
                  Id)
        as [y [energy [g2 [g' [E [Sy _]]]]]].
      destruct (shape3_inv _ _ _ _ Sy) as [y0 [y1 y2]].
      pose proof Dd as [_ [_ [_ [_ [_ [_ [_ [_ [_ [_ [_ [_ [_ [_ [F1 _]]]]]]]]]]]]]]].
      cbn [Seq2Seq.train Seq2Seq.init Seq2Seq.decoder Decoder.train Decoder.fc_out
           Decoder.hid2emb Decoder.training Decoder.dropout] in E, F1.
      set (out := Linear_out (Decoder.fc_out dec) _) in E.
      assert (So : shape3 out = (l0 t, l1 t - 1, output_dim)).
      { unfold out, shape3. cbn [Linear_out d0 d1 d2].
        pose proof (Dropout_shape mode (Decoder.dropout dec) g2
                      (Linear_out (Decoder.hid2emb dec) (permute021 y))) as Sd.
        unfold shape3 in Sd. injection Sd as -> -> _.
        cbn [Linear_out permute021 d0 d1 d2]. rewrite y0, y2, F1. reflexivity. }
      clearbody out.
      destruct (shape3_inv _ _ _ _ So) as [o0 [o1 o2]].
      rewrite (batch_loss_of_forward _ (CrossEntropyLoss pad) (mkBatch s t) g g' out
                 (softmax2 energy) E) by lia.
      unfold lift, CrossEntropyLoss.
      cbn [trg view_rows_out r0 r1 at2].
      replace (n0 (view_flat (drop_first t))) with (l0 t * (l1 t - 1))
        by reflexivity.
      rewrite o0, o1, o2, Nat.eqb_refl.
      rewrite (target_ok_last_column pad output_dim t Hpad (proj1 Ht) Id It).
      reflexivity.
    + (* a target token the decoder embeds *)
      unfold batch_loss, Seq2Seq.forward.
      cbn [src trg Seq2Seq.train Seq2Seq.init Seq2Seq.encoder Seq2Seq.decoder].
      unfold bind at 1. unfold bind at 1. rewrite E1.
      unfold Decoder.forward.
      assert (Ee : Embedding_forward (Decoder.tok_embedding (Decoder.train mode dec))
                     (drop_last t) = inr IndexError).
      { unfold Embedding_forward. cbn [Decoder.train Decoder.tok_embedding].
        rewrite U0, Id, U1, HE0. reflexivity. }
      rewrite (bind_lift_err _ _ _ _ Ee). reflexivity.
  - (* a source token *)
    unfold batch_loss, Seq2Seq.forward.
    cbn [src trg Seq2Seq.train Seq2Seq.init Seq2Seq.encoder Seq2Seq.decoder].
    unfold bind at 1. unfold bind at 1. unfold Encoder.forward.
    assert (Ee : Embedding_forward (Encoder.tok_embedding (Encoder.train mode enc)) s
                 = inr IndexError).
    { unfold Embedding_forward. cbn [Encoder.train Encoder.tok_embedding].
      rewrite T0, Is, T1, HE0. reflexivity. }
    rewrite (bind_lift_err _ _ _ _ Ee). reflexivity.
Qed.

Lemma token_outside_the_vocabulary_raises_witness :
  batch_loss (Seq2Seq.train true (Seq2Seq.init sample_encoder sample_decoder))
    (CrossEntropyLoss 1) (mkBatch sample_src (of_rows [[2; 4; 5; 8]]%Z)) sample_rng
  = inr IndexError.
Proof.
  apply (token_outside_the_vocabulary_raises 8 8 4 2 2 2 2 3 3 (1 # 4) (1 # 4) 1
           default_max_length sample_encoder_initial sample_decoder_initial
           sample_encoder sample_decoder true sample_src
           (of_rows [[2; 4; 5; 8]]%Z) sample_rng).
  - reflexivity.
  - reflexivity.
  - lia.
  - lia.
  - lia.
  - lia.
  - lia.
  - lia.
  - lia.
  - reflexivity.
  - unfold default_max_length. simpl. lia.
  - unfold default_max_length. simpl. lia.
  - reflexivity.
  - right. reflexivity.
Defined.

(* ================================================================= *)
(** ** Constructor arguments that no forward pass survives *)

(** X16.  The constructors accept [n_layers = 0], but the modules they
    build cannot run: on valid tokens of a length within the position
    table, in either mode, the encoder and the decoder embed their input
    and then raise an UnboundLocalError, since the loop over the blocks
    that binds [conved] (and [attention]) has no pass. *)
Theorem model_without_blocks_cannot_run
    (input_dim output_dim emb_dim hid_enc hid_dec k_enc k_dec : nat)
    (p_enc p_dec : Q) (pad : Z) (max_length : nat)
    (we : Encoder.initial) (wd : Decoder.initial)
    (enc : Encoder.t) (dec : Decoder.t) (mode : bool)
    (s t : ltensor2) (g : rng) :
  Encoder.init input_dim emb_dim hid_enc 0 k_enc p_enc max_length we = inl enc ->
  Decoder.init output_dim emb_dim hid_dec 0 k_dec p_dec pad max_length wd = inl dec ->
  l1 s <= max_length -> indices_ok input_dim s = true ->
  l1 t <= max_length -> indices_ok output_dim t = true ->
  Encoder.forward (Encoder.train mode enc) s g = inr UnboundLocalError /\
  forall ec eb,
    Decoder.forward (Decoder.train mode dec) t ec eb g = inr UnboundLocalError.
Proof.
  intros He Hd Hs Is Ht It.
  destruct (Encoder_init_inv _ _ _ _ _ _ _ _ _ He) as [_ [De [Le _]]].
  destruct (Decoder_init_inv _ _ _ _ _ _ _ _ _ _ Hd) as [Dd [Ld _]].
  split.
  - destruct De as [T0 [T1 [P0 [P1 [A0 [A1 _]]]]]].
    unfold Encoder.forward.
    cbn [Encoder.train Encoder.tok_embedding Encoder.pos_embedding Encoder.emb2hid
         Encoder.hid2emb Encoder.convs Encoder.training Encoder.dropout
         Encoder.scale].
    rewrite (bind_lift _ _ _ _
               (Embedding_forward_ok (Encoder.tok_embedding enc) s
                  ltac:(rewrite T0; exact Is))).
    rewrite (bind_lift _ _ _ _
               (Embedding_forward_ok (Encoder.pos_embedding enc)
                  (arange_repeat (l0 s) (l1 s))
                  ltac:(rewrite P0; apply arange_indices_ok; exact Hs))).
    destruct (add3_same (Embedding_out (Encoder.tok_embedding enc) s)
                (Embedding_out (Encoder.pos_embedding enc)
                   (arange_repeat (l0 s) (l1 s)))) as [E1 S1].
    { unfold shape3. simpl. congruence. }
    rewrite (bind_lift _ _ _ _ E1). rewrite bind_dropout.
    set (g1 := Dropout_rng _ g _).
    set (embedded := Dropout_out _ _ g _).
    assert (Se : d2 embedded = in_features (Encoder.emb2hid enc)).
    { pose proof (Dropout_shape mode (Encoder.dropout enc) g
                    (add3_out (Embedding_out (Encoder.tok_embedding enc) s)
                       (Embedding_out (Encoder.pos_embedding enc)
                          (arange_repeat (l0 s) (l1 s))))) as Sd.
      fold embedded in Sd. rewrite S1 in Sd. unfold shape3 in Sd.
      injection Sd as _ _ ->. simpl. congruence. }
    clearbody embedded g1.
    rewrite (bind_lift _ _ _ _ (Linear_forward_ok (Encoder.emb2hid enc) embedded Se)).
    destruct (Encoder.convs enc) as [| c cs]; [reflexivity | discriminate Le].
  - intros ec eb.
    destruct Dd as [_ [T0 [T1 [P0 [P1 [A0 [A1 _]]]]]]].
    unfold Decoder.forward.
    cbn [Decoder.train Decoder.tok_embedding Decoder.pos_embedding Decoder.emb2hid
         Decoder.hid2emb Decoder.convs Decoder.training Decoder.dropout
         Decoder.scale Decoder.fc_out].
    rewrite (bind_lift _ _ _ _
               (Embedding_forward_ok (Decoder.tok_embedding dec) t
                  ltac:(rewrite T0; exact It))).
    rewrite (bind_lift _ _ _ _
               (Embedding_forward_ok (Decoder.pos_embedding dec)
                  (arange_repeat (l0 t) (l1 t))
                  ltac:(rewrite P0; apply arange_indices_ok; exact Ht))).
    destruct (add3_same (Embedding_out (Decoder.tok_embedding dec) t)
                (Embedding_out (Decoder.pos_embedding dec)
                   (arange_repeat (l0 t) (l1 t)))) as [E1 S1].
    { unfold shape3. simpl. congruence. }
    rewrite (bind_lift _ _ _ _ E1). rewrite bind_dropout.
    set (g1 := Dropout_rng _ g _).
    set (embedded := Dropout_out _ _ g _).
    assert (Se : d2 embedded = in_features (Decoder.emb2hid dec)).
    { pose proof (Dropout_shape mode (Decoder.dropout dec) g
                    (add3_out (Embedding_out (Decoder.tok_embedding dec) t)
                       (Embedding_out (Decoder.pos_embedding dec)
                          (arange_repeat (l0 t) (l1 t))))) as Sd.
      fold embedded in Sd. rewrite S1 in Sd. unfold shape3 in Sd.
      injection Sd as _ _ ->. simpl. congruence. }
    clearbody embedded g1.
    rewrite (bind_lift _ _ _ _ (Linear_forward_ok (Decoder.emb2hid dec) embedded Se)).
    cbv zeta.
    destruct (Decoder.convs dec) as [| c cs]; [reflexivity | discriminate Ld].
Qed.

Lemma model_without_blocks_cannot_run_witness :
  Encoder.forward
    (Encoder.train false
       (built (Encoder.init 8 4 2 0 3 (1 # 4) default_max_length
                 sample_encoder_initial) blank_encoder))
    sample_src sample_rng = inr UnboundLocalError /\
  forall ec eb,
    Decoder.forward
      (Decoder.train false
         (built (Decoder.init 8 4 2 0 3 (1 # 4) 1 default_max_length
                   sample_decoder_initial) blank_decoder))
      sample_trg ec eb sample_rng = inr UnboundLocalError.
Proof.
  apply (model_without_blocks_cannot_run 8 8 4 2 2 3 3 (1 # 4) (1 # 4) 1
           default_max_length sample_encoder_initial sample_decoder_initial
           (built (Encoder.init 8 4 2 0 3 (1 # 4) default_max_length
                     sample_encoder_initial) blank_encoder)
           (built (Decoder.init 8 4 2 0 3 (1 # 4) 1 default_max_length
                     sample_decoder_initial) blank_decoder)
           false sample_src sample_trg sample_rng).
  - reflexivity.
  - reflexivity.
  - unfold default_max_length. simpl. lia.
  - reflexivity.
  - unfold default_max_length. simpl. lia.
  - reflexivity.
Defined.

(* ================================================================= *)
(** ** The passes written out

    What a pass that returns has computed, as a term over the total
    functions of the primitives. *)

Lemma padded_conv_input_inv (self : Decoder.t) (B H : nat) (x y : tensor3) :
  Decoder.padded_conv_input self B H x = inl y ->
  y = cat2_out (zeros_fill_out B H (Z.of_nat (Decoder.kernel_size self) - 1)
                  (Decoder.trg_pad_idx self)) x.
Proof.
  unfold Decoder.padded_conv_input, zeros_fill.
  destruct (Z.of_nat (Decoder.kernel_size self) - 1 <? 0)%Z;
    [intros E; discriminate E |].
  cbn [rbind]. unfold cat2.
  destruct ((d0 (zeros_fill_out B H (Z.of_nat (Decoder.kernel_size self) - 1)
                   (Decoder.trg_pad_idx self)) =? d0 x)
            && (d1 (zeros_fill_out B H (Z.of_nat (Decoder.kernel_size self) - 1)
                      (Decoder.trg_pad_idx self)) =? d1 x))%bool;
    intros E; [| discriminate E].
  injection E as <-. reflexivity.
Qed.


Lemma Encoder_forward_inv (self : Encoder.t) (src : ltensor2) (g : rng)
    (conved combined : tensor3) (g' : rng) :
  Encoder.forward self src g = inl ((conved, combined), g') ->
  combined
  = scale3
      (add3_out conved
         (Dropout_out (Encoder.training self) (Encoder.dropout self) g
            (add3_out (Embedding_out (Encoder.tok_embedding self) src)
               (Embedding_out (Encoder.pos_embedding self)
                  (arange_repeat (l0 src) (l1 src))))))
      (Encoder.scale self).
Proof.
  intros E. unfold Encoder.forward in E.
  invert_bind E te g1 Et. invert_lift Et. apply Embedding_forward_inv in Et. subst te.
  invert_bind E pe g2 Ep. invert_lift Ep. apply Embedding_forward_inv in Ep. subst pe.
  invert_bind E s g3 Es. invert_lift Es. destruct (add3_inv _ _ _ Es) as [-> _].
  rewrite bind_dropout in E.
  invert_bind E ci g4 Ec. invert_lift Ec.
  invert_bind E r g5 Eb. destruct r as [z [last |]]; [| discriminate E].
  invert_bind E cv g6 Ev. invert_lift Ev.
  invert_bind E s2 g7 Es2. invert_lift Es2. destruct (add3_inv _ _ _ Es2) as [-> _].
  unfold ret in E. injection E as <- <- _. reflexivity.
Qed.


Lemma Decoder_block_inv (self : Decoder.t) (embedded ec eb : tensor3) (B H : nat)
    (conv : Conv1d) (x y attention : tensor3) (g g' : rng) :
  Decoder.block self embedded ec eb B H conv x g = inl ((y, attention), g') ->
  exists attended_combined,
    Decoder.calculate_attention self embedded
      (glu1_out
         (Conv1d_out conv
            (cat2_out
               (zeros_fill_out B H (Z.of_nat (Decoder.kernel_size self) - 1)
                  (Decoder.trg_pad_idx self))
               (Dropout_out (Decoder.training self) (Decoder.dropout self) g x))))
      ec eb
    = inl (attention, attended_combined) /\
    y = scale3
          (add3_out attended_combined
             (Dropout_out (Decoder.training self) (Decoder.dropout self) g x))
          (Decoder.scale self) /\
    g' = Dropout_rng (Decoder.training self) g x.
Proof.
  intros E. unfold Decoder.block in E. rewrite bind_dropout in E.
  invert_bind E pd g1 Ep. invert_lift Ep. apply padded_conv_input_inv in Ep. subst pd.
  invert_bind E cv g2 Ec. invert_lift Ec. destruct (Conv1d_forward_inv _ _ _ Ec) as [-> _].
  invert_bind E gl g3 Eg. invert_lift Eg. apply glu1_inv in Eg. subst gl.
  invert_bind E pr g4 Ea. invert_lift Ea. destruct pr as [a ac].
  invert_bind E s g5 Es. invert_lift Es. destruct (add3_inv _ _ _ Es) as [-> _].
  unfold ret in E. injection E as <- <- <-.
  exists ac. split; [exact Ea |]. split; reflexivity.
Qed.

Lemma Decoder_blocks_bound (self : Decoder.t) (embedded ec eb : tensor3)
    (B H : nat) (cs : list Conv1d) :
  forall (x : tensor3) (bound : option (tensor3 * tensor3)) (g : rng)
         (z : tensor3) (bd : option (tensor3 * tensor3)) (g' : rng),
    Decoder.blocks self embedded ec eb B H cs x bound g = inl ((z, bd), g') ->
    match cs with
    | [] => bd = bound
    | _ :: _ => exists a, bd = Some (z, a)
    end.
Proof.
  induction cs as [| conv cs IH]; intros x bound g z bd g' E.
  - simpl in E. unfold ret in E. injection E as _ <- _. reflexivity.
  - cbn [Decoder.blocks] in E. invert_bind E r g1 Er.
    specialize (IH _ _ _ _ _ _ E). destruct cs as [| c2 cs2].
    + subst bd. simpl in E. unfold ret in E. injection E as <- _.
      destruct r as [y a]. exists a. reflexivity.
    + exact IH.
Qed.

Lemma Decoder_forward_inv (self : Decoder.t) (trg : ltensor2) (ec eb : tensor3)
    (g : rng) (output attention : tensor3) (g' : rng) :
  Decoder.forward self trg ec eb g = inl ((output, attention), g') ->
  let summed :=
    add3_out (Embedding_out (Decoder.tok_embedding self) trg)
      (Embedding_out (Decoder.pos_embedding self)
         (arange_repeat (l0 trg) (l1 trg))) in
  let embedded :=
    Dropout_out (Decoder.training self) (Decoder.dropout self) g summed in
  let conv_input := permute021 (Linear_out (Decoder.emb2hid self) embedded) in
  exists conved g2,
    Decoder.blocks self embedded ec eb (d0 conv_input) (d1 conv_input)
      (Decoder.convs self) conv_input None
      (Dropout_rng (Decoder.training self) g summed)
    = inl ((conved, Some (conved, attention)), g2) /\
    output
    = Linear_out (Decoder.fc_out self)
        (Dropout_out (Decoder.training self) (Decoder.dropout self) g2
           (Linear_out (Decoder.hid2emb self) (permute021 conved))).
Proof.
  intros E. cbv zeta. unfold Decoder.forward in E.
  invert_bind E te g1 Et. invert_lift Et. apply Embedding_forward_inv in Et. subst te.
  invert_bind E pe g2 Ep. invert_lift Ep. apply Embedding_forward_inv in Ep. subst pe.
  invert_bind E s g3 Es. invert_lift Es. destruct (add3_inv _ _ _ Es) as [-> _].
  rewrite bind_dropout in E.
  invert_bind E ci g4 Ec. invert_lift Ec. destruct (Linear_forward_inv _ _ _ Ec) as [-> _].
  invert_bind E r g5 Eb. destruct r as [z bd].
  pose proof (Decoder_blocks_bound _ _ _ _ _ _ _ _ _ _ _ _ _ Eb) as Hbd.
  destruct (Decoder.convs self) as [| c cs].
  - subst bd. discriminate E.
  - destruct Hbd as [a ->].
    invert_bind E h g6 Eh. invert_lift Eh. destruct (Linear_forward_inv _ _ _ Eh) as [-> _].
    rewrite bind_dropout in E.
    invert_bind E o g7 Eo. invert_lift Eo. destruct (Linear_forward_inv _ _ _ Eo) as [-> _].
    unfold ret in E. injection E as <- <- _.
    exists z, g5. split; [exact Eb | reflexivity].
Qed.

(* ================================================================= *)
(** ** The scale after the residual sums *)



(* ================================================================= *)
(** ** The front padding of the decoder blocks *)

(** C7.  Every block of a decoder built with kernel size [k >= 1] and a
    hidden width of at least 1, in either mode: [Decoder.block] feeds its
    convolution the block's input (after the dropout) with exactly [k - 1]
    positions put in front of it and none behind; every entry of these
    positions is the pad index as a number; the convolution has no padding
    of its own and returns a sequence of the length [L] of the block's
    input; and the block returns the residual sum computed from the
    attention on that convolution. *)
Theorem decoder_block_padding
    (output_dim emb_dim hid_dim n_layers k : nat) (p : Q) (pad : Z)
    (max_length : nat) (w : Decoder.initial) (dec : Decoder.t) (mode : bool)
    (B L S : nat) (embedded ec eb x : tensor3) (conv : Conv1d) (g : rng) :
  Decoder.init output_dim emb_dim hid_dim n_layers k p pad max_length w = inl dec ->
  1 <= k -> 0 < hid_dim -> 0 < L ->
  shape3 embedded = (B, L, emb_dim) ->
  shape3 ec = (B, S, emb_dim) -> shape3 eb = (B, S, emb_dim) ->
  shape3 x = (B, hid_dim, L) ->
  In conv (Decoder.convs dec) ->
  let dropped := Dropout_out mode p g x in
  let padded := cat2_out (zeros_fill_out B hid_dim (Z.of_nat k - 1) pad) dropped in
  shape3 padded = (B, hid_dim, (k - 1) + L) /\
  (forall b c u, u < k - 1 -> at3 padded b c u = IZR pad) /\
  (forall b c t, at3 padded b c (k - 1 + t) = at3 dropped b c t) /\
  padding conv = 0 /\
  Conv1d_forward conv padded = inl (Conv1d_out conv padded) /\
  shape3 (Conv1d_out conv padded) = (B, 2 * hid_dim, L) /\
  exists attention attended_combined,
    Decoder.calculate_attention (Decoder.train mode dec) embedded
      (glu1_out (Conv1d_out conv padded)) ec eb
    = inl (attention, attended_combined) /\
    Decoder.block (Decoder.train mode dec) embedded ec eb B hid_dim conv x g
    = inl ((scale3 (add3_out attended_combined dropped) (sqrt (1 / 2)), attention),
           Dropout_rng mode g x).
Proof.
  intros Hinit Hk HH HL Se Sv Sb Hx Hin dropped padded.
  destruct (Decoder_init_inv _ _ _ _ _ _ _ _ _ _ Hinit)
    as [D [_ [_ [Sd [Pd Hpad]]]]].
  pose proof D as [K DD].
  assert (Hcs : Forall (conv_dims hid_dim k 0) (Decoder.convs dec)).
  { repeat (destruct DD as [_ DD]). exact DD. }
  rewrite Forall_forall in Hcs. pose proof (Hcs conv Hin) as Hc.
  destruct Hc as [Ci [Co [Ck Cp]]].
  assert (Sdrop : shape3 dropped = (B, hid_dim, L)).
  { unfold dropped. rewrite Dropout_shape. exact Hx. }
  destruct (padded_conv_input_ok dec B hid_dim L k dropped K Hk Sdrop) as [_ Sp].
  rewrite Hpad in Sp. fold padded in Sp.
  destruct (shape3_inv _ _ _ _ Sp) as [p0 [p1 p2]].
  destruct (Conv1d_causal_length conv padded k L) as [E2 S2];
    try congruence; try lia.
  rewrite p0, Co in S2.
  assert (Hfill : Z.to_nat (Z.of_nat k - 1) = k - 1) by lia.
  split; [exact Sp |]. split; [| split; [| split; [exact Cp |]]].
  - intros b c u Hu. unfold padded, cat2_out, zeros_fill_out. cbn [d2 at3].
    rewrite Hfill. destruct (u <? k - 1) eqn:F; [reflexivity |].
    apply Nat.ltb_ge in F. lia.
  - intros b c t. unfold padded, cat2_out, zeros_fill_out. cbn [d2 at3].
    rewrite Hfill. destruct (k - 1 + t <? k - 1) eqn:F.
    + apply Nat.ltb_lt in F. lia.
    + f_equal. lia.
  - split; [exact E2 |]. split; [exact S2 |].
    destruct (Decoder_block_ok (Decoder.train mode dec) embedded ec eb conv x g
                output_dim emb_dim hid_dim k max_length B L S D (Hcs conv Hin)
                Hk HL HH Se Sv Sb Hx) as [y [energy [g' [E _]]]].
    destruct (Decoder_block_inv _ _ _ _ _ _ _ _ _ _ _ _ E) as [ac [Ea [Hy Hg]]].
    cbn [Decoder.train Decoder.training Decoder.dropout Decoder.scale
         Decoder.kernel_size Decoder.trg_pad_idx] in Ea, Hy, Hg.
    rewrite K, Hpad, Pd in Ea. rewrite Sd, Pd in Hy.
    fold dropped in Ea, Hy. fold padded in Ea.
    exists (softmax2 energy), ac. split; [exact Ea |].
    rewrite E, Hy, Hg. reflexivity.
Qed.

Lemma decoder_block_padding_witness :
  let embedded := mk3 1 3 4 (fun _ t c => INR (t + c)) in
  let x := mk3 1 2 3 (fun _ c t => INR (c + t)) in
  let conv := mkConv1d 2 (2 * 2) 3 0 (Decoder.convs_w sample_decoder_initial 0)
                (Decoder.convs_b sample_decoder_initial 0) in
  let dropped := Dropout_out true (1 # 4) sample_rng x in
  let padded := cat2_out (zeros_fill_out 1 2 (Z.of_nat 3 - 1) 1) dropped in
  shape3 padded = (1, 2, (3 - 1) + 3) /\
  (forall b c u, u < 3 - 1 -> at3 padded b c u = IZR 1) /\
  (forall b c t, at3 padded b c (3 - 1 + t) = at3 dropped b c t) /\
  padding conv = 0 /\
  Conv1d_forward conv padded = inl (Conv1d_out conv padded) /\
  shape3 (Conv1d_out conv padded) = (1, 2 * 2, 3) /\
  exists attention attended_combined,
    Decoder.calculate_attention (Decoder.train true sample_decoder) embedded
      (glu1_out (Conv1d_out conv padded)) sample_encoder_output
      sample_encoder_output
    = inl (attention, attended_combined) /\
    Decoder.block (Decoder.train true sample_decoder) embedded
      sample_encoder_output sample_encoder_output 1 2 conv x sample_rng
    = inl ((scale3 (add3_out attended_combined dropped) (sqrt (1 / 2)), attention),
           Dropout_rng true sample_rng x).
Proof.
  apply (decoder_block_padding 8 4 2 2 3 (1 # 4) 1 default_max_length
           sample_decoder_initial sample_decoder true 1 3 5
           (mk3 1 3 4 (fun _ t c => INR (t + c))) sample_encoder_output
           sample_encoder_output (mk3 1 2 3 (fun _ c t => INR (c + t)))
           (mkConv1d 2 (2 * 2) 3 0 (Decoder.convs_w sample_decoder_initial 0)
              (Decoder.convs_b sample_decoder_initial 0)) sample_rng).
  - reflexivity.
  - lia.
  - lia.
  - lia.
  - reflexivity.
  - reflexivity.
  - reflexivity.
  - reflexivity.
  - simpl. left. reflexivity.
Defined.

(* ================================================================= *)
(** ** Positions and the position table *)

Lemma Encoder_init_pos (input_dim emb_dim hid_dim n_layers k : nat) (p : Q)
    (max_length : nat) (w : Encoder.initial) (enc : Encoder.t) :
  Encoder.init input_dim emb_dim hid_dim n_layers k p max_length w = inl enc ->
  emb_weight (Encoder.pos_embedding enc) = Encoder.pos_w w.
Proof.
  unfold Encoder.init. destruct (negb (k mod 2 =? 1)); [intros H; discriminate H |].
  intros H. apply rbind_inl in H. destruct H as [q [_ H]].
  injection H as <-. reflexivity.
Qed.

Lemma Decoder_init_pos (output_dim emb_dim hid_dim n_layers k : nat) (p : Q)
    (pad : Z) (max_length : nat) (w : Decoder.initial) (dec : Decoder.t) :
  Decoder.init output_dim emb_dim hid_dim n_layers k p pad max_length w = inl dec ->
  emb_weight (Decoder.pos_embedding dec) = Decoder.pos_w w.
Proof.
  unfold Decoder.init. intros H. apply rbind_inl in H. destruct H as [q [_ H]].
  injection H as <-. reflexivity.
Qed.

(** C9.  For an encoder and a decoder built with a position table of
    [max_length] rows, an embedding width and a hidden width of at least 1
    and at least one block, on non-empty batches of in-vocabulary tokens, in
    either mode.  When the sequence is no longer than [max_length], the
    forward pass looks the positions [0 .. len - 1] up, position [t] reading
    row [t] of the table, all of them in [0, max_length), and returns: the
    encoder's [combined] and the input of the decoder's blocks are computed
    from the sum of the token rows and these position rows.  When the
    sequence is longer, nothing rejects or shortens it before the lookup,
    and the forward pass ends in the lookup's own IndexError. *)
Theorem position_lookup_in_range
    (input_dim output_dim emb_dim hid_dim n_enc n_dec k_enc k_dec : nat)
    (p_enc p_dec : Q) (pad : Z) (max_length : nat)
    (we : Encoder.initial) (wd : Decoder.initial)
    (enc : Encoder.t) (dec : Decoder.t) (mode : bool)
    (src trg : ltensor2) (ec eb : tensor3) (S : nat) (g : rng) :
  Encoder.init input_dim emb_dim hid_dim n_enc k_enc p_enc max_length we = inl enc ->
  Decoder.init output_dim emb_dim hid_dim n_dec k_dec p_dec pad max_length wd
  = inl dec ->
  0 < n_enc -> 0 < n_dec -> 1 <= k_dec -> 0 < hid_dim -> 0 < emb_dim ->
  indices_ok input_dim src = true -> indices_ok output_dim trg = true ->
  0 < l0 src -> 0 < l0 trg -> 0 < l1 src -> 0 < l1 trg ->
  shape3 ec = (l0 trg, S, emb_dim) -> shape3 eb = (l0 trg, S, emb_dim) ->
  let src_pos :=
    Embedding_out (Encoder.pos_embedding enc) (arange_repeat (l0 src) (l1 src)) in
  let trg_pos :=
    Embedding_out (Decoder.pos_embedding dec) (arange_repeat (l0 trg) (l1 trg)) in
  let src_sum := add3_out (Embedding_out (Encoder.tok_embedding enc) src) src_pos in
  let trg_sum := add3_out (Embedding_out (Decoder.tok_embedding dec) trg) trg_pos in
  (forall b t c, at3 src_pos b t c = Encoder.pos_w we t c) /\
  (forall b t c, at3 trg_pos b t c = Decoder.pos_w wd t c) /\
  (l1 src <= max_length ->
     (forall b t, b < l0 src -> t < l1 src ->
        (0 <= atL2 (arange_repeat (l0 src) (l1 src)) b t < Z.of_nat max_length)%Z) /\
     exists conved g',
       Encoder.forward (Encoder.train mode enc) src g
       = inl ((conved,
               scale3 (add3_out conved (Dropout_out mode p_enc g src_sum))
                 (sqrt (1 / 2))), g')) /\
  (l1 trg <= max_length ->
     (forall b t, b < l0 trg -> t < l1 trg ->
        (0 <= atL2 (arange_repeat (l0 trg) (l1 trg)) b t < Z.of_nat max_length)%Z) /\
     exists conved attention g2 g',
       Decoder.blocks (Decoder.train mode dec) (Dropout_out mode p_dec g trg_sum)
         ec eb (l0 trg) hid_dim (Decoder.convs dec)
         (permute021
            (Linear_out (Decoder.emb2hid dec) (Dropout_out mode p_dec g trg_sum)))
         None (Dropout_rng mode g trg_sum)
       = inl ((conved, Some (conved, attention)), g2) /\
       Decoder.forward (Decoder.train mode dec) trg ec eb g
       = inl ((Linear_out (Decoder.fc_out dec)
                 (Dropout_out mode p_dec g2
                    (Linear_out (Decoder.hid2emb dec) (permute021 conved))),
               attention), g')) /\
  (max_length < l1 src ->
     Encoder.forward (Encoder.train mode enc) src g = inr IndexError) /\
  (max_length < l1 trg ->
     Decoder.forward (Decoder.train mode dec) trg ec eb g = inr IndexError).
Proof.
  intros He Hd Ne Nd Hk HH HE Hs Ht Bs Bt Ls Lt Sv Sb src_pos trg_pos src_sum trg_sum.
  destruct (Encoder_init_inv _ _ _ _ _ _ _ _ _ He)
    as [Hodd [De [Le [_ [Se Pe]]]]].
  destruct (Decoder_init_inv _ _ _ _ _ _ _ _ _ _ Hd)
    as [Dd [Ld [_ [Sd [Pd _]]]]].
  pose proof De as [T0 [T1 [P0 [P1 _]]]].
  pose proof Dd as [_ [U0 [U1 [Q0 [Q1 [A0 [A1 _]]]]]]].
  assert (HE0 : (emb_dim =? 0) = false) by (apply Nat.eqb_neq; lia).
  assert (Hne : Encoder.convs (Encoder.train mode enc) <> []).
  { simpl. intros Hnil. rewrite Hnil in Le. simpl in Le. lia. }
  assert (Hnd : Decoder.convs (Decoder.train mode dec) <> []).
  { simpl. intros Hnil. rewrite Hnil in Ld. simpl in Ld. lia. }
  split; [| split; [| split; [| split; [| split]]]].
  - intros b t c. unfold src_pos. cbn [Embedding_out arange_repeat at3 atL2].
    rewrite (Encoder_init_pos _ _ _ _ _ _ _ _ _ He), Nat2Z.id. reflexivity.
  - intros b t c. unfold trg_pos. cbn [Embedding_out arange_repeat at3 atL2].
    rewrite (Decoder_init_pos _ _ _ _ _ _ _ _ _ _ Hd), Nat2Z.id. reflexivity.
  - intros HL. split; [intros b t Hb Hlt; simpl; lia |].
    destruct (Encoder_forward_ok (Encoder.train mode enc) src g input_dim emb_dim
                hid_dim k_enc max_length De Hodd HH Hne (conj Ls HL) Hs)
      as [cv [cb [g' [E _]]]].
    pose proof (Encoder_forward_inv _ _ _ _ _ _ E) as Hcb.
    cbn [Encoder.train Encoder.training Encoder.dropout Encoder.scale
         Encoder.tok_embedding Encoder.pos_embedding] in Hcb.
    rewrite Se, Pe in Hcb. fold src_pos in Hcb. fold src_sum in Hcb.
    exists cv, g'. rewrite E, Hcb. reflexivity.
  - intros HL. split; [intros b t Hb Hlt; simpl; lia |].
    destruct (Decoder_forward_ok (Decoder.train mode dec) trg ec eb g output_dim
                emb_dim hid_dim k_dec max_length S Dd Hk HH Hnd (conj Lt HL) Ht
                Sv Sb) as [y [energy [g2 [g' [E _]]]]].
    pose proof (Decoder_forward_inv _ _ _ _ _ _ _ _ E) as Hinv.
    cbv zeta in Hinv. destruct Hinv as [cv [g3 [Eb Hout]]].
    cbn [Decoder.train Decoder.training Decoder.dropout Decoder.tok_embedding
         Decoder.pos_embedding Decoder.emb2hid Decoder.convs Decoder.fc_out
         Decoder.hid2emb] in Eb, Hout, E.
    rewrite Pd in Eb, Hout, E. fold trg_pos in Eb. fold trg_sum in Eb.
    assert (Sm : shape3 trg_sum = (l0 trg, l1 trg, emb_dim)).
    { unfold trg_sum.
      destruct (add3_same (Embedding_out (Decoder.tok_embedding dec) trg) trg_pos)
        as [_ ->]; unfold trg_pos, shape3; simpl; congruence. }
    assert (Si : shape3 (permute021
                           (Linear_out (Decoder.emb2hid dec)
                              (Dropout_out mode p_dec g trg_sum)))
                 = (l0 trg, hid_dim, l1 trg)).
    { rewrite permute021_shape. cbn [Linear_out d0 d1 d2].
      pose proof (Dropout_shape mode p_dec g trg_sum) as Sdr. rewrite Sm in Sdr.
      unfold shape3 in Sdr. injection Sdr as -> -> _. rewrite A1. reflexivity. }
    destruct (shape3_inv _ _ _ _ Si) as [i0 [i1 _]].
    rewrite i0, i1 in Eb.
    exists cv, (softmax2 energy), g3, g'. split; [exact Eb |].
    rewrite E, Hout. reflexivity.
  - intros HL. unfold Encoder.forward.
    rewrite (bind_lift _ _ _ _
               (Embedding_forward_ok (Encoder.tok_embedding (Encoder.train mode enc))
                  src ltac:(simpl; rewrite T0; exact Hs))).
    apply bind_lift_err. unfold Embedding_forward.
    cbn [Encoder.train Encoder.pos_embedding].
    rewrite P0, (arange_indices_bad _ _ _ Bs HL), P1, HE0. reflexivity.
  - intros HL. unfold Decoder.forward.
    rewrite (bind_lift _ _ _ _
               (Embedding_forward_ok (Decoder.tok_embedding (Decoder.train mode dec))
                  trg ltac:(simpl; rewrite U0; exact Ht))).
    apply bind_lift_err. unfold Embedding_forward.
    cbn [Decoder.train Decoder.pos_embedding].
    rewrite Q0, (arange_indices_bad _ _ _ Bt HL), Q1, HE0. reflexivity.
Qed.

Lemma position_lookup_in_range_witness :
  let src_pos :=
    Embedding_out (Encoder.pos_embedding short_encoder)
      (arange_repeat (l0 sample_src) (l1 sample_src)) in
  let trg_pos :=
    Embedding_out (Decoder.pos_embedding short_decoder)
      (arange_repeat (l0 sample_trg) (l1 sample_trg)) in
  let src_sum :=
    add3_out (Embedding_out (Encoder.tok_embedding short_encoder) sample_src)
      src_pos in
  let trg_sum :=
    add3_out (Embedding_out (Decoder.tok_embedding short_decoder) sample_trg)
      trg_pos in
  (forall b t c, at3 src_pos b t c = Encoder.pos_w sample_encoder_initial t c) /\
  (forall b t c, at3 trg_pos b t c = Decoder.pos_w sample_decoder_initial t c) /\
  (l1 sample_src <= 4 ->
     (forall b t, b < l0 sample_src -> t < l1 sample_src ->
        (0 <= atL2 (arange_repeat (l0 sample_src) (l1 sample_src)) b t
         < Z.of_nat 4)%Z) /\
     exists conved g',
       Encoder.forward (Encoder.train true short_encoder) sample_src sample_rng
       = inl ((conved,
               scale3 (add3_out conved (Dropout_out true (1 # 4) sample_rng src_sum))
                 (sqrt (1 / 2))), g')) /\
  (l1 sample_trg <= 4 ->
     (forall b t, b < l0 sample_trg -> t < l1 sample_trg ->
        (0 <= atL2 (arange_repeat (l0 sample_trg) (l1 sample_trg)) b t
         < Z.of_nat 4)%Z) /\
     exists conved attention g2 g',
       Decoder.blocks (Decoder.train true short_decoder)
         (Dropout_out true (1 # 4) sample_rng trg_sum)
         sample_encoder_output sample_encoder_output (l0 sample_trg) 2
         (Decoder.convs short_decoder)
         (permute021
            (Linear_out (Decoder.emb2hid short_decoder)
               (Dropout_out true (1 # 4) sample_rng trg_sum)))
         None (Dropout_rng true sample_rng trg_sum)
       = inl ((conved, Some (conved, attention)), g2) /\
       Decoder.forward (Decoder.train true short_decoder) sample_trg
         sample_encoder_output sample_encoder_output sample_rng
       = inl ((Linear_out (Decoder.fc_out short_decoder)
                 (Dropout_out true (1 # 4) g2
                    (Linear_out (Decoder.hid2emb short_decoder)
                       (permute021 conved))),
               attention), g')) /\
  (4 < l1 sample_src ->
     Encoder.forward (Encoder.train true short_encoder) sample_src sample_rng
     = inr IndexError) /\
  (4 < l1 sample_trg ->
     Decoder.forward (Decoder.train true short_decoder) sample_trg
       sample_encoder_output sample_encoder_output sample_rng = inr IndexError).
Proof.
  apply (position_lookup_in_range 8 8 4 2 2 2 3 3 (1 # 4) (1 # 4) 1 4
           sample_encoder_initial sample_decoder_initial
           short_encoder short_decoder true sample_src sample_trg
           sample_encoder_output sample_encoder_output 5 sample_rng).
  - reflexivity.
  - reflexivity.
  - lia.
  - lia.
  - lia.
  - lia.
  - lia.
  - reflexivity.
  - reflexivity.
  - simpl. lia.
  - simpl. lia.
  - simpl. lia.
  - simpl. lia.
  - reflexivity.
  - reflexivity.
Defined.

(* ================================================================= *)
(** ** The checkpoint of a completed run *)

Lemma evaluate_nonneg (model : Seq2Seq.t) (pad : Z) (it : iterator)
    (g g' : rng) (loss : R) :
  Forall (fun batch => 0 < counted pad (view_flat (drop_first (trg batch)))) it ->
  evaluate model it (CrossEntropyLoss pad) g = inl (loss, g') -> (0 <= loss)%R.
Proof.
  intros Hit H. unfold evaluate in H. invert_bind H l1 g1 E1.
  destruct (length it =? 0) eqn:Z0; [discriminate H |].
  unfold ret in H. injection H as <- _. apply Nat.eqb_neq in Z0.
  pose proof (evaluate_batches_nonneg _ _ _ Hit _ _ _ _ E1 (Rle_refl 0)) as Hl.
  unfold Rdiv. apply Rle_mult_inv_pos; [exact Hl |]. apply lt_0_INR. lia.
Qed.

Lemma epoch_body_inv (optimizer : Type)
    (step : R -> optimizer -> Seq2Seq.t -> Batch -> rng -> optimizer * Seq2Seq.t)
    (train_iterator valid_iterator : iterator) (criterion : criterion_t)
    (epoch : nat) (st st' : run optimizer) (g g' : rng) :
  epoch_body optimizer step train_iterator valid_iterator criterion epoch st g
  = inl (st', g') ->
  exists valid_loss g1,
    evaluate (run_model st') train_iterator criterion g1 = inl (valid_loss, g') /\
    if below valid_loss (best_valid_loss st)
    then best_valid_loss st' = Finite valid_loss /\
         checkpoint st' = Some (run_model st') /\
         saved_at st' = epoch :: saved_at st
    else best_valid_loss st' = best_valid_loss st /\
         checkpoint st' = checkpoint st /\
         saved_at st' = saved_at st.
Proof.
  unfold epoch_body. intros H.
  invert_bind H r g1 E1. destruct r as [[model opt] train_loss].
  invert_bind H valid_loss g2 E2. exists valid_loss, g1.
  destruct (below valid_loss (best_valid_loss st));
    unfold ret in H; injection H as <- <-; simpl; auto.
Qed.

Lemma epochs_keep_the_checkpoint (optimizer : Type)
    (step : R -> optimizer -> Seq2Seq.t -> Batch -> rng -> optimizer * Seq2Seq.t)
    (train_iterator valid_iterator : iterator) (pad : Z) (n : nat) :
  Forall (fun batch => 0 < counted pad (view_flat (drop_first (trg batch))))
    train_iterator ->
  forall (epoch : nat) (st st' : run optimizer) (g g' : rng),
    epochs optimizer step train_iterator valid_iterator (CrossEntropyLoss pad)
      n epoch st g = inl (st', g') ->
    (exists sd l, checkpoint st = Some sd /\ best_valid_loss st = Finite l /\
                  (0 <= l)%R) ->
    (exists sd l, checkpoint st' = Some sd /\ best_valid_loss st' = Finite l /\
                  (0 <= l)%R) /\
    incl (saved_at st) (saved_at st').
Proof.
  intros Hit. induction n as [| n IH]; intros epoch st st' g g' H Hst.
  - simpl in H. unfold ret in H. injection H as <- _.
    split; [exact Hst | apply incl_refl].
  - cbn [epochs] in H. invert_bind H st1 g1 E1.
    destruct (epoch_body_inv _ _ _ _ _ _ _ _ _ _ E1) as [vl [g0 [Ev Hv]]].
    pose proof (evaluate_nonneg _ _ _ _ _ _ Hit Ev) as Hvl.
    assert (Hst1 : (exists sd l, checkpoint st1 = Some sd /\
                                 best_valid_loss st1 = Finite l /\ (0 <= l)%R) /\
                   incl (saved_at st) (saved_at st1)).
    { destruct (below vl (best_valid_loss st)).
      - destruct Hv as [Hb [Hc Hs]]. split.
        + exists (run_model st1), vl. auto.
        + rewrite Hs. apply incl_tl, incl_refl.
      - destruct Hv as [Hb [Hc Hs]]. split.
        + destruct Hst as [sd [l [Hsd [Hl Hpos]]]]. exists sd, l.
          rewrite Hc, Hb. auto.
        + rewrite Hs. apply incl_refl. }
    destruct Hst1 as [Hst1 I1].
    destruct (IH (S epoch) st1 st' g1 g' H Hst1) as [Hst' I2].
    split; [exact Hst' |]. exact (incl_tran I1 I2).
Qed.

(** X12.  Under the cross-entropy criterion, when every batch of the
    training iterator has a target token after the first that is not
    padding (so that no batch loss is the 0/0 of an empty mean), a run of
    the loop that starts from [best_valid_loss = inf] and completes at least
    one epoch has written the checkpoint: the loss of the first epoch is a
    number that is not negative, it is below [inf], so the first epoch
    saves; afterwards the file exists, the reload [torch.load] finds it, and
    the best loss is a number that is not negative. *)
Theorem completed_run_has_a_checkpoint (optimizer : Type)
    (step : R -> optimizer -> Seq2Seq.t -> Batch -> rng -> optimizer * Seq2Seq.t)
    (train_iterator valid_iterator : iterator) (pad : Z)
    (n epoch : nat) (st st' : run optimizer) (g g' : rng) :
  0 < n -> best_valid_loss st = Infinity ->
  Forall (fun batch => 0 < counted pad (view_flat (drop_first (trg batch))))
    train_iterator ->
  epochs optimizer step train_iterator valid_iterator (CrossEntropyLoss pad)
    n epoch st g = inl (st', g') ->
  In epoch (saved_at st') /\
  exists sd l,
    checkpoint st' = Some sd /\ torch_load (checkpoint st') = inl sd /\
    best_valid_loss st' = Finite l /\ (0 <= l)%R.
Proof.
  intros Hn Hinf Hit H. destruct n as [| n]; [lia |].
  cbn [epochs] in H. invert_bind H st1 g1 E1.
  destruct (epoch_body_inv _ _ _ _ _ _ _ _ _ _ E1) as [vl [g0 [Ev Hv]]].
  pose proof (evaluate_nonneg _ _ _ _ _ _ Hit Ev) as Hvl.
  rewrite Hinf in Hv. cbn [below] in Hv. destruct Hv as [Hb [Hc Hs]].
  destruct (epochs_keep_the_checkpoint _ _ _ _ _ _ Hit _ _ _ _ _ H) as [Hst' I].
  { exists (run_model st1), vl. auto. }
  split.
  - apply I. rewrite Hs. left. reflexivity.
  - destruct Hst' as [sd [l [Hsd [Hl Hpos]]]]. exists sd, l.
    rewrite Hsd. auto.
Qed.

Lemma completed_run_has_a_checkpoint_witness :
  exists st' g',
    epochs unit raise_eos [train_pair] [valid_pair] (CrossEntropyLoss 1) 3 0
      {| run_model := biased_model 0; run_opt := tt; best_valid_loss := Infinity;
         checkpoint := None; saved_at := [] |} sample_rng
    = inl (st', g') /\
    In 0 (saved_at st') /\
    exists sd l,
      checkpoint st' = Some sd /\ torch_load (checkpoint st') = inl sd /\
      best_valid_loss st' = Finite l /\ (0 <= l)%R.
Proof.
  destruct (biased_epochs 3 0 0
              {| run_model := biased_model 0; run_opt := tt;
                 best_valid_loss := Infinity; checkpoint := None; saved_at := [] |}
              sample_rng eq_refl (or_introl eq_refl)) as [st' [g' [E _]]].
  exists st', g'. split; [exact E |].
  apply (completed_run_has_a_checkpoint unit raise_eos [train_pair] [valid_pair]
           1 3 0
           {| run_model := biased_model 0; run_opt := tt;
              best_valid_loss := Infinity; checkpoint := None; saved_at := [] |}
           st' sample_rng g').
  - lia.
  - reflexivity.
  - repeat constructor.
  - exact E.
Defined.
